(** * kick_live_cli: the live ingestion-and-aggregation engine

    A shallow embedding of [run_live] from [kick_live_cli.py]: the shared
    state of a run, the message listener, the snapshot loop with its
    sliding-window statistics, the screenshot capture coordinator and the
    start-up validation, followed by the properties the design document
    states about them.

    Conventions.
    - Wall-clock readings ([time.time()]) are rationals [Q]; the constants
      1, 60, 15, 10 are the source's.
    - Python [str] values are [string]s; [int] counters are [nat] where the
      code only ever increments from zero, [Z] where a user supplies them.
    - The ids under which messages are counted are text: [set()] is a
      [gset string], and what the listener does with a username that is
      not text is told at [listen_step]. [deque()] is a [list] whose head
      is the left end; the [dict] [user_counts] is an association list in
      insertion order, because [sorted] is stable and the order of
      [dict.items()] decides ties.
    - Each [async with lock:] block contains no [await], so it is one
      atomic state transformer. *)

From Stdlib Require Import QArith Lqa ZArith DecimalString.
From stdpp Require Import base gmap sets list strings sorting.

Set Warnings "-register-all".

(** ** Python helpers *)

(** [t < b] and [t >= b] on clock readings. *)
Definition Qlt_bool (a b : Q) : bool := negb (Qle_bool b a).
Definition Qge_bool (a b : Q) : bool := Qle_bool b a.

(** [str(n)] for a non-negative and for an arbitrary [int]. *)
Definition str_nat (n : nat) : string := NilZero.string_of_uint (Nat.to_uint n).
Definition str_int (z : Z) : string := NilZero.string_of_int (Z.to_int z).

(** [sep.join(parts)]. *)
Fixpoint join (sep : string) (parts : list string) : string :=
  match parts with
  | [] => ""
  | [x] => x
  | x :: rest => x +:+ sep +:+ join sep rest
  end.

(** The line feed of ["\n"]. *)
Definition nl : string := String (Ascii.ascii_of_nat 10) EmptyString.

(** [x or y] on strings: the empty string is falsy. *)
Definition str_or (x y : string) : string :=
  if String.eqb x "" then y else x.

(** [str.lower()] on ASCII text. *)
Definition lower_ascii (c : Ascii.ascii) : Ascii.ascii :=
  let n := Ascii.nat_of_ascii c in
  if (65 <=? n)%nat && (n <=? 90)%nat then Ascii.ascii_of_nat (n + 32) else c.

Fixpoint lower (s : string) : string :=
  match s with
  | EmptyString => EmptyString
  | String c rest => String (lower_ascii c) (lower rest)
  end.

(** *** The dict [user_counts] *)

Definition dict := list (string * nat).

(** [d.get(k, 0)] *)
Fixpoint dict_get (d : dict) (k : string) : nat :=
  match d with
  | [] => 0
  | (k', v) :: rest => if String.eqb k' k then v else dict_get rest k
  end.

(** [d[k] = v]: an existing key keeps its position, a new key goes last. *)
Fixpoint dict_set (d : dict) (k : string) (v : nat) : dict :=
  match d with
  | [] => [(k, v)]
  | (k', v') :: rest =>
      if String.eqb k' k then (k', v) :: rest else (k', v') :: dict_set rest k v
  end.

Definition dict_keys (d : dict) : list string := d.*1.
Definition dict_values (d : dict) : list nat := d.*2.

(** *** [sorted(items, key=..., reverse=True)]

    Python's sort is stable, and [reverse=True] keeps the original order of
    items with equal keys. Insertion from the right end puts every item in
    front of the first one whose key is not larger. *)
Fixpoint insert_desc {A} (key : A → nat) (x : A) (l : list A) : list A :=
  match l with
  | [] => [x]
  | y :: rest =>
      if (key y <=? key x)%nat then x :: y :: rest
      else y :: insert_desc key x rest
  end.

Definition sorted_desc {A} (key : A → nat) (l : list A) : list A :=
  foldr (insert_desc key) [] l.

(** ** Shared state of a run *)

Definition event := (Q * string)%type.

Inductive json :=
| JNull
| JBool (b : bool)
| JNum (q : Q)
| JStr (s : string)
| JArr (items : list json)
| JObj (fields : list (string * json)).

(** The snapshot dict built by [snapshot(...)], without its wall-clock
    ["ts"] string. *)
Record snapshot_record := {
  snap_channel : string;
  messages_per_minute : nat;
  messages_per_second : nat;
  unique_per_minute : nat;
  unique_per_second : nat;
  snap_total_messages : nat;
  unique_total : nat;
  viewer_count : option Z;
  screenshot_path : option string;
  screenshot_base64 : option string
}.

(** One line of the session log, again without ["ts"]. *)
Inductive log_record :=
| SessionStart (channel : string) (chatroom : Z)
| Message (channel : string) (username : string) (message : json)
| Snapshot (snap : snapshot_record).

(** The variables [run_live] closes over, the log file and the files of the
    screenshot directory. *)
Record session := {
  events : list event;
  screenshot_paths : list string;
  unique_users : gset string;
  user_counts : dict;
  total_messages : nat;
  current_viewers : option Z;
  latest_screenshot : option string;
  latest_screenshot_b64 : option string;
  start_time : Q;
  last_message_time : Q;
  stop_event : bool;
  log : list log_record;
  files : gset string;
  printed : list string
}.

(** The validated options, as the local variables of [run_live] hold them
    once start-up is over. *)
Record config := {
  channel : string;
  chatroom_id : Z;
  duration : option Z;
  inactivity : option Z;
  screenshot_interval : option Z;
  screenshot_on_snapshot : bool;
  screenshot_format : string;
  screenshot_max : option Z;
  screenshot_embed : bool;
  screenshot_embed_width : option Z;
  screenshot_dir : option string;
  stream_url : option string;
  ffmpeg_path : option string;
  log_path : string
}.

(** [channel or "manual"] *)
Definition channel_label (cfg : config) : string := str_or (channel cfg) "manual".

(** Truthiness of an optional [int] option value: [None] and [0] are falsy. *)
Definition int_truthy (o : option Z) : bool :=
  match o with
  | Some z => negb (z =? 0)%Z
  | None => false
  end.

(** Truthiness of an optional string: [None] and [""] are falsy. *)
Definition opt_str_truthy (o : option string) : bool :=
  match o with
  | Some s => negb (String.eqb s "")
  | None => false
  end.

(** [jsonl_write(fp, record)] *)
Definition jsonl_write (r : log_record) (s : session) : session :=
  {| events := events s; screenshot_paths := screenshot_paths s;
     unique_users := unique_users s; user_counts := user_counts s;
     total_messages := total_messages s; current_viewers := current_viewers s;
     latest_screenshot := latest_screenshot s;
     latest_screenshot_b64 := latest_screenshot_b64 s;
     start_time := start_time s; last_message_time := last_message_time s;
     stop_event := stop_event s; log := log s ++ [r]; files := files s;
     printed := printed s |}.

(** [print(line)] *)
Definition print (line : string) (s : session) : session :=
  {| events := events s; screenshot_paths := screenshot_paths s;
     unique_users := unique_users s; user_counts := user_counts s;
     total_messages := total_messages s; current_viewers := current_viewers s;
     latest_screenshot := latest_screenshot s;
     latest_screenshot_b64 := latest_screenshot_b64 s;
     start_time := start_time s; last_message_time := last_message_time s;
     stop_event := stop_event s; log := log s; files := files s;
     printed := printed s ++ [line] |}.

(** [stop_event.set()] *)
Definition set_stop (s : session) : session :=
  {| events := events s; screenshot_paths := screenshot_paths s;
     unique_users := unique_users s; user_counts := user_counts s;
     total_messages := total_messages s; current_viewers := current_viewers s;
     latest_screenshot := latest_screenshot s;
     latest_screenshot_b64 := latest_screenshot_b64 s;
     start_time := start_time s; last_message_time := last_message_time s;
     stop_event := true; log := log s; files := files s;
     printed := printed s |}.

(** The state right after the [session_start] record is written
    (lines 181-219); [dir_files] is what the screenshot directory holds. *)
Definition initial (cfg : config) (viewers : option Z) (t0 : Q)
    (dir_files : gset string) : session :=
  {| events := []; screenshot_paths := []; unique_users := ∅;
     user_counts := []; total_messages := 0; current_viewers := viewers;
     latest_screenshot := None; latest_screenshot_b64 := None;
     start_time := t0; last_message_time := t0; stop_event := false;
     log := [SessionStart (channel_label cfg) (chatroom_id cfg)];
     files := dir_files;
     printed := ["Logging to " +:+ log_path cfg] |}.

(** ** The listener's critical section (lines 394-399) *)

Definition record_message (now : Q) (username : string) (s : session) : session :=
  {| events := events s ++ [(now, username)];
     screenshot_paths := screenshot_paths s;
     unique_users := unique_users s ∪ {[username]};
     user_counts :=
       dict_set (user_counts s) username (dict_get (user_counts s) username + 1);
     total_messages := total_messages s + 1;
     current_viewers := current_viewers s;
     latest_screenshot := latest_screenshot s;
     latest_screenshot_b64 := latest_screenshot_b64 s;
     start_time := start_time s; last_message_time := now;
     stop_event := stop_event s; log := log s; files := files s;
     printed := printed s |}.

(** ** The snapshot loop's critical section (lines 239-251) *)

(** [while events and events[0][0] < now - 60: events.popleft()] *)
Fixpoint evict (now : Q) (evs : list event) : list event :=
  match evs with
  | [] => []
  | e :: rest => if Qlt_bool e.1 (now - 60) then evict now rest else evs
  end.

Definition set_events (evs : list event) (s : session) : session :=
  {| events := evs; screenshot_paths := screenshot_paths s;
     unique_users := unique_users s; user_counts := user_counts s;
     total_messages := total_messages s; current_viewers := current_viewers s;
     latest_screenshot := latest_screenshot s;
     latest_screenshot_b64 := latest_screenshot_b64 s;
     start_time := start_time s; last_message_time := last_message_time s;
     stop_event := stop_event s; log := log s; files := files s;
     printed := printed s |}.

(** The condition [t >= now - 1] of the two per-second comprehensions. *)
Definition in_last_second (now : Q) (e : event) : bool := Qge_bool e.1 (now - 1).

(** The locals assigned inside the lock. *)
Record stats := {
  per_min : nat;
  per_sec : nat;
  uniq_min : nat;
  uniq_sec : nat;
  msg_total : nat;
  uniq_total : nat;
  top_users : list (string * nat);
  top_display : string;
  viewers : option Z;
  last_msg : Q
}.

(** [f"{name}({count})"] *)
Definition show_user (kv : string * nat) : string :=
  kv.1 +:+ "(" +:+ str_nat kv.2 +:+ ")".

(** Lines 242-251, on the deque as eviction left it. *)
Definition window_stats (now : Q) (s : session) : stats :=
  let top := take 3 (sorted_desc snd (user_counts s)) in
  {| per_min := length (events s);
     per_sec := sum_list_with (λ _, 1) (List.filter (in_last_second now) (events s));
     uniq_min := size (list_to_set (events s).*2 : gset string);
     uniq_sec :=
       size (list_to_set (List.filter (in_last_second now) (events s)).*2
             : gset string);
     msg_total := total_messages s;
     uniq_total := size (unique_users s);
     top_users := top;
     top_display := str_or (join ", " (show_user <$> top)) "n/a";
     viewers := current_viewers s;
     last_msg := last_message_time s |}.

(** The whole critical section: eviction, then the statistics. *)
Definition stats_query (now : Q) (s : session) : session * stats :=
  let s' := set_events (evict now (events s)) s in
  (s', window_stats now s').

(** [snapshot(now, per_min, per_sec, uniq_min, uniq_sec)] (lines 194-208) *)
Definition snapshot (cfg : config) (st : stats) (s : session) : snapshot_record :=
  {| snap_channel := channel_label cfg;
     messages_per_minute := per_min st;
     messages_per_second := per_sec st;
     unique_per_minute := uniq_min st;
     unique_per_second := uniq_sec st;
     snap_total_messages := total_messages s;
     unique_total := size (unique_users s);
     viewer_count := current_viewers s;
     screenshot_path := latest_screenshot s;
     screenshot_base64 :=
       if screenshot_embed cfg then latest_screenshot_b64 s else None |}.

(** ** Capture tasks started by the snapshot loop *)

Inductive task_status := Pending | Done.

(** [tasks] lists every task the loop created with [asyncio.create_task],
    oldest first; [screenshot_task] is the loop's local variable, an index
    into [tasks]. *)
Record sched := {
  tasks : list task_status;
  screenshot_task : option nat
}.

Definition no_tasks : sched := {| tasks := []; screenshot_task := None |}.

(** [screenshot_task.done()] *)
Definition task_done (sc : sched) (i : nat) : bool :=
  match tasks sc !! i with
  | Some Done => true
  | _ => false
  end.

(** [screenshot_task is None or screenshot_task.done()] *)
Definition may_start (sc : sched) : bool :=
  match screenshot_task sc with
  | None => true
  | Some i => task_done sc i
  end.

(** Lines 277-278. *)
Definition trigger_capture (cfg : config) (sc : sched) : sched :=
  if screenshot_on_snapshot cfg && may_start sc
  then {| tasks := tasks sc ++ [Pending];
          screenshot_task := Some (length (tasks sc)) |}
  else sc.

(** The event loop finishes task [i]. *)
Definition finish_task (i : nat) (sc : sched) : sched :=
  {| tasks := <[i := Done]> (tasks sc); screenshot_task := screenshot_task sc |}.

(** ** One iteration of [stats_loop] (lines 237-286)

    [now] is the clock reading of line 238 and [now'] the one of line 283.
    The status line written to the terminal is cosmetic and left out. The
    result tells whether the loop goes on to [asyncio.sleep(1)]. *)
Inductive loop_ctl := Continue | Break.

Definition stats_tick (cfg : config) (now now' : Q) (s : session) (sc : sched)
    : session * sched * loop_ctl :=
  if stop_event s then (s, sc, Break) else
  let '(s1, st) := stats_query now s in
  let s2 := jsonl_write (Snapshot (snapshot cfg st s1)) s1 in
  let sc' := trigger_capture cfg sc in
  if int_truthy (inactivity cfg)
     && Qge_bool (now - last_msg st) (inject_Z (default 0%Z (inactivity cfg)))
  then
    (set_stop
       (print (nl +:+ "Stopping after " +:+ str_int (default 0%Z (inactivity cfg))
               +:+ "s inactivity.") s2), sc', Break)
  else if int_truthy (duration cfg)
          && Qge_bool (now' - start_time s2) (inject_Z (default 0%Z (duration cfg)))
  then (set_stop s2, sc', Break)
  else (s2, sc', Continue).

(** [poll_viewers]: the two critical sections; [count] is [None] when
    [fetch_viewer_count] raised. *)
Definition set_viewers (count : option Z) (s : session) : session :=
  {| events := events s; screenshot_paths := screenshot_paths s;
     unique_users := unique_users s; user_counts := user_counts s;
     total_messages := total_messages s; current_viewers := count;
     latest_screenshot := latest_screenshot s;
     latest_screenshot_b64 := latest_screenshot_b64 s;
     start_time := start_time s; last_message_time := last_message_time s;
     stop_event := stop_event s; log := log s; files := files s;
     printed := printed s |}.

(** ** The capture coordinator: [capture_once] (lines 288-358) *)

(** The two external processes one call can start: [proc] and
    [thumb_proc]. *)
Inductive proc_id := Primary | Thumb.

(** What [asyncio.create_subprocess_exec] does: raise [FileNotFoundError],
    raise something else, or return a process. *)
Inductive spawn_result := SpawnNotFound | SpawnError | Spawned.

(** How a started process behaves when left alone: it exits after
    [finishes_after] time units ([None]: it hangs), with [returncode] and
    [stdout]. *)
Record proc_run := {
  spawn : spawn_result;
  finishes_after : option Q;
  returncode : Z;
  stdout : string
}.

(** What the surroundings decide during one call. [kill_finished_ok] says
    whether [proc.kill()] on a process that has already exited returns
    (otherwise it raises); the source does not fix this. *)
Record capture_world := {
  ts_label : string;
  primary : proc_run;
  thumb : proc_run;
  unlink_ok : string → bool;
  kill_finished_ok : bool;
  b64encode : string → string
}.

Inductive capture_event :=
| EvSpawn (p : proc_id)
| EvExit (p : proc_id) (rc : Z)
| EvTimeout (p : proc_id)
| EvKill (p : proc_id)
| EvUnlink (path : string).

(** Whether the function returned or an exception left it. *)
Inductive completion := Returned | Propagated.

(** [asyncio.wait_for(p.communicate(), timeout=bound)] returns iff the
    process exits within the bound. *)
Definition completes_within (bound : Q) (r : proc_run) : bool :=
  match finishes_after r with
  | Some d => Qle_bool d bound
  | None => false
  end.

(** [old_path.unlink()] inside [try ... except Exception: pass]. *)
Definition unlink (w : capture_world) (p : string) (fs : gset string) : gset string :=
  if bool_decide (p ∈ fs) && unlink_ok w p then fs ∖ {[p]} else fs.

(** [while len(screenshot_paths) > screenshot_max: ...] (lines 319-324).
    The flag is [false] when [popleft] met an empty deque ([IndexError]),
    which needs a negative maximum. *)
Fixpoint trim (w : capture_world) (max : Z) (paths : list string)
    (fs : gset string) : list string * gset string * list capture_event * bool :=
  match paths with
  | [] => ([], fs, [], negb (max <? 0)%Z)
  | old :: rest =>
      if (max <? Z.of_nat (length paths))%Z then
        let '(paths', fs', evs, ok) := trim w max rest (unlink w old fs) in
        (paths', fs', EvUnlink old :: evs, ok)
      else (paths, fs, [], true)
  end.

(** The critical section after a successful primary capture
    (lines 313-324). The file ffmpeg wrote is now in the directory. *)
Definition store_capture (cfg : config) (w : capture_world) (path : string)
    (s : session) : session * list capture_event * bool :=
  let fs := files s ∪ {[path]} in
  let b64 := if screenshot_embed cfg then None else latest_screenshot_b64 s in
  let '(paths, fs', evs, ok) :=
    if int_truthy (screenshot_max cfg)
    then trim w (default 0%Z (screenshot_max cfg)) (screenshot_paths s ++ [path]) fs
    else (screenshot_paths s, fs, [], true) in
  ({| events := events s; screenshot_paths := paths;
      unique_users := unique_users s; user_counts := user_counts s;
      total_messages := total_messages s; current_viewers := current_viewers s;
      latest_screenshot := Some path;
      latest_screenshot_b64 := b64;
      start_time := start_time s; last_message_time := last_message_time s;
      stop_event := stop_event s; log := log s; files := fs';
      printed := printed s |}, evs, ok).

(** The critical section after a successful thumbnail (lines 347-348). *)
Definition set_thumbnail (b64 : string) (s : session) : session :=
  {| events := events s; screenshot_paths := screenshot_paths s;
     unique_users := unique_users s; user_counts := user_counts s;
     total_messages := total_messages s; current_viewers := current_viewers s;
     latest_screenshot := latest_screenshot s;
     latest_screenshot_b64 := Some b64;
     start_time := start_time s; last_message_time := last_message_time s;
     stop_event := stop_event s; log := log s; files := files s;
     printed := printed s |}.

(** [output_path = screenshot_dir / filename] (lines 292-294). *)
Definition output_path (cfg : config) (w : capture_world) (dir : string) : string :=
  dir +:+ "/"
  +:+ str_or (channel cfg) ("chatroom-" +:+ str_int (chatroom_id cfg))
  +:+ "-" +:+ ts_label w +:+ "." +:+ screenshot_format cfg.

(** The handler of [FileNotFoundError] (lines 349-352). *)
Definition on_not_found (s : session) : session :=
  set_stop
    (print (nl +:+ "ffmpeg not found. Install ffmpeg or disable screenshots.") s).

(** The handler of [asyncio.TimeoutError] (lines 353-356). It names [proc],
    the primary process, whichever of the two waits timed out;
    [proc_exited] says whether that process is already gone. *)
Definition on_timeout (w : capture_world) (proc_exited : bool)
    : list capture_event * completion :=
  ([EvKill Primary],
   if proc_exited && negb (kill_finished_ok w) then Propagated else Returned).

Definition capture_once (cfg : config) (w : capture_world) (s : session)
    : session * list capture_event * completion :=
  match screenshot_dir cfg with
  | None => (s, [], Returned)
  | Some dir =>
    if negb (opt_str_truthy (stream_url cfg)) then (s, [], Returned) else
    let path := output_path cfg w dir in
    match spawn (primary w) with
    | SpawnNotFound => (on_not_found s, [], Returned)
    | SpawnError => (s, [], Returned)
    | Spawned =>
      if negb (completes_within 15 (primary w)) then
        let '(evs, c) := on_timeout w false in
        (s, [EvSpawn Primary; EvTimeout Primary] ++ evs, c)
      else
        let tr := [EvSpawn Primary; EvExit Primary (returncode (primary w))] in
        if negb (returncode (primary w) =? 0)%Z then (s, tr, Returned) else
        let '(s1, unl, ok) := store_capture cfg w path s in
        if negb ok then (s1, tr ++ unl, Returned) else
        if negb (screenshot_embed cfg) then (s1, tr ++ unl, Returned) else
        match spawn (thumb w) with
        | SpawnNotFound => (on_not_found s1, tr ++ unl, Returned)
        | SpawnError => (s1, tr ++ unl, Returned)
        | Spawned =>
          if negb (completes_within 10 (thumb w)) then
            let '(evs, c) := on_timeout w true in
            (s1, tr ++ unl ++ [EvSpawn Thumb; EvTimeout Thumb] ++ evs, c)
          else
            let tr' :=
              tr ++ unl ++ [EvSpawn Thumb; EvExit Thumb (returncode (thumb w))] in
            if (returncode (thumb w) =? 0)%Z
               && negb (String.eqb (stdout (thumb w)) "")
            then (set_thumbnail (b64encode w (stdout (thumb w))) s1, tr', Returned)
            else (s1, tr', Returned)
        end
    end
  end.

(** A process is left running by a call when the call started it and
    neither saw it exit nor killed it. *)
Definition proc_id_eqb (a b : proc_id) : bool :=
  match a, b with
  | Primary, Primary | Thumb, Thumb => true
  | _, _ => false
  end.

Definition is_spawn (p : proc_id) (e : capture_event) : bool :=
  match e with EvSpawn q => proc_id_eqb p q | _ => false end.
Definition is_end (p : proc_id) (e : capture_event) : bool :=
  match e with
  | EvExit q _ | EvKill q => proc_id_eqb p q
  | _ => false
  end.
Definition is_kill (p : proc_id) (e : capture_event) : bool :=
  match e with EvKill q => proc_id_eqb p q | _ => false end.

Definition left_running (tr : list capture_event) (p : proc_id) : bool :=
  existsb (is_spawn p) tr && negb (existsb (is_end p) tr).
Definition killed (tr : list capture_event) (p : proc_id) : bool :=
  existsb (is_kill p) tr.

(** ** The listener: [listen] (lines 365-407) *)

Inductive pyerr := AttributeError | TypeError | ValueError | LookupFailed.

(** Python truthiness of a decoded JSON value. *)
Definition truthy (j : json) : bool :=
  match j with
  | JNull => false
  | JBool b => b
  | JNum q => negb (Qeq_bool q 0)
  | JStr s => negb (String.eqb s "")
  | JArr items => negb (bool_decide (items = []))
  | JObj fields => negb (bool_decide (fields = []))
  end.

Fixpoint assoc (k : string) (fields : list (string * json)) : option json :=
  match fields with
  | [] => None
  | (k', v) :: rest => if String.eqb k' k then Some v else assoc k rest
  end.

(** [v.get(k)]: only a dict has the method. *)
Definition py_get (v : json) (k : string) : pyerr + json :=
  match v with
  | JObj fields => inr (default JNull (assoc k fields))
  | _ => inl AttributeError
  end.

(** [x or y] *)
Definition py_or (x y : json) : json := if truthy x then x else y.

(** [v != "text"] *)
Definition differs_from (v : json) (text : string) : bool :=
  match v with
  | JStr s => negb (String.eqb s text)
  | _ => true
  end.

Definition chat_message_event : string :=
  "App" +:+ "\" +:+ "Events" +:+ "\" +:+ "ChatMessageEvent".

(** What [ws.recv()] under [wait_for(..., timeout=1.0)] gives. *)
Inductive recv_result := RecvTimeout | RecvText (message : string).

(** How the handling of one frame ends (lines 374-407): the frame is
    skipped by a [continue]; the message is recorded and logged; an
    exception leaves [listen] with the state as it was; or the critical
    section is left half-way by an exception. *)
Inductive listen_result :=
| Ignored
| Recorded (s : session)
| Failed (e : pyerr)
| Interrupted (s : session) (appended : Q * json)
| NonStringActor (v : json).

(** [(data.get("sender") or {}).get("username") or "anon"] (line 391) *)
Definition username_of (data : json) : pyerr + json :=
  match py_get data "sender" with
  | inl e => inl e
  | inr sender =>
      match py_get (py_or sender (JObj [])) "username" with
      | inl e => inl e
      | inr u => inr (py_or u (JStr "anon"))
      end
  end.

(** [json.loads(payload.get("data") or "{}")] (line 386): [None] stands for
    [JSONDecodeError]; a truthy value that is not text makes [json.loads]
    raise [TypeError]; ["{}"] decodes to the empty dict. *)
Definition loads_data (json_loads : string → option json) (raw : json)
    : pyerr + option json :=
  if truthy raw then
    match raw with
    | JStr text => inr (json_loads text)
    | _ => inl TypeError
    end
  else inr (Some (JObj [])).

(** A set or a dict takes a key only if it can be hashed: a list and a
    dict cannot. *)
Definition hashable (v : json) : bool :=
  match v with
  | JArr _ | JObj _ => false
  | _ => true
  end.

(** Lines 395-396 on their own: the total goes up by one. The event that
    line 395 puts at the right end of the deque carries a username that is
    not text; [events] holds text ids only, so that event is kept beside
    the state (see [Interrupted]). *)
Definition count_message (s : session) : session :=
  {| events := events s; screenshot_paths := screenshot_paths s;
     unique_users := unique_users s; user_counts := user_counts s;
     total_messages := total_messages s + 1;
     current_viewers := current_viewers s;
     latest_screenshot := latest_screenshot s;
     latest_screenshot_b64 := latest_screenshot_b64 s;
     start_time := start_time s; last_message_time := last_message_time s;
     stop_event := stop_event s; log := log s; files := files s;
     printed := printed s |}.

(** The handling of what [recv] gave (lines 374-407), whatever the stop
    signal has become in the meantime: the signal is tested only by the
    loop condition of line 373, before [recv] is awaited (see
    [step_listen_guard]).

    [json_loads] is [json.loads] on the received text, [None] when it
    raises [JSONDecodeError]. The username of line 391 is whatever truthy
    value the frame carries:
    - text: the critical section and the log write run ([Recorded]);
    - a list or a dict: lines 395 and 396 run, then [unique_users.add]
      raises [TypeError], which leaves [listen]: the event stays on the
      deque, the total stays incremented, the set, the dict, the time of
      the last message and the log are untouched ([Interrupted]);
    - a number or [true]: the code records the message under that key; the
      ids of this development are text, it stops there ([NonStringActor]). *)
Definition listen_step (json_loads : string → option json) (cfg : config)
    (now : Q) (r : recv_result) (s : session) : listen_result :=
  match r with
  | RecvTimeout => Ignored
  | RecvText message =>
    match json_loads message with
    | None => Ignored
    | Some payload =>
      match py_get payload "event" with
      | inl e => Failed e
      | inr ev =>
        if differs_from ev chat_message_event then Ignored else
        match py_get payload "data" with
        | inl e => Failed e
        | inr raw =>
          match loads_data json_loads raw with
          | inl e => Failed e
          | inr None => Ignored
          | inr (Some data) =>
            match username_of data, py_get data "content" with
            | inl e, _ | _, inl e => Failed e
            | inr (JStr username), inr c =>
                let content := py_or c (JStr "") in
                let s' := record_message now username s in
                Recorded (jsonl_write (Message (channel_label cfg) username content) s')
            | inr v, inr _ =>
                if hashable v then NonStringActor v
                else Interrupted (count_message s) (now, v)
            end
          end
        end
      end
    end
  end.

(** Every username a decoded frame can carry is text (or missing, which
    line 391 turns into ["anon"]). *)
Definition text_usernames (json_loads : string → option json) : Prop :=
  ∀ text data v,
    json_loads text = Some data → username_of data = inr v → ∃ u, v = JStr u.

(** ** The whole run as a transition system

    The tasks of [run_live] interleave at their [await]s. The state of the
    run is the shared state, the bookkeeping of the capture tasks, and
    where each loop stands:
    - [listener]: the loop of [listen] is at its test (line 373), inside
      [wait_for(ws.recv())] with the test behind it, has ended at its
      test, or was left by an exception; in the last case [appended] is
      the event an interrupted critical section left at the right end of
      the deque;
    - [stats_alive]: no exception has left [stats_loop];
    - [interval_busy]: a call of [capture_once] made by
      [capture_screenshots] is under way;
    - [left_behind]: the external processes that finished calls of
      [capture_once] started and neither saw exit nor killed, each with
      the call it belongs to.

    Every activity is a step when it takes effect on this state. When an
    exception leaves a task, [asyncio.gather] passes it on and [run_live]
    ends; the other tasks may run until then, and the relation lets them.
    One thing the code does has no step: recording a frame whose username
    is a number or [true] (see [listen_step]). *)
Inductive listener_phase :=
| AtGuard
| Receiving
| Ended
| Broken (e : pyerr) (appended : option (Q * json)).

Inductive origin := ByTick (i : nat) | ByInterval.

Record system := {
  sess : session;
  sch : sched;
  listener : listener_phase;
  stats_alive : bool;
  interval_busy : bool;
  left_behind : list (origin * proc_id)
}.

Definition with_sess (s : session) (x : system) : system :=
  {| sess := s; sch := sch x; listener := listener x;
     stats_alive := stats_alive x; interval_busy := interval_busy x;
     left_behind := left_behind x |}.
Definition with_sch (sc : sched) (x : system) : system :=
  {| sess := sess x; sch := sc; listener := listener x;
     stats_alive := stats_alive x; interval_busy := interval_busy x;
     left_behind := left_behind x |}.
Definition with_listener (l : listener_phase) (x : system) : system :=
  {| sess := sess x; sch := sch x; listener := l;
     stats_alive := stats_alive x; interval_busy := interval_busy x;
     left_behind := left_behind x |}.
Definition with_stats_alive (b : bool) (x : system) : system :=
  {| sess := sess x; sch := sch x; listener := listener x;
     stats_alive := b; interval_busy := interval_busy x;
     left_behind := left_behind x |}.
Definition with_interval_busy (b : bool) (x : system) : system :=
  {| sess := sess x; sch := sch x; listener := listener x;
     stats_alive := stats_alive x; interval_busy := b;
     left_behind := left_behind x |}.
Definition with_left_behind (l : list (origin * proc_id)) (x : system) : system :=
  {| sess := sess x; sch := sch x; listener := listener x;
     stats_alive := stats_alive x; interval_busy := interval_busy x;
     left_behind := l |}.

(** The event with a username that is not text, if the deque holds one. *)
Definition stray (l : listener_phase) : option (Q * json) :=
  match l with
  | Broken _ appended => appended
  | _ => None
  end.

(** The loop test of line 373. *)
Definition listen_guard (x : system) : system :=
  with_listener (if stop_event (sess x) then Ended else Receiving) x.

(** The listener after a frame: back at its test, or out of the loop with
    the exception. *)
Definition after_frame (res : listen_result) (x : system) : option system :=
  match res with
  | Ignored => Some (with_listener AtGuard x)
  | Recorded s' => Some (with_listener AtGuard (with_sess s' x))
  | Failed e => Some (with_listener (Broken e None) x)
  | Interrupted s' ev =>
      Some (with_listener (Broken TypeError (Some ev)) (with_sess s' x))
  | NonStringActor _ => None
  end.

(** The processes a finished call leaves running. *)
Definition leftovers (o : origin) (tr : list capture_event)
    : list (origin * proc_id) :=
  (if left_running tr Primary then [(o, Primary)] else [])
  ++ (if left_running tr Thumb then [(o, Thumb)] else []).

(** A call of [capture_once] takes effect on the shared state when it
    finishes. *)
Definition capture_done (cfg : config) (o : origin) (w : capture_world)
    (x : system) : system :=
  let r := capture_once cfg w (sess x) in
  with_left_behind (left_behind x ++ leftovers o r.1.2) (with_sess r.1.1 x).

(** The eviction of line 240 on a deque whose last event is [ev], the one
    with a username that is not text: [ev] goes too when everything before
    it went and it is old enough. *)
Definition stray_evicted (now : Q) (s : session) (ev : Q * json) : bool :=
  bool_decide (evict now (events s) = []) && Qlt_bool ev.1 (now - 60).

Inductive step (json_loads : string → option json) (cfg : config)
    : system → system → Prop :=
| step_tick now now' x s' sc' c :
    (* an iteration of [stats_loop] on a deque of text ids *)
    stats_alive x = true →
    stray (listener x) = None →
    stats_tick cfg now now' (sess x) (sch x) = (s', sc', c) →
    step json_loads cfg x (with_sch sc' (with_sess s' x))
| step_tick_raises now x ev :
    (* the deque holds [ev]: after the eviction the set comprehension of
       line 244 raises [TypeError], which leaves [stats_loop] *)
    stats_alive x = true →
    stray (listener x) = Some ev →
    stop_event (sess x) = false →
    stray_evicted now (sess x) ev = false →
    step json_loads cfg x
      (with_stats_alive false
         (with_sess (set_events (evict now (events (sess x))) (sess x)) x))
| step_tick_evicts now now' x e ev s' sc' c :
    (* the eviction empties the deque, [ev] included; the iteration goes
       on as on an empty deque *)
    stats_alive x = true →
    listener x = Broken e (Some ev) →
    stop_event (sess x) = false →
    stray_evicted now (sess x) ev = true →
    stats_tick cfg now now' (set_events [] (sess x)) (sch x) = (s', sc', c) →
    step json_loads cfg x
      (with_listener (Broken e None) (with_sch sc' (with_sess s' x)))
| step_listen_guard x :
    listener x = AtGuard →
    step json_loads cfg x (listen_guard x)
| step_listen_frame now r x y :
    listener x = Receiving →
    after_frame (listen_step json_loads cfg now r (sess x)) x = Some y →
    step json_loads cfg x y
| step_poll count x :
    (* an iteration of [poll_viewers]: nothing is awaited between its
       test and the assignment *)
    channel cfg ≠ "" →
    stop_event (sess x) = false →
    step json_loads cfg x (with_sess (set_viewers count (sess x)) x)
| step_capture_task i w x :
    (* a capture started by a tick finishes *)
    tasks (sch x) !! i = Some Pending →
    step json_loads cfg x
      (with_sch (finish_task i (sch x)) (capture_done cfg (ByTick i) w x))
| step_interval_start x :
    (* [capture_screenshots] passes its test and calls [capture_once] *)
    int_truthy (screenshot_interval cfg) = true →
    interval_busy x = false →
    stop_event (sess x) = false →
    step json_loads cfg x (with_interval_busy true x)
| step_interval_finish w x :
    interval_busy x = true →
    step json_loads cfg x
      (with_interval_busy false (capture_done cfg ByInterval w x))
| step_process_ends k x :
    (* a process left behind exits by itself *)
    k < length (left_behind x) →
    step json_loads cfg x (with_left_behind (delete k (left_behind x)) x)
| step_stop x :
    (* the duration timer or the [finally] block sets the signal *)
    step json_loads cfg x (with_sess (set_stop (sess x)) x).

(** The run starts with the state of [initial], no capture task, every
    loop at its first test. *)
Definition start (cfg : config) (viewers : option Z) (t0 : Q)
    (dir_files : gset string) : system :=
  {| sess := initial cfg viewers t0 dir_files; sch := no_tasks;
     listener := AtGuard; stats_alive := true; interval_busy := false;
     left_behind := [] |}.

(** The states a run can be in. *)
Definition reachable (json_loads : string → option json) (cfg : config)
    (viewers : option Z) (t0 : Q) (dir_files : gset string) (sys : system) : Prop :=
  rtc (step json_loads cfg) (start cfg viewers t0 dir_files) sys.

(** ** Start-up of [run_live] (lines 109-219 and 409-418) *)

(** The parsed command line ([args]). *)
Record args := {
  arg_channel : option string;
  arg_chatroom_id : option string;
  arg_proxy : option string;
  arg_log : option string;
  arg_duration : option Z;
  arg_inactivity : option Z;
  arg_screenshot_interval : option Z;
  arg_screenshot_on_snapshot : bool;
  arg_screenshot_dir : option string;
  arg_screenshot_max : option Z;
  arg_screenshot_format : option string;
  arg_screenshot_embed : bool;
  arg_screenshot_embed_width : option Z;
  arg_stream_url : option string;
  arg_ffmpeg_path : option string
}.

(** What the surroundings decide during start-up: whether [websockets]
    imports, what [int(...)] makes of the chatroom id ([None]:
    [ValueError]), what the two HTTP lookups return ([None]: they raised),
    the clock, the label of [timestamp_label()], the places
    [resolve_ffmpeg_path] probes, and pathlib's
    [log_path.with_name(log_path.stem + "-screenshots")]. *)
Record startup_world := {
  websockets_installed : bool;
  int_of_str : string → option Z;
  resolved_chatroom : option (option Z * option Z);
  resolve_error : string;
  stamp : string;
  resolved_stream_url : option (option string);
  which_ffmpeg : option string;
  user_choco : string;
  user_choco_exists : bool;
  system_choco_exists : bool;
  screenshots_sibling : string → string;
  clock0 : Q;
  dir_contents : gset string
}.

Inductive task_name :=
| StatsLoop | Listen | PollViewers | CaptureScreenshots | DurationTimer.

(** How start-up ends: [print(reason); return 1] before the log file is
    opened, an exception that nothing catches, or the run proper with its
    options, its first state (the log holds [session_start]) and the tasks
    handed to [asyncio.create_task]. *)
Inductive startup_result :=
| Exit1 (reason : string)
| Uncaught (e : pyerr)
| Started (cfg : config) (s : session) (started : list task_name).

(** [resolve_ffmpeg_path(explicit_path)] (lines 72-84) *)
Definition resolve_ffmpeg_path (w : startup_world) (explicit_path : option string)
    : option string :=
  if opt_str_truthy explicit_path then explicit_path
  else if opt_str_truthy (which_ffmpeg w) then which_ffmpeg w
  else if user_choco_exists w then Some (user_choco w)
  else if system_choco_exists w
       then Some "C:/ProgramData/chocolatey/bin/ffmpeg.exe"
  else None.

(** Truthiness of the chatroom id once resolved: [None] and [0] are falsy. *)
Definition id_truthy (o : option Z) : bool := int_truthy o.

(** Lines 116-140: channel, chatroom id, viewer count and log path. *)
Definition resolve_session (w : startup_world) (a : args)
    : startup_result + (string * Z * option Z * string) :=
  if negb (websockets_installed w) then
    inl (Exit1 "Missing dependency: websockets. Install with: pip install websockets")
  else if negb (opt_str_truthy (arg_channel a))
          && negb (opt_str_truthy (arg_chatroom_id a)) then
    inl (Exit1 "Provide --channel or --chatroom-id")
  else
    let channel := lower (default "" (arg_channel a)) in
    let resolved : startup_result + (option Z * option Z) :=
      if opt_str_truthy (arg_chatroom_id a) then
        match int_of_str w (default "" (arg_chatroom_id a)) with
        | Some n => inr (Some n, None)
        | None => inl (Uncaught ValueError)
        end
      else
        match resolved_chatroom w with
        | Some r => inr r
        | None => inl (Exit1 ("Failed to resolve channel: " +:+ resolve_error w))
        end in
    match resolved with
    | inl r => inl r
    | inr (id, viewer_count) =>
        if negb (id_truthy id) then inl (Exit1 "Chatroom id not found") else
        let chatroom := default 0%Z id in
        let log_path :=
          if opt_str_truthy (arg_log a) then default "" (arg_log a)
          else "kick-session-"
               +:+ str_or channel ("chatroom-" +:+ str_int chatroom)
               +:+ "-" +:+ stamp w +:+ ".jsonl" in
        inr (channel, chatroom, viewer_count, log_path)
    end.

(** [<= 0] on an option that is given. *)
Definition given_nonpositive (o : option Z) : bool :=
  match o with
  | Some z => (z <=? 0)%Z
  | None => false
  end.

(** [screenshot_format not in {"jpg", "png"}] *)
Definition format_allowed (fmt : string) : bool :=
  String.eqb fmt "jpg" || String.eqb fmt "png".

(** Lines 142-219 and 409-418. The creation of the screenshot directory
    ([mkdir]) is not part of the model. *)
Definition configure (w : startup_world) (a : args)
    (channel : string) (chatroom : Z) (viewer_count : option Z)
    (log_path : string) : startup_result :=
  let interval := arg_screenshot_interval a in
  let on_snapshot := arg_screenshot_on_snapshot a in
  let format := lower (str_or (default "" (arg_screenshot_format a)) "jpg") in
  let finish (dir url ffmpeg : option string) : startup_result :=
    let cfg :=
      {| channel := channel; chatroom_id := chatroom;
         duration := arg_duration a; inactivity := arg_inactivity a;
         screenshot_interval := interval;
         screenshot_on_snapshot := on_snapshot;
         screenshot_format := format;
         screenshot_max := arg_screenshot_max a;
         screenshot_embed := arg_screenshot_embed a;
         screenshot_embed_width := arg_screenshot_embed_width a;
         screenshot_dir := dir; stream_url := url; ffmpeg_path := ffmpeg;
         log_path := log_path |} in
    Started cfg (initial cfg viewer_count (clock0 w) (dir_contents w))
      ([StatsLoop; Listen]
       ++ (if negb (String.eqb channel "") then [PollViewers] else [])
       ++ (if int_truthy interval then [CaptureScreenshots] else [])
       ++ (if int_truthy (arg_duration a) then [DurationTimer] else [])) in
  if on_snapshot && int_truthy interval then
    Exit1 "Use either --screenshot-interval or --screenshot-on-snapshot, not both."
  else if negb (format_allowed format) then
    Exit1 "Screenshot format must be jpg or png."
  else if given_nonpositive (arg_screenshot_max a) then
    Exit1 "Screenshot max must be a positive number."
  else if given_nonpositive (arg_screenshot_embed_width a) then
    Exit1 "Screenshot embed width must be a positive number."
  else if int_truthy interval || on_snapshot then
    if given_nonpositive interval then
      Exit1 "Screenshot interval must be a positive number of seconds."
    else
      let url : startup_result + option string :=
        if opt_str_truthy (arg_stream_url a) then inr (arg_stream_url a)
        else if String.eqb channel "" then inr None
        else match resolved_stream_url w with
             | Some u => inr u
             | None => inl (Uncaught LookupFailed)
             end in
      match url with
      | inl r => r
      | inr url =>
          if negb (opt_str_truthy url) then
            Exit1 "Screenshot enabled but stream URL is missing. Use --stream-url."
          else
            let dir :=
              if opt_str_truthy (arg_screenshot_dir a) then arg_screenshot_dir a
              else Some (screenshots_sibling w log_path) in
            match resolve_ffmpeg_path w (arg_ffmpeg_path a) with
            | None =>
                Exit1 "ffmpeg not found. Install it or pass --ffmpeg-path to the executable."
            | Some ffmpeg => finish dir url (Some ffmpeg)
            end
      end
  else finish None None None.

(** [run_live] up to the point where its tasks run. *)
Definition run_live_start (w : startup_world) (a : args) : startup_result :=
  match resolve_session w a with
  | inl r => r
  | inr (channel, chatroom, viewer_count, log_path) =>
      configure w a channel chatroom viewer_count log_path
  end.

(** The log records written and the tasks started by the time start-up is
    over. *)
Definition records_written (r : startup_result) : list log_record :=
  match r with
  | Started _ s _ => log s
  | _ => []
  end.

Definition tasks_started (r : startup_result) : list task_name :=
  match r with
  | Started _ _ ts => ts
  | _ => []
  end.

(** Successive calls of [capture_once], one per world, whichever loop
    makes them; the events of all calls are collected in order. *)
Fixpoint capture_calls (cfg : config) (ws : list capture_world) (s : session)
    : session * list capture_event :=
  match ws with
  | [] => (s, [])
  | w :: rest =>
      let '(s1, tr, _) := capture_once cfg w s in
      let '(s2, tr') := capture_calls cfg rest s1 in
      (s2, tr ++ tr')
  end.

(** The paths a run of calls asked to delete, in order. *)
Definition unlinked (tr : list capture_event) : list string :=
  omap (λ e, match e with EvUnlink p => Some p | _ => None end) tr.

(** The capture tasks of the snapshot loop that have not finished. *)
Definition is_pending (t : task_status) : bool :=
  match t with Pending => true | Done => false end.

Definition pending (sc : sched) : list task_status :=
  List.filter is_pending (tasks sc).

(** ** The windowing as the design document words it

    The age of an event is the difference between the query time and its
    timestamp, clamped at zero; an event is in the 1-unit window when its
    age is at most 1 and is evicted when its age exceeds 60. *)
Definition clamp (d : Q) : Q := if Qle_bool 0 d then d else 0%Q.

Definition age (now : Q) (e : event) : Q := clamp (now - e.1).

Fixpoint evict_by_age (now : Q) (evs : list event) : list event :=
  match evs with
  | [] => []
  | e :: rest => if Qlt_bool 60 (age now e) then evict_by_age now rest else evs
  end.

Definition age_within_one (now : Q) (e : event) : bool := Qle_bool (age now e) 1.

Definition window_stats_by_age (now : Q) (s : session) : stats :=
  let top := take 3 (sorted_desc snd (user_counts s)) in
  {| per_min := length (events s);
     per_sec := length (List.filter (age_within_one now) (events s));
     uniq_min := size (list_to_set (events s).*2 : gset string);
     uniq_sec :=
       size (list_to_set (List.filter (age_within_one now) (events s)).*2
             : gset string);
     msg_total := total_messages s;
     uniq_total := size (unique_users s);
     top_users := top;
     top_display := str_or (join ", " (show_user <$> top)) "n/a";
     viewers := current_viewers s;
     last_msg := last_message_time s |}.

Definition stats_query_by_age (now : Q) (s : session) : session * stats :=
  let s' := set_events (evict_by_age now (events s)) s in
  (s', window_stats_by_age now s').

(** ** Invariants of the shared state *)

(** The deque and the uniqueness set never hold more than was counted. *)
Definition window_bounded (s : session) : Prop :=
  length (events s) ≤ total_messages s
  ∧ size (unique_users s) ≤ total_messages s.

(** The lifetime counters agree with each other. *)
Definition counts_consistent (s : session) : Prop :=
  total_messages s = sum_list (dict_values (user_counts s))
  ∧ unique_users s = list_to_set (dict_keys (user_counts s))
  ∧ NoDup (dict_keys (user_counts s)).

(** A step that records nothing: it may drop events from the front of the
    deque and leaves the lifetime counters alone. *)
Definition keeps_counters (s s' : session) : Prop :=
  events s' `suffix_of` events s
  ∧ unique_users s' = unique_users s
  ∧ user_counts s' = user_counts s
  ∧ total_messages s' = total_messages s.

(** Every unfinished capture task is the one the loop variable names. *)
Definition sched_inv (sc : sched) : Prop :=
  ∀ i, tasks sc !! i = Some Pending → screenshot_task sc = Some i.

(** ** Sample data

    A run on channel [demo] without screenshots, and a decoder that knows
    one chat frame from user [A] and one without a sender. *)
Definition demo_cfg : config :=
  {| channel := "demo"; chatroom_id := 7%Z; duration := None;
     inactivity := None; screenshot_interval := None;
     screenshot_on_snapshot := false; screenshot_format := "jpg";
     screenshot_max := None; screenshot_embed := false;
     screenshot_embed_width := Some 160%Z; screenshot_dir := None;
     stream_url := None; ffmpeg_path := None;
     log_path := "kick-session-demo.jsonl" |}.

Definition demo_loads (text : string) : option json :=
  if String.eqb text "frame" then
    Some (JObj [("event", JStr chat_message_event); ("data", JStr "inner")])
  else if String.eqb text "inner" then
    Some (JObj [("sender", JObj [("username", JStr "A")]);
                ("content", JStr "hi")])
  else if String.eqb text "bare-frame" then
    Some (JObj [("event", JStr chat_message_event); ("data", JStr "bare")])
  else if String.eqb text "bare" then
    Some (JObj [("content", JStr "hello")])
  else None.

Definition demo_start : session := initial demo_cfg None 0%Q ∅.

(** The state after the listener took the frame of user [A] at time 1. *)
Definition demo_heard : system :=
  {| sess := jsonl_write (Message "demo" "A" (JStr "hi"))
               (record_message 1 "A" demo_start);
     sch := no_tasks; listener := AtGuard; stats_alive := true;
     interval_busy := false; left_behind := [] |}.

(** Messages from [A], [A], [B], [C], recorded at [t1] .. [t4] in a fresh
    run. *)
Definition heard_AABC (t1 t2 t3 t4 : Q) : session :=
  record_message t4 "C"
    (record_message t3 "B"
       (record_message t2 "A" (record_message t1 "A" demo_start))).

(** Descending order of counts, and the test for one count. *)
Definition count_ge (a b : string * nat) : Prop := b.2 ≤ a.2.
Definition has_count (c : nat) (kv : string * nat) : bool := (kv.2 =? c)%nat.

(** ** Successful captures *)

(** The primary ffmpeg process starts, exits within the bound and returns
    zero. *)
Definition primary_succeeds (w : capture_world) : Prop :=
  spawn (primary w) = Spawned
  ∧ completes_within 15 (primary w) = true
  ∧ returncode (primary w) = 0%Z.

(** The same surroundings with another verdict on deletions. *)
Definition with_unlink_ok (f : string → bool) (w : capture_world) : capture_world :=
  {| ts_label := ts_label w; primary := primary w; thumb := thumb w;
     unlink_ok := f; kill_finished_ok := kill_finished_ok w;
     b64encode := b64encode w |}.

(** Deleting a list of files, oldest first. *)
Definition unlink_all (w : capture_world) (ps : list string) (fs : gset string)
    : gset string :=
  foldl (λ acc p, unlink w p acc) fs ps.

(** A state without its view of the screenshot directory. *)
Definition forget_files (s : session) : session :=
  {| events := events s; screenshot_paths := screenshot_paths s;
     unique_users := unique_users s; user_counts := user_counts s;
     total_messages := total_messages s; current_viewers := current_viewers s;
     latest_screenshot := latest_screenshot s;
     latest_screenshot_b64 := latest_screenshot_b64 s;
     start_time := start_time s; last_message_time := last_message_time s;
     stop_event := stop_event s; log := log s; files := ∅;
     printed := printed s |}.

(** A run that keeps at most two screenshots and embeds thumbnails, and
    surroundings in which both ffmpeg processes succeed at once. *)
Definition shots_cfg : config :=
  {| channel := "demo"; chatroom_id := 7%Z; duration := None;
     inactivity := None; screenshot_interval := None;
     screenshot_on_snapshot := true; screenshot_format := "jpg";
     screenshot_max := Some 2%Z; screenshot_embed := true;
     screenshot_embed_width := Some 160%Z; screenshot_dir := Some "shots";
     stream_url := Some "https://example.test/live.m3u8";
     ffmpeg_path := Some "ffmpeg";
     log_path := "kick-session-demo.jsonl" |}.

Definition quick_run : proc_run :=
  {| spawn := Spawned; finishes_after := Some 2%Q; returncode := 0%Z;
     stdout := "JPEGDATA" |}.

Definition hung_run : proc_run :=
  {| spawn := Spawned; finishes_after := None; returncode := 0%Z;
     stdout := "" |}.

Definition smooth (label : string) : capture_world :=
  {| ts_label := label; primary := quick_run; thumb := quick_run;
     unlink_ok := λ _, true; kill_finished_ok := true;
     b64encode := λ data, "b64:" +:+ data |}.

(** The same, except that the thumbnail process hangs. *)
Definition thumb_hangs (label : string) : capture_world :=
  {| ts_label := label; primary := quick_run; thumb := hung_run;
     unlink_ok := λ _, true; kill_finished_ok := true;
     b64encode := λ data, "b64:" +:+ data |}.

(** The same, except that the primary process hangs. *)
Definition primary_hangs (label : string) : capture_world :=
  {| ts_label := label; primary := hung_run; thumb := quick_run;
     unlink_ok := λ _, true; kill_finished_ok := true;
     b64encode := λ data, "b64:" +:+ data |}.

Definition shots_start : session := initial shots_cfg None 0%Q ∅.

(** The state after the first snapshot tick of the screenshot run: one
    capture task has been started. *)
Definition shots_ticked : system :=
  {| sess := (stats_tick shots_cfg 1 1 shots_start no_tasks).1.1;
     sch := (stats_tick shots_cfg 1 1 shots_start no_tasks).1.2;
     listener := AtGuard; stats_alive := true; interval_busy := false;
     left_behind := [] |}.

(** ** Frames without a sender name

    The decoded chat data has no usable username: ["sender"] is missing or
    falsy (null, an empty object, an empty string), or it is an object
    whose ["username"] is missing or falsy. *)
Definition no_username (fields : list (string * json)) : bool :=
  match assoc "sender" fields with
  | None => true
  | Some sender =>
      if truthy sender then
        match sender with
        | JObj sf =>
            match assoc "username" sf with
            | None => true
            | Some u => negb (truthy u)
            end
        | _ => false
        end
      else true
  end.

(** ** Start-up: what is checked

    The reasons printed by the five checks of lines 151-166. *)
Definition validation_reasons : list string :=
  ["Use either --screenshot-interval or --screenshot-on-snapshot, not both.";
   "Screenshot format must be jpg or png.";
   "Screenshot max must be a positive number.";
   "Screenshot embed width must be a positive number.";
   "Screenshot interval must be a positive number of seconds."].

(** The option combinations those checks reject: both triggers given, a
    format that is neither jpg nor png once lower-cased, a non-positive
    maximum or thumbnail width, a negative interval. *)
Definition rejected_options (a : args) : Prop :=
  (arg_screenshot_on_snapshot a = true ∧ is_Some (arg_screenshot_interval a))
  ∨ format_allowed (lower (str_or (default "" (arg_screenshot_format a)) "jpg"))
    = false
  ∨ given_nonpositive (arg_screenshot_max a) = true
  ∨ given_nonpositive (arg_screenshot_embed_width a) = true
  ∨ (∃ i, arg_screenshot_interval a = Some i ∧ (i < 0)%Z).

(** Surroundings in which everything start-up needs is there. *)
Definition plain_world : startup_world :=
  {| websockets_installed := true;
     int_of_str := λ _, Some 7%Z;
     resolved_chatroom := Some (Some 7%Z, Some 120%Z);
     resolve_error := "";
     stamp := "20240101-000000";
     resolved_stream_url := Some (Some "https://example.test/live.m3u8");
     which_ffmpeg := Some "/usr/bin/ffmpeg";
     user_choco := "Chocolatey/bin/ffmpeg.exe";
     user_choco_exists := false;
     system_choco_exists := false;
     screenshots_sibling := λ p, p +:+ "-screenshots";
     clock0 := 0%Q;
     dir_contents := ∅ |}.

(** [run --chatroom-id 7] with the defaults of the parser. *)
Definition plain_args : args :=
  {| arg_channel := None; arg_chatroom_id := Some "7"; arg_proxy := None;
     arg_log := None; arg_duration := None; arg_inactivity := None;
     arg_screenshot_interval := None; arg_screenshot_on_snapshot := false;
     arg_screenshot_dir := None; arg_screenshot_max := None;
     arg_screenshot_format := Some "jpg"; arg_screenshot_embed := false;
     arg_screenshot_embed_width := Some 160%Z; arg_stream_url := None;
     arg_ffmpeg_path := None |}.

(** [run --chatroom-id 7 --duration -5 --inactivity -3] *)
Definition negative_timers : args :=
  {| arg_channel := None; arg_chatroom_id := Some "7"; arg_proxy := None;
     arg_log := None; arg_duration := Some (-5)%Z;
     arg_inactivity := Some (-3)%Z;
     arg_screenshot_interval := None; arg_screenshot_on_snapshot := false;
     arg_screenshot_dir := None; arg_screenshot_max := None;
     arg_screenshot_format := Some "jpg"; arg_screenshot_embed := false;
     arg_screenshot_embed_width := Some 160%Z; arg_stream_url := None;
     arg_ffmpeg_path := None |}.

(** [run --chatroom-id 7 --screenshot-interval 0] *)
Definition zero_interval : args :=
  {| arg_channel := None; arg_chatroom_id := Some "7"; arg_proxy := None;
     arg_log := None; arg_duration := None; arg_inactivity := None;
     arg_screenshot_interval := Some 0%Z; arg_screenshot_on_snapshot := false;
     arg_screenshot_dir := None; arg_screenshot_max := None;
     arg_screenshot_format := Some "jpg"; arg_screenshot_embed := false;
     arg_screenshot_embed_width := Some 160%Z; arg_stream_url := None;
     arg_ffmpeg_path := None |}.

(** [run --chatroom-id 7 --screenshot-max 0] *)
Definition zero_max : args :=
  {| arg_channel := None; arg_chatroom_id := Some "7"; arg_proxy := None;
     arg_log := None; arg_duration := None; arg_inactivity := None;
     arg_screenshot_interval := None; arg_screenshot_on_snapshot := false;
     arg_screenshot_dir := None; arg_screenshot_max := Some 0%Z;
     arg_screenshot_format := Some "jpg"; arg_screenshot_embed := false;
     arg_screenshot_embed_width := Some 160%Z; arg_stream_url := None;
     arg_ffmpeg_path := None |}.

(** ** The log against the counters *)

(** The usernames of the message records of a log, and its snapshot
    records, in file order. *)
Definition logged_usernames (l : list log_record) : list string :=
  omap (λ r, match r with Message _ u _ => Some u | _ => None end) l.

Definition logged_snapshots (l : list log_record) : list snapshot_record :=
  omap (λ r, match r with Snapshot sn => Some sn | _ => None end) l.

Definition session_starts (l : list log_record) : list log_record :=
  List.filter (λ r, match r with SessionStart _ _ => true | _ => false end) l.

(** How often a name occurs in a list. *)
Definition occurrences (u : string) (names : list string) : nat :=
  length (List.filter (String.eqb u) names).

(** The counts of a snapshot record are ordered as counts of one window
    inside another must be. *)
Definition snapshot_ordered (sn : snapshot_record) : Prop :=
  messages_per_second sn ≤ messages_per_minute sn
  ∧ messages_per_minute sn ≤ snap_total_messages sn
  ∧ unique_per_second sn ≤ messages_per_second sn
  ∧ unique_per_minute sn ≤ messages_per_minute sn
  ∧ unique_total sn ≤ snap_total_messages sn.

(** Everything a capture call leaves alone. *)
Definition same_run_data (s s' : session) : Prop :=
  events s' = events s
  ∧ unique_users s' = unique_users s
  ∧ user_counts s' = user_counts s
  ∧ total_messages s' = total_messages s
  ∧ current_viewers s' = current_viewers s
  ∧ start_time s' = start_time s
  ∧ last_message_time s' = last_message_time s
  ∧ log s' = log s.

(** The primary process fails without [FileNotFoundError]: it cannot be
    started for another reason, runs past its 15 units, or exits with a
    non-zero code. *)
Definition primary_fails_softly (w : capture_world) : Prop :=
  spawn (primary w) = SpawnError
  ∨ (spawn (primary w) = Spawned
     ∧ (completes_within 15 (primary w) = false
        ∨ returncode (primary w) ≠ 0%Z)).

(** The thumbnail process delivers: it starts, exits within its 10 units
    with code zero and has written something. *)
Definition thumb_delivers (w : capture_world) : bool :=
  match spawn (thumb w) with
  | Spawned =>
      completes_within 10 (thumb w)
      && (returncode (thumb w) =? 0)%Z
      && negb (String.eqb (stdout (thumb w)) "")
  | _ => false
  end.

(** The log and the lifetime counters tell the same story. *)
Definition log_matches (s : session) : Prop :=
  length (logged_usernames (log s)) = total_messages s
  ∧ (events s).*2 `suffix_of` logged_usernames (log s)
  ∧ (∀ u, dict_get (user_counts s) u = occurrences u (logged_usernames (log s)))
  ∧ unique_users s = list_to_set (logged_usernames (log s)).

(** The log opens with the one [session_start] record of the run, and all
    its snapshots have ordered counts. *)
Definition log_well_formed (cfg : config) (s : session) : Prop :=
  head (log s) = Some (SessionStart (channel_label cfg) (chatroom_id cfg))
  ∧ session_starts (log s)
    = [SessionStart (channel_label cfg) (chatroom_id cfg)]
  ∧ Forall snapshot_ordered (logged_snapshots (log s))
  ∧ Forall (λ sn, snap_channel sn = channel_label cfg) (logged_snapshots (log s)).

(** ** The status line (lines 92-106 and 253-272) *)

(** The escape character of ["\x1b"] and the carriage return of
    ["\r"]. *)
Definition esc : string := String (Ascii.ascii_of_nat 27) EmptyString.
Definition cr : string := String (Ascii.ascii_of_nat 13) EmptyString.

(** [" " * n] *)
Fixpoint spaces (n : nat) : string :=
  match n with
  | 0 => EmptyString
  | S n' => String (Ascii.ascii_of_nat 32) (spaces n')
  end.

(** [text[:n]] for a non-negative [n]. *)
Fixpoint str_take (n : nat) (text : string) : string :=
  match n, text with
  | S n', String c rest => String c (str_take n' rest)
  | _, _ => EmptyString
  end.

(** [text[:width]]; a negative bound counts from the end. *)
Definition slice_to (width : Z) (text : string) : string :=
  if (0 <=? width)%Z then str_take (Z.to_nat width) text
  else str_take (Z.to_nat (Z.of_nat (String.length text) + width)) text.

(** [pad(text, width)], on the text [str(text)]. *)
Definition pad (text : string) (width : Z) : string :=
  if (width <=? Z.of_nat (String.length text))%Z then slice_to width text
  else text +:+ spaces (Z.to_nat (width - Z.of_nat (String.length text))).

(** The digit grouping of [f"{value:,}"], on the digits in reverse. *)
Fixpoint group3 (rev_digits : list Ascii.ascii) : list Ascii.ascii :=
  match rev_digits with
  | a :: b :: c :: ((_ :: _) as rest) =>
      a :: b :: c :: Ascii.ascii_of_nat 44 :: group3 rest
  | _ => rev_digits
  end.

Definition format_int (z : Z) : string :=
  let digits := String.list_ascii_of_string (str_int (Z.abs z)) in
  (if (z <? 0)%Z then "-" else "")
  +:+ String.string_of_list_ascii (rev (group3 (rev digits))).

(** [format_number(value)] *)
Definition format_number (value : option Z) : string :=
  match value with
  | None => "n/a"
  | Some z => format_int z
  end.

(** [color(text, code, enabled)] *)
Definition color (text code : string) (enabled : bool) : string :=
  if enabled then esc +:+ "[" +:+ code +:+ "m" +:+ text +:+ esc +:+ "[0m"
  else text.

(** [f"{per_sec:.1f}"] for the integer [per_sec]. *)
Definition one_decimal (n : nat) : string := str_nat n +:+ ".0".

(** Lines 253-271. *)
Definition status_line (use_color : bool) (st : stats) : string :=
  let viewers_text := pad (format_number (viewers st)) 9 in
  let msg_s := pad (one_decimal (per_sec st)) 6 in
  let msg_m := pad (str_nat (per_min st)) 6 in
  let uniq_s := pad (str_nat (uniq_sec st)) 6 in
  let uniq_m := pad (str_nat (uniq_min st)) 6 in
  let total := pad (str_nat (msg_total st)) 9 in
  let uniq_tot := pad (str_nat (uniq_total st)) 9 in
  let top_disp := pad (top_display st) 32 in
  color "viewers" "36" use_color +:+ "=" +:+ color viewers_text "96" use_color
  +:+ "  "
  +:+ color "msg/s" "33" use_color +:+ "=" +:+ color msg_s "93" use_color
  +:+ "  "
  +:+ color "msg/min" "33" use_color +:+ "=" +:+ color msg_m "93" use_color
  +:+ "  "
  +:+ color "uniq/s" "35" use_color +:+ "=" +:+ color uniq_s "95" use_color
  +:+ "  "
  +:+ color "uniq/min" "35" use_color +:+ "=" +:+ color uniq_m "95" use_color
  +:+ "  "
  +:+ color "total" "32" use_color +:+ "=" +:+ color total "92" use_color
  +:+ "  "
  +:+ color "uniq_total" "32" use_color +:+ "=" +:+ color uniq_tot "92" use_color
  +:+ "  "
  +:+ color "top" "34" use_color +:+ "=" +:+ color top_disp "94" use_color.

(** What line 272 writes to the terminal. *)
Definition status_output (use_color : bool) (st : stats) : string :=
  cr +:+ status_line use_color st +:+ spaces 4.

(** ** The exports (lines 432-526) *)

(** [str.strip()] on ASCII text: tab to carriage return, the four
    separators 28-31 and the space are white space. *)
Definition is_space (c : Ascii.ascii) : bool :=
  let n := Ascii.nat_of_ascii c in
  ((9 <=? n)%nat && (n <=? 13)%nat) || ((28 <=? n)%nat && (n <=? 32)%nat).

Fixpoint lstrip (text : string) : string :=
  match text with
  | EmptyString => EmptyString
  | String c rest => if is_space c then lstrip rest else text
  end.

Definition str_rev (text : string) : string :=
  String.string_of_list_ascii (rev (String.list_ascii_of_string text)).

Definition strip (text : string) : string :=
  str_rev (lstrip (str_rev (lstrip text))).

(** [str(value)] of a decoded value: a string is itself; for the other
    values [repr] stands for Python's rendering. *)
Definition py_str (repr : json → string) (value : json) : string :=
  match value with
  | JStr text => text
  | _ => repr value
  end.

(** [row.get(key, "")] on a row already known to be a dict. *)
Definition field_or_empty (row : json) (key : string) : json :=
  match row with
  | JObj fields => default (JStr "") (assoc key fields)
  | _ => JStr ""
  end.

(** The reading loop shared by both exports: blank lines are skipped, a
    line that does not decode raises ([JSONDecodeError] is a
    [ValueError]), a decoded value without [get] raises, records of
    another type are skipped. *)
Fixpoint collect_rows (json_loads : string → option json) (kind : string)
    (lines : list string) : pyerr + list json :=
  match lines with
  | [] => inr []
  | line :: rest =>
      let text := strip line in
      if String.eqb text "" then collect_rows json_loads kind rest
      else
        match json_loads text with
        | None => inl ValueError
        | Some record =>
            match py_get record "type" with
            | inl e => inl e
            | inr t =>
                if differs_from t kind then collect_rows json_loads kind rest
                else
                  match collect_rows json_loads kind rest with
                  | inl e => inl e
                  | inr rows => inr (record :: rows)
                  end
            end
        end
  end.

(** The double quote, the comma and the line feed. *)
Definition dquote : Ascii.ascii := Ascii.ascii_of_nat 34.
Definition comma : Ascii.ascii := Ascii.ascii_of_nat 44.
Definition linefeed : Ascii.ascii := Ascii.ascii_of_nat 10.

(** [ch in text] *)
Fixpoint str_contains (ch : Ascii.ascii) (text : string) : bool :=
  match text with
  | EmptyString => false
  | String c rest => Ascii.eqb c ch || str_contains ch rest
  end.

(** [text.replace(q, q + q)] for the double quote [q]. *)
Fixpoint double_quotes (text : string) : string :=
  match text with
  | EmptyString => EmptyString
  | String c rest =>
      if Ascii.eqb c dquote
      then String dquote (String dquote (double_quotes rest))
      else String c (double_quotes rest)
  end.

(** [csv_escape] once [text = str(value)] is known (lines 509-512). *)
Definition csv_escape_text (text : string) : string :=
  if str_contains dquote text || str_contains comma text
     || str_contains linefeed text
  then String dquote (double_quotes text +:+ String dquote EmptyString)
  else text.

(** [csv_escape(value)] (lines 506-512). *)
Definition csv_escape (repr : json → string) (value : json) : string :=
  match value with
  | JNull => ""
  | _ => csv_escape_text (py_str repr value)
  end.

(** One data line of [export_messages], without its line feed. *)
Definition message_row (repr : json → string) (row : json) : string :=
  join ","
    [csv_escape repr (field_or_empty row "ts");
     csv_escape repr (field_or_empty row "channel");
     csv_escape repr (field_or_empty row "username");
     csv_escape repr (field_or_empty row "message")].

(** How an export ends: an exception, [return 1] after a printed notice
    with no file written, or [return 0] with the lines written. *)
Inductive export_result :=
| ExportFailed (e : pyerr)
| ExportEmpty (notice : string)
| ExportWrote (lines : list string).

(** [export_messages] on the lines of the input file. *)
Definition export_messages (json_loads : string → option json)
    (repr : json → string) (lines : list string) : export_result :=
  match collect_rows json_loads "message" lines with
  | inl e => ExportFailed e
  | inr [] => ExportEmpty "No message data found"
  | inr rows =>
      ExportWrote ("timestamp,channel,username,message"
                   :: (message_row repr <$> rows))
  end.

(** The line a message with these four texts is exported as. *)
Definition message_line (ts ch user msg : string) : string :=
  join "," [csv_escape_text ts; csv_escape_text ch;
            csv_escape_text user; csv_escape_text msg].

(** *** Reading a field back

    A reader for one field at the front of a line, used to show that the
    escaping loses nothing: a quoted field ends at the first quote that is
    not doubled, a plain one at the first comma. *)
Fixpoint read_quoted (text : string) : option (string * string) :=
  match text with
  | EmptyString => None
  | String c rest =>
      if Ascii.eqb c dquote then
        match rest with
        | String c' rest' =>
            if Ascii.eqb c' dquote then
              match read_quoted rest' with
              | Some (v, r) => Some (String dquote v, r)
              | None => None
              end
            else Some (EmptyString, rest)
        | EmptyString => Some (EmptyString, EmptyString)
        end
      else
        match read_quoted rest with
        | Some (v, r) => Some (String c v, r)
        | None => None
        end
  end.

Fixpoint read_plain (text : string) : string * string :=
  match text with
  | EmptyString => (EmptyString, EmptyString)
  | String c rest =>
      if Ascii.eqb c comma then (EmptyString, text)
      else let '(v, r) := read_plain rest in (String c v, r)
  end.

Definition read_field (text : string) : option (string * string) :=
  match text with
  | EmptyString => Some (EmptyString, EmptyString)
  | String c rest =>
      if Ascii.eqb c dquote then read_quoted rest else Some (read_plain text)
  end.

(** What may follow a field in a line: nothing, or a comma. *)
Definition field_end (rest : string) : Prop :=
  rest = EmptyString ∨ ∃ r, rest = String comma r.

(** *** The records of the log as the dicts [run_live] writes

    [ts] is the time stamp string of the record; numbers are written as
    JSON numbers. *)
Definition json_nat (n : nat) : json := JNum (inject_Z (Z.of_nat n)).

Definition json_opt_int (o : option Z) : json :=
  match o with Some z => JNum (inject_Z z) | None => JNull end.

Definition json_opt_str (o : option string) : json :=
  match o with Some t => JStr t | None => JNull end.

Definition record_json (ts : string) (r : log_record) : json :=
  match r with
  | SessionStart ch id =>
      JObj [("type", JStr "session_start"); ("ts", JStr ts);
            ("channel", JStr ch); ("chatroom_id", JNum (inject_Z id))]
  | Message ch user content =>
      JObj [("type", JStr "message"); ("ts", JStr ts); ("channel", JStr ch);
            ("username", JStr user); ("message", content)]
  | Snapshot sn =>
      JObj [("type", JStr "snapshot"); ("ts", JStr ts);
            ("channel", JStr (snap_channel sn));
            ("messages_per_minute", json_nat (messages_per_minute sn));
            ("messages_per_second", json_nat (messages_per_second sn));
            ("unique_per_minute", json_nat (unique_per_minute sn));
            ("unique_per_second", json_nat (unique_per_second sn));
            ("total_messages", json_nat (snap_total_messages sn));
            ("unique_total", json_nat (unique_total sn));
            ("viewer_count", json_opt_int (viewer_count sn));
            ("screenshot_path", json_opt_str (screenshot_path sn));
            ("screenshot_base64", json_opt_str (screenshot_base64 sn))]
  end.

(** A line of the log file decodes to the record written with stamp
    [ts]. *)
Definition decodes_to (json_loads : string → option json) (line : string)
    (entry : string * log_record) : Prop :=
  strip line ≠ "" ∧ json_loads (strip line) = Some (record_json entry.1 entry.2).

(** The lines of a log file and the stamped records they hold: a blank
    line holds none, every other line decodes to its record. *)
Inductive log_file (json_loads : string → option json)
    : list string → list (string * log_record) → Prop :=
| log_file_end : log_file json_loads [] []
| log_file_blank line lines entries :
    strip line = "" →
    log_file json_loads lines entries →
    log_file json_loads (line :: lines) entries
| log_file_record line entry lines entries :
    decodes_to json_loads line entry →
    log_file json_loads lines entries →
    log_file json_loads (line :: lines) (entry :: entries).

(** The message records of a stamped log, as rows. *)
Definition message_rows (entries : list (string * log_record)) : list json :=
  omap (λ e : string * log_record,
          match e.2 with
          | Message _ _ _ => Some (record_json e.1 e.2)
          | _ => None
          end) entries.

(** *** [export_csv] (lines 432-482) *)

(** An item of [",".join(values)] must be a string. *)
Definition as_text (v : json) : pyerr + string :=
  match v with
  | JStr t => inr t
  | _ => inl TypeError
  end.

(** [row.get(key)] on a row already known to be a dict. *)
Definition field_or_none (row : json) (key : string) : json :=
  match row with
  | JObj fields => default JNull (assoc key fields)
  | _ => JNull
  end.

(** One data line of [export_csv] (lines 467-479), without its line feed;
    [TypeError] when the time stamp, the channel or a truthy screenshot
    path is not a string. *)
Definition snapshot_row (repr : json → string) (row : json) : pyerr + string :=
  match as_text (field_or_empty row "ts"),
        as_text (field_or_empty row "channel"),
        as_text (py_or (field_or_none row "screenshot_path") (JStr "")) with
  | inr ts, inr ch, inr shot =>
      inr (join ","
             [ts; ch;
              py_str repr (field_or_empty row "messages_per_minute");
              py_str repr (field_or_empty row "messages_per_second");
              py_str repr (field_or_empty row "unique_per_minute");
              py_str repr (field_or_empty row "unique_per_second");
              py_str repr (field_or_empty row "total_messages");
              py_str repr (field_or_empty row "unique_total");
              match field_or_none row "viewer_count" with
              | JNull => ""
              | count => py_str repr count
              end;
              shot])
  | inl e, _, _ | _, inl e, _ | _, _, inl e => inl e
  end.

(** The writing loop: the lines written, and the exception that ended it
    early if there was one. *)
Fixpoint write_rows (repr : json → string) (rows : list json)
    : list string * option pyerr :=
  match rows with
  | [] => ([], None)
  | row :: rest =>
      match snapshot_row repr row with
      | inl e => ([], Some e)
      | inr line =>
          let '(written, err) := write_rows repr rest in
          (line :: written, err)
      end
  end.

Definition csv_header : string :=
  "timestamp,channel,messages_per_minute,messages_per_second,"
  +:+ "unique_per_minute,unique_per_second,total_messages,unique_total,"
  +:+ "viewer_count,screenshot_path".

(** How [export_csv] ends: an exception with what the file holds by then,
    [return 1] after the notice, or [return 0]. *)
Inductive csv_result :=
| CsvFailed (e : pyerr) (written : list string)
| CsvEmpty (notice : string)
| CsvWrote (lines : list string).

Definition export_csv (json_loads : string → option json)
    (repr : json → string) (lines : list string) : csv_result :=
  match collect_rows json_loads "snapshot" lines with
  | inl e => CsvFailed e []
  | inr [] => CsvEmpty "No snapshot data found"
  | inr rows =>
      match write_rows repr rows with
      | (written, Some e) => CsvFailed e (csv_header :: written)
      | (written, None) => CsvWrote (csv_header :: written)
      end
  end.

(** The line a snapshot record with stamp [ts] is exported as. *)
Definition snapshot_line (repr : json → string) (ts : string)
    (sn : snapshot_record) : string :=
  join ","
    [ts; snap_channel sn;
     repr (json_nat (messages_per_minute sn));
     repr (json_nat (messages_per_second sn));
     repr (json_nat (unique_per_minute sn));
     repr (json_nat (unique_per_second sn));
     repr (json_nat (snap_total_messages sn));
     repr (json_nat (unique_total sn));
     match viewer_count sn with
     | Some z => repr (JNum (inject_Z z))
     | None => ""
     end;
     default "" (screenshot_path sn)].

(** The snapshot records of a stamped log, with their stamps. *)
Definition stamped_snapshots (entries : list (string * log_record))
    : list (string * snapshot_record) :=
  omap (λ e : string * log_record,
          match e.2 with
          | Snapshot sn => Some (e.1, sn)
          | _ => None
          end) entries.

(** A log file of the sample run after the frame of user [A], with a blank
    line between its two records, and a decoder for these. *)
Definition demo_entries : list (string * log_record) :=
  [("2024-01-01T00:00:00Z", SessionStart "demo" 7);
   ("2024-01-01T00:00:01Z", Message "demo" "A" (JStr "hi"))].

Definition demo_lines : list string :=
  ["line-1" +:+ nl; "  " +:+ nl; "  line-2 " +:+ nl].

Definition demo_log_loads (text : string) : option json :=
  if String.eqb text "line-1" then
    Some (record_json "2024-01-01T00:00:00Z" (SessionStart "demo" 7))
  else if String.eqb text "line-2" then
    Some (record_json "2024-01-01T00:00:01Z" (Message "demo" "A" (JStr "hi")))
  else None.

(** The log file of the screenshot run after its first tick. *)
Definition shots_entries : list (string * log_record) :=
  zip ["2024-01-01T00:00:00Z"; "2024-01-01T00:00:01Z"] (log (sess shots_ticked)).

Definition shots_log_loads (text : string) : option json :=
  if String.eqb text "line-1" then
    record_json "2024-01-01T00:00:00Z" <$> (log (sess shots_ticked) !! 0)
  else if String.eqb text "line-2" then
    record_json "2024-01-01T00:00:01Z" <$> (log (sess shots_ticked) !! 1)
  else None.

(** ** Time order in the window *)

(** The events are in the order of their timestamps. *)
Definition time_ordered (evs : list event) : Prop :=
  StronglySorted (λ a b : event, (a.1 <= b.1)%Q) evs.

(** The condition [t >= now - 60] of the one-minute window. *)
Definition in_last_minute (now : Q) (e : event) : bool := Qge_bool e.1 (now - 60).

(** A deque whose clock went backwards: the stale second event hides
    behind a fresh first one. *)
Definition backwards_events : list event :=
  [(100%Q, "A"); (10%Q, "B"); (101%Q, "C")].

(** ** The retained captures over a run *)

(** The FIFO holds at most [N] paths, and its newest entry is the latest
    screenshot. *)
Definition fifo_bounded (N : nat) (s : session) : Prop :=
  length (screenshot_paths s) ≤ N
  ∧ match latest_screenshot s with
    | None => screenshot_paths s = []
    | Some p => last (screenshot_paths s) = Some p
    end.

(** The screenshot run after the capture started by its first tick has
    finished. *)
Definition shots_captured : system :=
  {| sess := (capture_once shots_cfg (smooth "t1") (sess shots_ticked)).1.1;
     sch := finish_task 0 (sch shots_ticked);
     listener := AtGuard; stats_alive := true; interval_busy := false;
     left_behind := [] |}.

(** ** The fixed-interval capture loop (lines 360-363)

    One world per iteration; the sleep between two calls changes
    nothing. The loop ends when the stop signal is set or when an
    exception leaves [capture_once]. *)
Fixpoint capture_screenshots (cfg : config) (ws : list capture_world)
    (s : session) : session * list capture_event * completion :=
  match ws with
  | [] => (s, [], Returned)
  | w :: rest =>
      if stop_event s then (s, [], Returned) else
      match capture_once cfg w s with
      | (s1, tr, Propagated) => (s1, tr, Propagated)
      | (s1, tr, Returned) =>
          let '(s2, tr', c) := capture_screenshots cfg rest s1 in
          (s2, tr ++ tr', c)
      end
  end.

(** ** When a tick ends the run *)

(** The inactivity limit is set, and at [now] no message has come for at
    least that long. *)
Definition idle_too_long (cfg : config) (now : Q) (s : session) : Prop :=
  ∃ n, inactivity cfg = Some n ∧ n ≠ 0%Z
       ∧ (inject_Z n <= now - last_message_time s)%Q.

(** The duration is set, and at [now'] the run has lasted at least that
    long. *)
Definition duration_over (cfg : config) (now' : Q) (s : session) : Prop :=
  ∃ d, duration cfg = Some d ∧ d ≠ 0%Z
       ∧ (inject_Z d <= now' - start_time s)%Q.

(** A run that stops after 10 units without messages. *)
Definition idle_cfg : config :=
  {| channel := "demo"; chatroom_id := 7%Z; duration := None;
     inactivity := Some 10%Z; screenshot_interval := None;
     screenshot_on_snapshot := false; screenshot_format := "jpg";
     screenshot_max := None; screenshot_embed := false;
     screenshot_embed_width := Some 160%Z; screenshot_dir := None;
     stream_url := None; ffmpeg_path := None;
     log_path := "kick-session-demo.jsonl" |}.

(** Surroundings in which ffmpeg has disappeared. *)
Definition ffmpeg_gone (label : string) : capture_world :=
  {| ts_label := label;
     primary := {| spawn := SpawnNotFound; finishes_after := None;
                   returncode := 0%Z; stdout := "" |};
     thumb := quick_run;
     unlink_ok := λ _, true; kill_finished_ok := true;
     b64encode := λ data, "b64:" +:+ data |}.

(** ** The channel lookups, on the decoded response (lines 25-65)

    [data] is what [fetch_json] returned. *)

(** [isinstance(data, dict)] *)
Definition is_dict (v : json) : bool :=
  match v with
  | JObj _ => true
  | _ => false
  end.

(** [v.get(k, dflt)] *)
Definition py_get_default (v : json) (k : string) (dflt : json) : pyerr + json :=
  match v with
  | JObj fields => inr (default dflt (assoc k fields))
  | _ => inl AttributeError
  end.

(** [livestream.get("viewer_count", livestream.get("viewerCount"))] *)
Definition viewer_count_of (livestream : json) : pyerr + json :=
  match py_get livestream "viewerCount" with
  | inl e => inl e
  | inr fallback => py_get_default livestream "viewer_count" fallback
  end.

(** [fetch_viewer_count] (lines 42-47) *)
Definition fetch_viewer_count (data : json) : pyerr + json :=
  if is_dict data then
    match py_get data "livestream" with
    | inl e => inl e
    | inr l => viewer_count_of (py_or l (JObj []))
    end
  else inr JNull.

(** [resolve_chatroom_id] (lines 25-39); [proxied] says whether a proxy
    was given. *)
Definition resolve_chatroom_id (proxied : bool) (data : json)
    : pyerr + (json * json) :=
  if proxied then
    match py_get data "chatroomId" with
    | inl e => inl e
    | inr id => inr (id, JNull)
    end
  else if is_dict data then
    match py_get data "chatroom" with
    | inl e => inl e
    | inr chatroom =>
        match py_get (py_or chatroom (JObj [])) "id" with
        | inl e => inl e
        | inr id =>
            match py_get data "livestream" with
            | inl e => inl e
            | inr l =>
                match viewer_count_of (py_or l (JObj [])) with
                | inl e => inl e
                | inr vc => inr (id, vc)
                end
            end
        end
    end
  else inr (JNull, JNull).

(** The [candidates] list of [resolve_stream_url] (lines 54-61). *)
Definition stream_url_candidates (data : json) : pyerr + list json :=
  match py_get data "livestream" with
  | inl e => inl e
  | inr l =>
      let livestream := py_or l (JObj []) in
      match py_get livestream "playback_url",
            py_get livestream "playbackUrl",
            py_get livestream "hls",
            py_get data "playback_url",
            py_get data "playbackUrl" with
      | inr a, inr b, inr c, inr d, inr e => inr [a; b; c; d; e]
      | inl e, _, _, _, _ | _, inl e, _, _, _ | _, _, inl e, _, _
      | _, _, _, inl e, _ | _, _, _, _, inl e => inl e
      end
  end.

(** [for value in candidates: if value: return value] and [return None] *)
Fixpoint first_truthy (candidates : list json) : json :=
  match candidates with
  | [] => JNull
  | v :: rest => if truthy v then v else first_truthy rest
  end.

(** [resolve_stream_url] (lines 50-65) *)
Definition resolve_stream_url (data : json) : pyerr + json :=
  if negb (is_dict data) then inr JNull
  else
    match stream_url_candidates data with
    | inl e => inl e
    | inr candidates => inr (first_truthy candidates)
    end.

(** A response with a null [viewer_count] next to a [viewerCount], and
    with an empty first stream address. *)
Definition demo_response : json :=
  JObj [("chatroom", JObj [("id", JNum 7)]);
        ("livestream",
         JObj [("viewer_count", JNull); ("viewerCount", JNum 5);
               ("playback_url", JStr ""); ("hls", JStr "https://example.test/a.m3u8")]);
        ("playback_url", JStr "https://example.test/b.m3u8")].

(** ** A capture whose thumbnail process hangs, and the tick after it

    The first tick of the screenshot run starts capture 0; its call ends
    at the timeout of the thumbnail process ([shots_leftover]); the next
    tick runs ([shots_overlap]). *)
Definition shots_leftover : system :=
  with_sch (finish_task 0 (sch shots_ticked))
    (capture_done shots_cfg (ByTick 0) (thumb_hangs "t1") shots_ticked).

Definition shots_overlap : system :=
  with_sch (stats_tick shots_cfg 2 2 (sess shots_leftover)
              (sch shots_leftover)).1.2
    (with_sess (stats_tick shots_cfg 2 2 (sess shots_leftover)
                  (sch shots_leftover)).1.1
       shots_leftover).

(** ** The stop signal and the frame the listener is waiting for *)

(** What the listener may still handle once the signal is set: the one
    frame it is waiting for. *)
Definition awaited (l : listener_phase) : nat :=
  match l with
  | Receiving => 1
  | _ => 0
  end.

(** The signal is set while the listener of a fresh run waits for a frame
    ([demo_stopping]); the frame of user [A] then arrives at time 5
    ([demo_late]). *)
Definition demo_stopping : system :=
  with_sess (set_stop demo_start) (listen_guard (start demo_cfg None 0%Q ∅)).

Definition demo_late : system :=
  with_listener AtGuard
    (with_sess (jsonl_write (Message "demo" "A" (JStr "hi"))
                  (record_message 5 "A" (set_stop demo_start)))
       demo_stopping).

(** ** A frame whose username is a list

    A decoder that knows one chat frame whose sender name is the list
    [["x"]], and the fresh run after its listener handled that frame at
    time 1: the exception has left [listen]. *)
Definition odd_loads (text : string) : option json :=
  if String.eqb text "odd-frame" then
    Some (JObj [("event", JStr chat_message_event); ("data", JStr "odd")])
  else if String.eqb text "odd" then
    Some (JObj [("sender", JObj [("username", JArr [JStr "x"])]);
                ("content", JStr "hi")])
  else None.

Definition demo_interrupted : system :=
  {| sess := count_message demo_start; sch := no_tasks;
     listener := Broken TypeError (Some (1%Q, JArr [JStr "x"]));
     stats_alive := true; interval_busy := false; left_behind := [] |}.

(** * Properties *)

(** ** Clock comparisons *)

Lemma Qlt_bool_iff (a b : Q) : Qlt_bool a b = true ↔ (a < b)%Q.
Proof.
  unfold Qlt_bool. rewrite negb_true_iff.
  split.
  - intros H. apply Qnot_le_lt. intros Hle.
    apply Qle_bool_iff in Hle. congruence.
  - intros H. destruct (Qle_bool b a) eqn:E; [|done].
    apply Qle_bool_iff in E. lra.
Qed.

Lemma Qge_bool_iff (a b : Q) : Qge_bool a b = true ↔ (b <= a)%Q.
Proof. unfold Qge_bool. apply Qle_bool_iff. Qed.

Lemma Qlt_bool_false (a b : Q) : Qlt_bool a b = false ↔ (b <= a)%Q.
Proof.
  unfold Qlt_bool. rewrite negb_false_iff. apply Qle_bool_iff.
Qed.

Lemma Qle_bool_false (a b : Q) : Qle_bool a b = false ↔ (b < a)%Q.
Proof.
  split.
  - intros H. apply Qnot_le_lt. intros Hle.
    apply Qle_bool_iff in Hle. congruence.
  - intros H. destruct (Qle_bool a b) eqn:E; [|done].
    apply Qle_bool_iff in E. lra.
Qed.

(** Two boolean tests agree when they hold in the same cases. *)
Lemma bool_eq_iff (a b : bool) : (a = true ↔ b = true) → a = b.
Proof. destruct a, b; intuition congruence. Qed.

Lemma clamp_nonneg (d : Q) : (0 <= clamp d)%Q.
Proof.
  unfold clamp. destruct (Qle_bool 0 d) eqn:E; [|lra].
  by apply Qle_bool_iff in E.
Qed.

Lemma clamp_spec (d : Q) :
  ((0 <= d)%Q ∧ clamp d = d) ∨ ((d < 0)%Q ∧ clamp d = 0%Q).
Proof.
  unfold clamp. destruct (Qle_bool 0 d) eqn:E.
  - left. split; [by apply Qle_bool_iff in E | done].
  - right. split; [by apply Qle_bool_false in E | done].
Qed.

(** ** The source's comparisons are the clamped-age windows *)

Lemma in_last_second_by_age (now : Q) (e : event) :
  in_last_second now e = age_within_one now e.
Proof.
  apply bool_eq_iff. unfold in_last_second, age_within_one, age.
  rewrite Qge_bool_iff, Qle_bool_iff.
  destruct (clamp_spec (now - e.1)) as [[H ->]|[H ->]]; split; intros; lra.
Qed.

Lemma evict_test_by_age (now : Q) (e : event) :
  Qlt_bool e.1 (now - 60) = Qlt_bool 60 (age now e).
Proof.
  apply bool_eq_iff. unfold age. rewrite !Qlt_bool_iff.
  destruct (clamp_spec (now - e.1)) as [[H ->]|[H ->]]; split; intros; lra.
Qed.

Lemma evict_by_age_eq (now : Q) (evs : list event) :
  evict now evs = evict_by_age now evs.
Proof.
  induction evs as [|e rest IH]; [done|]. simpl.
  rewrite evict_test_by_age, IH. done.
Qed.

Lemma filter_ext_bool {A} (f g : A → bool) (l : list A) :
  (∀ x, f x = g x) → List.filter f l = List.filter g l.
Proof. intros H. induction l as [|x l IH]; simpl; [done|]. by rewrite H, IH. Qed.

Lemma sum_ones_length {A} (l : list A) : sum_list_with (λ _, 1) l = length l.
Proof. induction l; simpl; [done|]. by rewrite IHl. Qed.

(** C1. Every query computes its two windows as if the difference between
    [now] and each event's timestamp were first clamped at zero: the
    source's eviction and statistics coincide, for every state and every
    [now], with the ones defined on clamped ages; the ages used are never
    negative, and an event stamped at or after [now] has age zero, is
    counted in the 1-unit window and is not evicted. *)
Theorem query_windows_use_clamped_ages (now : Q) (s : session) :
  stats_query now s = stats_query_by_age now s
  ∧ (∀ e, (0 <= age now e)%Q)
  ∧ (∀ e, (now <= e.1)%Q →
       (age now e == 0)%Q ∧ in_last_second now e = true
       ∧ evict now (e :: events s) = e :: events s).
Proof.
  split; [|split].
  - unfold stats_query, stats_query_by_age.
    rewrite evict_by_age_eq. f_equal.
    unfold window_stats, window_stats_by_age.
    rewrite sum_ones_length.
    rewrite (filter_ext_bool _ _ _ (in_last_second_by_age now)). done.
  - intros e. apply clamp_nonneg.
  - intros e He. split; [|split].
    + unfold age. destruct (clamp_spec (now - e.1)) as [[H ->]|[H ->]]; lra.
    + apply Qge_bool_iff. lra.
    + simpl. replace (Qlt_bool e.1 (now - 60)) with false; [done|].
      symmetry. apply Qlt_bool_false. lra.
Qed.

(** ** Eviction *)

Lemma evict_length (now : Q) (evs : list event) :
  length (evict now evs) ≤ length evs.
Proof.
  induction evs as [|e rest IH]; simpl; [done|].
  destruct (Qlt_bool e.1 (now - 60)); simpl; lia.
Qed.

Lemma evict_idempotent (now : Q) (evs : list event) :
  evict now (evict now evs) = evict now evs.
Proof.
  induction evs as [|e rest IH]; simpl; [done|].
  destruct (Qlt_bool e.1 (now - 60)) eqn:E; [done|].
  simpl. by rewrite E.
Qed.

(** Eviction removes a prefix: what is left is a suffix of the deque. *)
Lemma evict_suffix (now : Q) (evs : list event) :
  evict now evs `suffix_of` evs.
Proof.
  induction evs as [|e rest IH]; simpl; [done|].
  destruct (Qlt_bool e.1 (now - 60)); [|done].
  by apply suffix_cons_r.
Qed.

(** C7. Running the critical section of the snapshot loop twice with the
    same [now], with nothing recorded in between, gives the same statistics
    both times, and the second run leaves the state as the first left
    it. *)
Theorem query_idempotent (now : Q) (s : session) :
  (stats_query now (stats_query now s).1).2 = (stats_query now s).2
  ∧ (stats_query now (stats_query now s).1).1 = (stats_query now s).1.
Proof.
  unfold stats_query. simpl. rewrite evict_idempotent. done.
Qed.

(** ** Sizes of the uniqueness sets *)

Lemma size_list_to_set_le (l : list string) :
  size (list_to_set l : gset string) ≤ length l.
Proof.
  induction l as [|x l IH].
  - rewrite list_to_set_nil, size_empty. done.
  - rewrite list_to_set_cons, size_union_alt, size_singleton. simpl.
    assert (size ((list_to_set l : gset string) ∖ {[x]})
            ≤ size (list_to_set l : gset string)).
    { apply subseteq_size, subseteq_difference_l. done. }
    lia.
Qed.

Lemma filter_length_le {A} (f : A → bool) (l : list A) :
  length (List.filter f l) ≤ length l.
Proof. induction l as [|x l IH]; simpl; [done|]. destruct (f x); simpl; lia. Qed.

(** ** Steps that record nothing keep the lifetime counters *)

Lemma keeps_counters_refl (s : session) : keeps_counters s s.
Proof. by repeat split. Qed.

Lemma keeps_counters_trans (s1 s2 s3 : session) :
  keeps_counters s1 s2 → keeps_counters s2 s3 → keeps_counters s1 s3.
Proof.
  intros (H1 & H2 & H3 & H4) (G1 & G2 & G3 & G4).
  repeat split; try congruence. by etrans.
Qed.

Lemma trim_ok_paths (w : capture_world) (max : Z) (paths : list string)
    (fs : gset string) :
  ∃ paths' fs' evs ok, trim w max paths fs = (paths', fs', evs, ok).
Proof.
  destruct (trim w max paths fs) as [[[p f] e] o]. eauto.
Qed.

Lemma store_capture_keeps (cfg : config) (w : capture_world) (path : string)
    (s : session) :
  keeps_counters s (store_capture cfg w path s).1.1.
Proof.
  unfold store_capture.
  destruct (int_truthy (screenshot_max cfg)).
  - destruct (trim_ok_paths w (default 0%Z (screenshot_max cfg))
                (screenshot_paths s ++ [path]) (files s ∪ {[path]}))
      as (p & f & e & o & ->).
    by repeat split.
  - by repeat split.
Qed.

Lemma store_capture_stop (cfg : config) (w : capture_world) (path : string)
    (s : session) :
  stop_event (store_capture cfg w path s).1.1 = stop_event s.
Proof.
  unfold store_capture.
  destruct (int_truthy (screenshot_max cfg)); [|done].
  destruct (trim_ok_paths w (default 0%Z (screenshot_max cfg))
              (screenshot_paths s ++ [path]) (files s ∪ {[path]}))
    as (p & f & e & o & ->).
  done.
Qed.

Lemma capture_once_keeps (cfg : config) (w : capture_world) (s : session) :
  keeps_counters s (capture_once cfg w s).1.1.
Proof.
  unfold capture_once.
  destruct (screenshot_dir cfg) as [dir|]; [|by repeat split].
  destruct (negb (opt_str_truthy (stream_url cfg))); [by repeat split|].
  destruct (spawn (primary w)); try (by repeat split).
  destruct (negb (completes_within 15 (primary w))); [by repeat split|].
  destruct (negb (returncode (primary w) =? 0)%Z); [by repeat split|].
  pose proof (store_capture_keeps cfg w (output_path cfg w dir) s) as Hk.
  destruct (store_capture cfg w (output_path cfg w dir) s) as [[s1 unl] ok].
  simpl in Hk.
  destruct (negb ok); [done|].
  destruct (negb (screenshot_embed cfg)); [done|].
  destruct (spawn (thumb w)); try done.
  destruct (negb (completes_within 10 (thumb w))); [done|].
  destruct ((returncode (thumb w) =? 0)%Z && negb (String.eqb (stdout (thumb w)) ""));
    done.
Qed.

Lemma stats_tick_keeps (cfg : config) (now now' : Q) (s : session) (sc : sched) :
  keeps_counters s (stats_tick cfg now now' s sc).1.1.
Proof.
  unfold stats_tick.
  destruct (stop_event s); [apply keeps_counters_refl|].
  assert (keeps_counters s (set_events (evict now (events s)) s)) as Hk.
  { repeat split. apply evict_suffix. }
  simpl.
  destruct (int_truthy (inactivity cfg) && _); [done|].
  destruct (int_truthy (duration cfg) && _); done.
Qed.

Lemma listen_step_recorded (json_loads : string → option json) (cfg : config)
    (now : Q) (r : recv_result) (s s' : session) :
  listen_step json_loads cfg now r s = Recorded s' →
  ∃ username content,
    s' = jsonl_write (Message (channel_label cfg) username content)
           (record_message now username s).
Proof.
  unfold listen_step. intros H.
  repeat case_match; try discriminate.
  injection H as <-. eauto.
Qed.

(** ** The dict [user_counts] *)

Lemma dict_set_sum (d : dict) (k : string) (v : nat) :
  sum_list (dict_values (dict_set d k v)) + dict_get d k
  = sum_list (dict_values d) + v.
Proof.
  unfold dict_values.
  induction d as [|[k' v'] rest IH]; csimpl; [lia|].
  destruct (String.eqb_spec k' k); csimpl; lia.
Qed.

Lemma dict_set_keys_old (d : dict) (k : string) (v : nat) :
  k ∈ dict_keys d → dict_keys (dict_set d k v) = dict_keys d.
Proof.
  unfold dict_keys.
  induction d as [|[k' v'] rest IH]; csimpl; intros Hin.
  - by apply not_elem_of_nil in Hin.
  - destruct (String.eqb_spec k' k); csimpl; [done|].
    apply elem_of_cons in Hin as [->|Hin]; [done|].
    by rewrite IH.
Qed.

Lemma dict_set_keys_new (d : dict) (k : string) (v : nat) :
  k ∉ dict_keys d → dict_keys (dict_set d k v) = dict_keys d ++ [k].
Proof.
  unfold dict_keys.
  induction d as [|[k' v'] rest IH]; csimpl; intros Hin; [done|].
  apply not_elem_of_cons in Hin as [Hne Hin].
  destruct (String.eqb_spec k' k); [congruence|].
  csimpl. by rewrite IH.
Qed.

Lemma dict_get_set_same (d : dict) (k : string) (v : nat) :
  dict_get (dict_set d k v) k = v.
Proof.
  induction d as [|[k' v'] rest IH]; simpl.
  - by rewrite String.eqb_refl.
  - destruct (String.eqb_spec k' k) as [->|Hne]; simpl.
    + by rewrite String.eqb_refl.
    + destruct (String.eqb_spec k' k); [done|]. apply IH.
Qed.

Lemma dict_get_set_other (d : dict) (k k0 : string) (v : nat) :
  k ≠ k0 → dict_get (dict_set d k v) k0 = dict_get d k0.
Proof.
  intros Hne.
  induction d as [|[k' v'] rest IH]; simpl.
  - destruct (String.eqb_spec k k0); done.
  - destruct (String.eqb_spec k' k) as [->|Hne']; simpl.
    + destruct (String.eqb_spec k k0); done.
    + destruct (String.eqb_spec k' k0); [done|]. apply IH.
Qed.

(** ** The listener's critical section keeps the counters consistent *)

Lemma counts_consistent_initial (cfg : config) (v : option Z) (t0 : Q)
    (fs : gset string) :
  counts_consistent (initial cfg v t0 fs).
Proof. repeat split. simpl. constructor. Qed.

Lemma record_message_consistent (now : Q) (username : string) (s : session) :
  counts_consistent s → counts_consistent (record_message now username s).
Proof.
  intros (Hsum & Hset & Hnd). unfold counts_consistent. simpl.
  split; [|].
  - pose proof (dict_set_sum (user_counts s) username
                  (dict_get (user_counts s) username + 1)).
    lia.
  - destruct (decide (username ∈ dict_keys (user_counts s))) as [Hin|Hin].
    + rewrite dict_set_keys_old by done. split; [|done].
      rewrite Hset. apply set_eq. intros x.
      rewrite elem_of_union, elem_of_singleton, !elem_of_list_to_set.
      split; [intros [Hx| ->]; done | by left].
    + rewrite dict_set_keys_new by done. split.
      * rewrite Hset, list_to_set_app_L, list_to_set_cons, list_to_set_nil.
        by rewrite (right_id_L ∅ (∪)).
      * apply NoDup_app. split; [done|]. split.
        -- intros x Hx Hx'. apply list_elem_of_singleton in Hx' as ->. done.
        -- apply NoDup_singleton.
Qed.

Lemma counts_consistent_size (s : session) :
  counts_consistent s → size (unique_users s) = length (user_counts s).
Proof.
  intros (_ & -> & Hnd).
  rewrite size_list_to_set by done.
  unfold dict_keys. by rewrite length_fmap.
Qed.




(** ** What holds in every state of a run *)

Lemma window_bounded_keeps (s s' : session) :
  keeps_counters s s' → window_bounded s → window_bounded s'.
Proof.
  intros (Hsuf & Hu & _ & Ht) [Hl Hs]. unfold window_bounded.
  rewrite Hu, Ht. split; [|done].
  apply suffix_length in Hsuf. lia.
Qed.

Lemma window_bounded_record (now : Q) (username : string) (s : session) :
  window_bounded s → window_bounded (record_message now username s).
Proof.
  intros [Hl Hs]. unfold window_bounded. simpl.
  rewrite length_app. simpl. split; [lia|].
  rewrite size_union_alt.
  assert (size (({[username]} : gset string) ∖ unique_users s) ≤ 1).
  { rewrite <- (size_singleton (C:=gset string) username).
    apply subseteq_size, subseteq_difference_l. done. }
  lia.
Qed.

Lemma counts_consistent_keeps (s s' : session) :
  keeps_counters s s' → counts_consistent s → counts_consistent s'.
Proof.
  intros (_ & Hu & Hc & Ht). unfold counts_consistent.
  by rewrite Hu, Hc, Ht.
Qed.

(** *** The listener's outcomes *)

Lemma listen_step_recorded_nonempty (json_loads : string → option json)
    (cfg : config) (now : Q) (r : recv_result) (s s' : session) :
  listen_step json_loads cfg now r s = Recorded s' →
  ∃ username content,
    username ≠ ""
    ∧ s' = jsonl_write (Message (channel_label cfg) username content)
             (record_message now username s).
Proof.
  unfold listen_step. intros H.
  destruct r as [|message]; [discriminate|].
  destruct (json_loads message) as [payload|]; [|discriminate].
  destruct (py_get payload "event") as [e|ev]; [discriminate|].
  destruct (differs_from ev chat_message_event); [discriminate|].
  destruct (py_get payload "data") as [e|raw]; [discriminate|].
  destruct (loads_data json_loads raw) as [e|[data|]]; try discriminate.
  destruct (username_of data) as [e|v] eqn:Hu; [discriminate|].
  destruct (py_get data "content") as [e|c];
    [destruct v; discriminate|].
  destruct v as [|b|q|u|items|fields]; simpl in H;
    try discriminate; try (destruct b; discriminate);
    try (destruct (hashable _); discriminate).
  injection H as <-. exists u, (py_or c (JStr "")). split; [|done].
  intros ->. unfold username_of in Hu.
  destruct (py_get data "sender") as [e|sender]; [discriminate|].
  destruct (py_get (py_or sender (JObj [])) "username") as [e|u];
    [discriminate|].
  injection Hu as Hu. unfold py_or in Hu.
  destruct (truthy u) eqn:Ht; [|discriminate].
  subst u. discriminate.
Qed.

Lemma listen_step_interrupted (json_loads : string → option json)
    (cfg : config) (now : Q) (r : recv_result) (s s' : session)
    (ev : Q * json) :
  listen_step json_loads cfg now r s = Interrupted s' ev →
  s' = count_message s ∧ ev.1 = now ∧ hashable ev.2 = false
  ∧ ∃ text data, json_loads text = Some data ∧ username_of data = inr ev.2.
Proof.
  unfold listen_step. intros H.
  destruct r as [|message]; [discriminate|].
  destruct (json_loads message) as [payload|]; [|discriminate].
  destruct (py_get payload "event") as [e|ev']; [discriminate|].
  destruct (differs_from ev' chat_message_event); [discriminate|].
  destruct (py_get payload "data") as [e|raw]; [discriminate|].
  destruct (loads_data json_loads raw) as [e|[data|]] eqn:Hd; try discriminate.
  destruct (username_of data) as [e|v] eqn:Hu; [discriminate|].
  destruct (py_get data "content") as [e|c];
    [destruct v; discriminate|].
  assert (hashable v = false ∧ s' = count_message s ∧ ev = (now, v))
    as (Hh & -> & ->).
  { destruct v; simpl in H; try discriminate; by injection H as <- <-. }
  split; [done|]. split; [done|]. split; [done|].
  unfold loads_data in Hd. destruct (truthy raw).
  - destruct raw; try discriminate. injection Hd as Hd. eauto.
  - injection Hd as <-. vm_compute in Hu. injection Hu as <-. discriminate.
Qed.

Lemma listen_step_text (json_loads : string → option json) (cfg : config)
    (now : Q) (r : recv_result) (s s' : session) (ev : Q * json) :
  text_usernames json_loads →
  listen_step json_loads cfg now r s ≠ Interrupted s' ev.
Proof.
  intros Htext H.
  apply listen_step_interrupted in H as (_ & _ & Hh & text & data & Hl & Hu).
  destruct (Htext text data ev.2 Hl Hu) as [u Hv].
  rewrite Hv in Hh. discriminate.
Qed.

(** What a frame does to the run. *)
Lemma after_frame_cases (json_loads : string → option json) (cfg : config)
    (now : Q) (r : recv_result) (x y : system) :
  after_frame (listen_step json_loads cfg now r (sess x)) x = Some y →
  sch y = sch x ∧ stats_alive y = stats_alive x
  ∧ interval_busy y = interval_busy x ∧ left_behind y = left_behind x
  ∧ ((sess y = sess x
      ∧ (listener y = AtGuard ∨ ∃ e, listener y = Broken e None))
     ∨ (∃ username content,
          username ≠ ""
          ∧ sess y = jsonl_write (Message (channel_label cfg) username content)
                       (record_message now username (sess x))
          ∧ listener y = AtGuard)
     ∨ (∃ ev, sess y = count_message (sess x)
              ∧ listener y = Broken TypeError (Some ev)
              ∧ listen_step json_loads cfg now r (sess x)
                = Interrupted (count_message (sess x)) ev)).
Proof.
  destruct (listen_step json_loads cfg now r (sess x)) as [|s'|e|s' ev|v]
    eqn:Hl; simpl; intros Hy; try discriminate; injection Hy as <-; simpl;
    (split; [done|]); (split; [done|]); (split; [done|]); (split; [done|]).
  - left. split; [done|]. by left.
  - right. left.
    apply listen_step_recorded_nonempty in Hl as (u & c & Hu & ->). eauto.
  - left. split; [done|]. right. eauto.
  - right. right. exists ev.
    apply listen_step_interrupted in Hl as Hl'. destruct Hl' as (-> & _).
    done.
Qed.

Ltac step_cases H :=
  destruct H as [now now' x' s' sc' c Ha Hs Ht | now x' ev Ha Hs Hstop He
                | now now' x' e ev s' sc' c Ha Hl Hstop He Ht | x' Hl
                | now r x' y' Hl Hf | count x' Hch Hs | i w x' Hp
                | x' Hi Hb Hs | w x' Hb | k x' Hk | x'].

Lemma step_sessions (json_loads : string → option json) (cfg : config)
    (x y : system) :
  step json_loads cfg x y →
  keeps_counters (sess x) (sess y)
  ∨ (∃ now username content,
       sess y = jsonl_write (Message (channel_label cfg) username content)
                  (record_message now username (sess x)))
  ∨ (sess y = count_message (sess x)
     ∧ ∃ now r ev, listen_step json_loads cfg now r (sess x)
                   = Interrupted (count_message (sess x)) ev).
Proof.
  intros Hstep. step_cases Hstep; simpl.
  - left. pose proof (stats_tick_keeps cfg now now' (sess x') (sch x')) as Hk.
    by rewrite Ht in Hk.
  - left. repeat split. apply evict_suffix.
  - left. eapply (keeps_counters_trans _ (set_events [] (sess x'))).
    + repeat split. simpl. apply suffix_nil.
    + pose proof (stats_tick_keeps cfg now now' (set_events [] (sess x'))
                    (sch x')) as Hk.
      by rewrite Ht in Hk.
  - left. apply keeps_counters_refl.
  - destruct (after_frame_cases _ _ _ _ _ _ Hf)
      as (_ & _ & _ & _ & [[-> _]|[(u & c & _ & -> & _)|(ev & -> & _ & Hi)]]).
    + left. apply keeps_counters_refl.
    + right. left. eauto.
    + right. right. eauto.
  - left. by repeat split.
  - left. apply capture_once_keeps.
  - left. apply keeps_counters_refl.
  - left. apply capture_once_keeps.
  - left. apply keeps_counters_refl.
  - left. by repeat split.
Qed.

Lemma window_bounded_count (s : session) :
  window_bounded s → window_bounded (count_message s).
Proof. intros [Hl Hs]. unfold window_bounded. simpl. lia. Qed.

Lemma reachable_window_bounded (json_loads : string → option json)
    (cfg : config) (v : option Z) (t0 : Q) (fs : gset string) (sys : system) :
  reachable json_loads cfg v t0 fs sys → window_bounded (sess sys).
Proof.
  unfold reachable. revert sys.
  apply (rtc_ind_r (λ sys, window_bounded (sess sys))).
  - split; [simpl; lia|].
    change (unique_users _) with (∅ : gset string). by rewrite size_empty.
  - intros y z _ Hstep Hw.
    destruct (step_sessions _ _ _ _ Hstep)
      as [Hk|[(now & u & c & ->)|(-> & _)]].
    + by eapply window_bounded_keeps.
    + apply (window_bounded_record now u) in Hw. exact Hw.
    + by apply window_bounded_count.
Qed.

(** When every username is text, no critical section is interrupted and
    the lifetime counters stay in step. *)
Lemma reachable_invariants (json_loads : string → option json) (cfg : config)
    (v : option Z) (t0 : Q) (fs : gset string) (sys : system) :
  text_usernames json_loads →
  reachable json_loads cfg v t0 fs sys →
  window_bounded (sess sys) ∧ counts_consistent (sess sys).
Proof.
  intros Htext Hreach.
  split; [by eapply reachable_window_bounded|].
  revert sys Hreach. unfold reachable.
  apply (rtc_ind_r (λ sys, counts_consistent (sess sys))).
  - apply counts_consistent_initial.
  - intros y z _ Hstep Hc.
    destruct (step_sessions _ _ _ _ Hstep)
      as [Hk|[(now & u & c & ->)|(_ & now & r & ev & Hi)]].
    + by eapply counts_consistent_keeps.
    + apply (record_message_consistent now u) in Hc. exact Hc.
    + by apply listen_step_text in Hi.
Qed.

Lemma demo_heard_reachable : reachable demo_loads demo_cfg None 0 ∅ demo_heard.
Proof.
  unfold reachable.
  eapply rtc_l; [apply step_listen_guard; reflexivity|].
  eapply rtc_l; [|apply rtc_refl].
  by apply (step_listen_frame demo_loads demo_cfg 1 (RecvText "frame")).
Defined.

(** C6. In every state a run can reach and for every query time, the
    statistics computed after eviction satisfy: per-second count <=
    per-minute count <= lifetime total; unique actors per second <=
    per-second count; unique actors per minute <= per-minute count; and
    lifetime unique actors <= lifetime total. *)
Theorem window_counts_ordered (json_loads : string → option json)
    (cfg : config) (v : option Z) (t0 : Q) (fs : gset string) (sys : system)
    (now : Q) (Hreach : reachable json_loads cfg v t0 fs sys) :
  let st := (stats_query now (sess sys)).2 in
  per_sec st ≤ per_min st
  ∧ per_min st ≤ msg_total st
  ∧ uniq_sec st ≤ per_sec st
  ∧ uniq_min st ≤ per_min st
  ∧ uniq_total st ≤ msg_total st.
Proof.
  destruct (reachable_window_bounded _ _ _ _ _ _ Hreach) as [Hl Hu].
  simpl. rewrite sum_ones_length.
  pose proof (evict_length now (events (sess sys))) as He.
  split; [apply filter_length_le|].
  split; [lia|].
  split.
  { etrans; [apply size_list_to_set_le|]. by rewrite length_fmap. }
  split; [|done].
  etrans; [apply size_list_to_set_le|]. by rewrite length_fmap.
Qed.

Lemma window_counts_ordered_witness :
  reachable demo_loads demo_cfg None 0 ∅ demo_heard
  ∧ per_sec (stats_query (3 # 2) (sess demo_heard)).2
    ≤ per_min (stats_query (3 # 2) (sess demo_heard)).2.
Proof.
  split; [exact demo_heard_reachable|].
  exact (proj1 (window_counts_ordered demo_loads demo_cfg None 0 ∅
                  demo_heard (3 # 2) demo_heard_reachable)).
Defined.

(** ** The stable descending sort *)

Section sorted_desc.
Context {A : Type} (key : A → nat).

Lemma insert_desc_perm (x : A) (l : list A) : insert_desc key x l ≡ₚ x :: l.
Proof.
  induction l as [|y l IH]; simpl; [done|].
  destruct (key y <=? key x)%nat; [done|].
  rewrite IH. apply Permutation_swap.
Qed.

Lemma sorted_desc_perm (l : list A) : sorted_desc key l ≡ₚ l.
Proof.
  induction l as [|x l IH]; simpl; [done|].
  rewrite insert_desc_perm. by rewrite IH.
Qed.

Lemma insert_desc_sorted (x : A) (l : list A) :
  StronglySorted (λ a b, key b ≤ key a) l →
  StronglySorted (λ a b, key b ≤ key a) (insert_desc key x l).
Proof.
  induction 1 as [|y l Hs IH Hall]; simpl.
  - repeat constructor.
  - destruct (Nat.leb_spec (key y) (key x)) as [Hle|Hlt].
    + constructor; [by constructor|].
      constructor; [done|].
      eapply Forall_impl; [exact Hall|]. simpl. intros z Hz. lia.
    + constructor; [done|].
      rewrite insert_desc_perm. constructor; [lia|done].
Qed.

Lemma sorted_desc_sorted (l : list A) :
  StronglySorted (λ a b, key b ≤ key a) (sorted_desc key l).
Proof.
  induction l as [|x l IH]; simpl; [constructor|].
  by apply insert_desc_sorted.
Qed.

(** Stability: the items with one given key keep their relative order. *)
Lemma insert_desc_stable (c : nat) (x : A) (l : list A) :
  List.filter (λ y, key y =? c)%nat (insert_desc key x l)
  = List.filter (λ y, key y =? c)%nat (x :: l).
Proof.
  induction l as [|y l IH]; [done|].
  cbn [insert_desc].
  destruct (Nat.leb_spec (key y) (key x)) as [Hle|Hlt]; [done|].
  cbn [List.filter] in *.
  destruct (Nat.eqb_spec (key y) c) as [Hy|Hy];
    destruct (Nat.eqb_spec (key x) c) as [Hx|Hx]; try lia.
  - by rewrite IH.
  - done.
  - done.
Qed.

Lemma sorted_desc_stable (c : nat) (l : list A) :
  List.filter (λ y, key y =? c)%nat (sorted_desc key l)
  = List.filter (λ y, key y =? c)%nat l.
Proof.
  induction l as [|x l IH]; [done|].
  cbn [sorted_desc foldr]. rewrite insert_desc_stable.
  cbn [List.filter]. fold (sorted_desc key l). by rewrite IH.
Qed.
End sorted_desc.

(** ** The top actors *)

Lemma sorted_take_drop_ordered {A} (key : A → nat) (l : list A) (n : nat)
    (a b : A) :
  a ∈ take n (sorted_desc key l) → b ∈ drop n (sorted_desc key l) →
  key b ≤ key a.
Proof.
  intros Ha Hb.
  pose proof (sorted_desc_sorted key l) as Hs.
  rewrite <- (take_drop n (sorted_desc key l)) in Hs.
  exact (StronglySorted_app_1_elem_of _ _ _ _ _ Hs Ha Hb).
Qed.

Lemma record_message_key_order (now : Q) (username : string) (s : session) :
  dict_keys (user_counts (record_message now username s))
  = if decide (username ∈ dict_keys (user_counts s))
    then dict_keys (user_counts s)
    else dict_keys (user_counts s) ++ [username].
Proof.
  simpl. destruct (decide (username ∈ dict_keys (user_counts s))).
  - by apply dict_set_keys_old.
  - by apply dict_set_keys_new.
Qed.

(** C8. For every per-actor count mapping the query reports the first
    three entries of the mapping sorted by descending count, where the
    sorted list is a rearrangement of the mapping's entries in which
    entries with equal counts keep the mapping's order; that order is the
    order in which actors were first seen, since recording leaves a known
    actor in place and puts a new one last. No entry left out has a larger
    count than a reported one. For messages from A, A, B, C recorded in a
    fresh run at times within one unit before the query, the query gives
    total 4, 3 unique actors per second, 3 per minute and the top actors
    A(2), B(1), C(1). *)
Theorem top_actors_ranked :
  (∀ now s,
     let ranked := sorted_desc snd (user_counts s) in
     top_users (stats_query now s).2 = take 3 ranked
     ∧ ranked ≡ₚ user_counts s
     ∧ StronglySorted count_ge ranked
     ∧ (∀ c, List.filter (has_count c) ranked
             = List.filter (has_count c) (user_counts s))
     ∧ (∀ a b, a ∈ take 3 ranked → b ∈ drop 3 ranked → b.2 ≤ a.2))
  ∧ (∀ now username s,
       dict_keys (user_counts (record_message now username s))
       = if decide (username ∈ dict_keys (user_counts s))
         then dict_keys (user_counts s)
         else dict_keys (user_counts s) ++ [username])
  ∧ (∀ t1 t2 t3 t4 now,
       (now - 1 <= t1)%Q → (now - 1 <= t2)%Q →
       (now - 1 <= t3)%Q → (now - 1 <= t4)%Q →
       let st := (stats_query now (heard_AABC t1 t2 t3 t4)).2 in
       msg_total st = 4 ∧ per_sec st = 4 ∧ per_min st = 4
       ∧ uniq_sec st = 3 ∧ uniq_min st = 3 ∧ uniq_total st = 3
       ∧ top_users st = [("A", 2); ("B", 1); ("C", 1)]
       ∧ top_display st = "A(2), B(1), C(1)").
Proof.
  split; [|split].
  - intros now s ranked. split; [done|].
    split; [apply sorted_desc_perm|].
    split; [apply (sorted_desc_sorted snd)|].
    split; [intros c; apply (sorted_desc_stable snd)|].
    intros a b. apply (sorted_take_drop_ordered snd).
  - apply record_message_key_order.
  - intros t1 t2 t3 t4 now H1 H2 H3 H4 st.
    assert (Qlt_bool t1 (now - 60) = false) as E by (apply Qlt_bool_false; lra).
    assert (∀ t u, (now - 1 <= t)%Q → in_last_second now (t, u) = true) as Hin.
    { intros t u Ht. by apply Qge_bool_iff. }
    subst st. unfold stats_query, window_stats, heard_AABC.
    cbn [events record_message set_events demo_start initial app evict fst].
    rewrite E.
    cbn [List.filter]. rewrite !Hin by done.
    cbn [List.filter]. vm_compute. done.
Qed.

Lemma top_actors_ranked_witness :
  top_users (stats_query (3 # 4) (heard_AABC 0 (1 # 4) (1 # 2) (3 # 4))).2
  = [("A", 2); ("B", 1); ("C", 1)].
Proof.
  refine (proj1 (proj2 (proj2 (proj2 (proj2 (proj2 (proj2
    (proj2 (proj2 top_actors_ranked) 0%Q (1 # 4) (1 # 2) (3 # 4) (3 # 4)
       _ _ _ _))))))));
    unfold Qle; simpl; lia.
Defined.

Lemma query_windows_use_clamped_ages_witness :
  (1 <= 2)%Q ∧ in_last_second 1 (2%Q, "A") = true.
Proof.
  assert (1 <= 2)%Q as H by (unfold Qle; simpl; lia).
  split; [exact H|].
  exact (proj1 (proj2 (proj2 (proj2 (query_windows_use_clamped_ages 1 demo_start))
                         (2%Q, "A") H))).
Defined.

(** ** Retention of captures *)

Lemma trim_spec (w : capture_world) (N : nat) (paths : list string)
    (fs : gset string) :
  trim w (Z.of_nat N) paths fs
  = (drop (length paths - N) paths,
     unlink_all w (take (length paths - N) paths) fs,
     EvUnlink <$> take (length paths - N) paths,
     true).
Proof.
  revert fs. induction paths as [|old rest IH]; intros fs.
  - simpl. destruct (Z.ltb_spec (Z.of_nat N) 0); [lia|done].
  - cbn [trim].
    destruct (Z.ltb_spec (Z.of_nat N) (Z.of_nat (length (old :: rest))))
      as [Hlt|Hge].
    + simpl in Hlt. rewrite IH.
      replace (length (old :: rest) - N) with (S (length rest - N))
        by (simpl; lia).
      done.
    + replace (length (old :: rest) - N) with 0 by (simpl in *; lia).
      done.
Qed.

Lemma unlinked_app (a b : list capture_event) :
  unlinked (a ++ b) = unlinked a ++ unlinked b.
Proof. unfold unlinked. apply omap_app. Qed.

Lemma unlinked_unlinks (ps : list string) : unlinked (EvUnlink <$> ps) = ps.
Proof.
  unfold unlinked. induction ps as [|p ps IH]; [done|].
  csimpl. by rewrite IH.
Qed.

Lemma store_capture_spec (cfg : config) (w : capture_world) (path : string)
    (s : session) (N : nat) :
  screenshot_max cfg = Some (Z.of_nat N) → 0 < N →
  let all := screenshot_paths s ++ [path] in
  let k := length all - N in
  let r := store_capture cfg w path s in
  screenshot_paths r.1.1 = drop k all
  ∧ files r.1.1 = unlink_all w (take k all) (files s ∪ {[path]})
  ∧ latest_screenshot r.1.1 = Some path
  ∧ r.1.2 = EvUnlink <$> take k all
  ∧ r.2 = true.
Proof.
  intros Hmax HN all k r. subst r. unfold store_capture.
  assert (int_truthy (Some (Z.of_nat N)) = true) as Ht.
  { apply negb_true_iff, Z.eqb_neq. lia. }
  rewrite Hmax, Ht. cbn [default from_option id].
  rewrite trim_spec. done.
Qed.

(** Closes a goal about the fields and deletions of a finished call. *)
Ltac close_call :=
  cbn [fst snd]; rewrite ?unlinked_app; cbn; rewrite ?app_nil_r; done.

Lemma capture_once_success (cfg : config) (w : capture_world) (s : session)
    (dir : string) :
  screenshot_dir cfg = Some dir →
  opt_str_truthy (stream_url cfg) = true →
  primary_succeeds w →
  let st := store_capture cfg w (output_path cfg w dir) s in
  let r := capture_once cfg w s in
  screenshot_paths r.1.1 = screenshot_paths st.1.1
  ∧ files r.1.1 = files st.1.1
  ∧ latest_screenshot r.1.1 = latest_screenshot st.1.1
  ∧ unlinked r.1.2 = unlinked st.1.2.
Proof.
  intros Hdir Hurl (Hsp & Hdone & Hrc) st r. subst st r.
  unfold capture_once. rewrite Hdir, Hurl, Hsp, Hdone, Hrc.
  cbn [negb Z.eqb].
  destruct (store_capture cfg w (output_path cfg w dir) s) as [[s1 unl] ok].
  destruct ok; cbn [negb]; [|close_call].
  destruct (screenshot_embed cfg); cbn [negb]; [|close_call].
  destruct (spawn (thumb w)); try close_call.
  destruct (completes_within 10 (thumb w)); cbn [negb on_timeout].
  - destruct ((returncode (thumb w) =? 0)%Z
              && negb (String.eqb (stdout (thumb w)) "")); close_call.
  - destruct (true && negb (kill_finished_ok w)); close_call.
Qed.

Lemma trim_unlink_irrelevant (w w' : capture_world) (max : Z)
    (paths : list string) (fs fs' : gset string) :
  (trim w max paths fs).1.1.1 = (trim w' max paths fs').1.1.1
  ∧ (trim w max paths fs).1.2 = (trim w' max paths fs').1.2
  ∧ (trim w max paths fs).2 = (trim w' max paths fs').2.
Proof.
  revert fs fs'. induction paths as [|old rest IH]; intros fs fs'; [done|].
  cbn [trim]. destruct (max <? Z.of_nat (length (old :: rest)))%Z; [|done].
  specialize (IH (unlink w old fs) (unlink w' old fs')).
  destruct (trim w max rest (unlink w old fs)) as [[[p1 f1] e1] o1].
  destruct (trim w' max rest (unlink w' old fs')) as [[[p2 f2] e2] o2].
  simpl in *. destruct IH as (-> & -> & ->). done.
Qed.

Lemma store_capture_unlink_irrelevant (cfg : config) (w : capture_world)
    (f : string → bool) (path : string) (s : session) :
  let r := store_capture cfg w path s in
  let r' := store_capture cfg (with_unlink_ok f w) path s in
  forget_files r'.1.1 = forget_files r.1.1 ∧ r'.1.2 = r.1.2 ∧ r'.2 = r.2.
Proof.
  intros r r'. subst r r'. unfold store_capture.
  destruct (int_truthy (screenshot_max cfg)); [|done].
  pose proof (trim_unlink_irrelevant (with_unlink_ok f w) w
                (default 0%Z (screenshot_max cfg))
                (screenshot_paths s ++ [path])
                (files s ∪ {[path]}) (files s ∪ {[path]})) as H.
  destruct (trim (with_unlink_ok f w) _ _ _) as [[[p1 f1] e1] o1].
  destruct (trim w _ _ _) as [[[p2 f2] e2] o2].
  simpl in *. destruct H as (-> & -> & ->). done.
Qed.

Lemma capture_once_unlink_irrelevant (cfg : config) (w : capture_world)
    (f : string → bool) (s : session) :
  let r := capture_once cfg w s in
  let r' := capture_once cfg (with_unlink_ok f w) s in
  forget_files r'.1.1 = forget_files r.1.1 ∧ r'.1.2 = r.1.2 ∧ r'.2 = r.2.
Proof.
  intros r r'. subst r r'. unfold capture_once.
  destruct (screenshot_dir cfg) as [dir|]; [|done].
  destruct (negb (opt_str_truthy (stream_url cfg))); [done|].
  cbn [primary thumb with_unlink_ok kill_finished_ok b64encode on_timeout].
  destruct (spawn (primary w)); try done.
  destruct (negb (completes_within 15 (primary w))); [done|].
  destruct (negb (returncode (primary w) =? 0)%Z); [done|].
  change (output_path cfg (with_unlink_ok f w) dir) with (output_path cfg w dir).
  pose proof (store_capture_unlink_irrelevant cfg w f (output_path cfg w dir) s)
    as H.
  destruct (store_capture cfg (with_unlink_ok f w) _ s) as [[s1' unl'] ok'].
  destruct (store_capture cfg w _ s) as [[s1 unl] ok].
  simpl in H. destruct H as (Hs & -> & ->).
  destruct (negb ok); [done|].
  destruct (negb (screenshot_embed cfg)); [done|].
  destruct (spawn (thumb w)).
  - split; [|done]. cbn [fst].
    change (forget_files (on_not_found s1'))
      with (on_not_found (forget_files s1')).
    by rewrite Hs.
  - done.
  - destruct (negb (completes_within 10 (thumb w))); [done|].
    destruct ((returncode (thumb w) =? 0)%Z
              && negb (String.eqb (stdout (thumb w)) "")); [|done].
    split; [|done]. cbn [fst].
    change (forget_files (set_thumbnail ?b s1'))
      with (set_thumbnail (b64encode w (stdout (thumb w))) (forget_files s1')).
    by rewrite Hs.
Qed.

Section retention.
Context (cfg : config) (dir : string) (N : nat).
Hypothesis Hdir : screenshot_dir cfg = Some dir.
Hypothesis Hurl : opt_str_truthy (stream_url cfg) = true.
Hypothesis Hmax : screenshot_max cfg = Some (Z.of_nat N).
Hypothesis HN : 0 < N.

Lemma capture_once_retains (w : capture_world) (s : session) :
  primary_succeeds w →
  let p := output_path cfg w dir in
  let all := screenshot_paths s ++ [p] in
  let k := length all - N in
  let r := capture_once cfg w s in
  latest_screenshot r.1.1 = Some p
  ∧ screenshot_paths r.1.1 = drop k all
  ∧ unlinked r.1.2 = take k all
  ∧ files r.1.1 = unlink_all w (take k all) (files s ∪ {[p]}).
Proof.
  intros Hok p all k r.
  destruct (capture_once_success cfg w s dir Hdir Hurl Hok)
    as (Hp & Hf & Hl & Hu).
  destruct (store_capture_spec cfg w p s N Hmax HN)
    as (Sp & Sf & Sl & Se & _).
  subst r. fold p in Hp, Hf, Hl, Hu.
  rewrite Hp, Hf, Hl, Hu, Sp, Sf, Sl, Se.
  by rewrite unlinked_unlinks.
Qed.

(** While the FIFO has room, nothing is deleted. *)
Lemma capture_calls_fill (ws : list capture_world) (s : session) :
  Forall primary_succeeds ws →
  length (screenshot_paths s) + length ws ≤ N →
  let ps := (λ w, output_path cfg w dir) <$> ws in
  let r := capture_calls cfg ws s in
  screenshot_paths r.1 = screenshot_paths s ++ ps
  ∧ files r.1 = files s ∪ list_to_set ps
  ∧ unlinked r.2 = [].
Proof.
  revert s. induction ws as [|w ws IH]; intros s Hall Hlen.
  - simpl. rewrite app_nil_r. split; [done|]. split; [|done].
    by rewrite (right_id_L ∅ (∪)).
  - apply Forall_cons in Hall as [Hw Hall].
    destruct (capture_once_retains w s Hw) as (_ & Hp & Hu & Hf).
    simpl in Hlen.
    replace (length (screenshot_paths s ++ [output_path cfg w dir]) - N)
      with 0 in Hp, Hu, Hf by (rewrite length_app; simpl; lia).
    rewrite drop_0 in Hp. rewrite take_0 in Hu, Hf.
    cbn [capture_calls].
    destruct (capture_once cfg w s) as [[s1 tr] c]. simpl in Hp, Hu, Hf.
    specialize (IH s1 Hall).
    destruct (capture_calls cfg ws s1) as [s2 tr'].
    destruct IH as (Ip & If & Iu).
    { rewrite Hp, length_app. simpl. lia. }
    simpl in *. rewrite Ip, If, Hp, Hf, unlinked_app, Hu, Iu.
    split; [by rewrite <- app_assoc|]. split; [|done].
    unfold unlink_all. simpl.
    by rewrite (assoc_L (∪)).
Qed.

Lemma capture_calls_snoc (ws : list capture_world) (wl : capture_world)
    (s : session) :
  capture_calls cfg (ws ++ [wl]) s
  = let '(s1, tr) := capture_calls cfg ws s in
    let '(s2, tr', _) := capture_once cfg wl s1 in
    (s2, tr ++ tr').
Proof.
  revert s. induction ws as [|w ws IH]; intros s.
  - simpl. destruct (capture_once cfg wl s) as [[s2 tr'] c].
    by rewrite app_nil_r.
  - cbn [capture_calls app]. destruct (capture_once cfg w s) as [[s1 tr] c].
    rewrite IH. destruct (capture_calls cfg ws s1) as [s1' tr1].
    destruct (capture_once cfg wl s1') as [[s2 tr'] c'].
    by rewrite app_assoc.
Qed.
End retention.

(** *** Deletions and the directory *)

Lemma unlink_subseteq (w : capture_world) (p : string) (fs : gset string) :
  unlink w p fs ⊆ fs.
Proof.
  unfold unlink. destruct (bool_decide (p ∈ fs) && unlink_ok w p); [|done].
  by apply subseteq_difference_l.
Qed.

Lemma unlink_all_subseteq (w : capture_world) (ps : list string)
    (fs : gset string) :
  unlink_all w ps fs ⊆ fs.
Proof.
  unfold unlink_all. revert fs. induction ps as [|p ps IH]; intros fs; [done|].
  simpl. etrans; [apply IH|apply unlink_subseteq].
Qed.

(** A file whose deletion was asked for and succeeded is gone. *)
Lemma unlink_all_gone (w : capture_world) (ps : list string)
    (fs : gset string) (q : string) :
  q ∈ ps → unlink_ok w q = true → q ∉ unlink_all w ps fs.
Proof.
  unfold unlink_all. revert fs. induction ps as [|p ps IH]; intros fs Hin Hok.
  - by apply not_elem_of_nil in Hin.
  - simpl. destruct (decide (q = p)) as [->|Hne].
    + intros Hq. apply (unlink_all_subseteq w ps) in Hq.
      unfold unlink in Hq. rewrite Hok in Hq.
      destruct (bool_decide_reflect (p ∈ fs)) as [Hp|Hp]; simpl in Hq; [|done].
      apply elem_of_difference in Hq as [_ Hq]. apply Hq.
      by apply elem_of_singleton.
    + apply elem_of_cons in Hin as [?|Hin]; [done|]. by apply IH.
Qed.

(** Every other file stays, and so does one whose deletion failed. *)
Lemma unlink_all_keeps (w : capture_world) (ps : list string)
    (fs : gset string) (q : string) :
  q ∈ fs → q ∉ ps ∨ unlink_ok w q = false → q ∈ unlink_all w ps fs.
Proof.
  unfold unlink_all. revert fs. induction ps as [|p ps IH]; intros fs Hin Hq;
    [done|].
  simpl. apply IH.
  - unfold unlink. destruct (bool_decide (p ∈ fs) && unlink_ok w p) eqn:E;
      [|done].
    apply andb_true_iff in E as [_ E].
    apply elem_of_difference. split; [done|]. rewrite elem_of_singleton.
    intros ->. destruct Hq as [Hq|Hq]; [|congruence].
    apply Hq. by left.
  - destruct Hq as [Hq|Hq]; [|by right]. left.
    intros H. apply Hq. by right.
Qed.

(** C5. With a maximum of N retained captures configured, a capture whose
    primary process succeeds records its path as the latest one and
    appends it to the FIFO; the FIFO is then cut from the front down to N
    entries and exactly the entries cut are handed to [unlink], oldest
    first. A file whose deletion succeeds is no longer in the directory;
    every other file, and one whose deletion fails, is still there; and
    whether the deletions succeed changes nothing else: the call ends the
    same way with the same state otherwise. Hence N+1 successful captures
    from an empty FIFO leave the N newest paths in it and the only
    deletion asked for is the oldest path. When the N+1 paths differ from
    each other and that deletion succeeds, the oldest file is gone and the
    directory holds what it held before, the oldest path aside, and the N
    newest captures: exactly N files in a directory that was empty. When
    the deletion fails, all N+1 captures are still there. *)
Theorem retention_keeps_newest (cfg : config) (dir : string) (N : nat)
    (Hdir : screenshot_dir cfg = Some dir)
    (Hurl : opt_str_truthy (stream_url cfg) = true)
    (Hmax : screenshot_max cfg = Some (Z.of_nat N))
    (HN : 0 < N) :
  (∀ w s, primary_succeeds w →
     let p := output_path cfg w dir in
     let all := screenshot_paths s ++ [p] in
     let k := length all - N in
     let r := capture_once cfg w s in
     latest_screenshot r.1.1 = Some p
     ∧ screenshot_paths r.1.1 = drop k all
     ∧ unlinked r.1.2 = take k all
     ∧ files r.1.1 = unlink_all w (take k all) (files s ∪ {[p]})
     ∧ (∀ q, q ∈ take k all → unlink_ok w q = true → q ∉ files r.1.1)
     ∧ (∀ q, q ∈ files s ∪ {[p]} →
             q ∉ take k all ∨ unlink_ok w q = false → q ∈ files r.1.1)
     ∧ (length (screenshot_paths s) ≤ N → length (screenshot_paths r.1.1) ≤ N)
     ∧ (∀ f, let r' := capture_once cfg (with_unlink_ok f w) s in
             forget_files r'.1.1 = forget_files r.1.1
             ∧ r'.1.2 = r.1.2 ∧ r'.2 = r.2))
  ∧ (∀ ws wl s p0 rest,
       Forall primary_succeeds (ws ++ [wl]) →
       length ws = N →
       screenshot_paths s = [] →
       (λ w, output_path cfg w dir) <$> (ws ++ [wl]) = p0 :: rest →
       let r := capture_calls cfg (ws ++ [wl]) s in
       screenshot_paths r.1 = rest
       ∧ length rest = N
       ∧ unlinked r.2 = [p0]
       ∧ (NoDup (p0 :: rest) → unlink_ok wl p0 = true →
          (p0 ∉ files r.1)
          ∧ (∀ q, q ∈ rest → q ∈ files r.1)
          ∧ files r.1 = (files s ∖ {[p0]}) ∪ list_to_set rest
          ∧ (files s = ∅ → size (files r.1) = N))
       ∧ (unlink_ok wl p0 = false →
          files r.1 = files s ∪ list_to_set (p0 :: rest))).
Proof.
  split.
  - intros w s Hok p all k r.
    destruct (capture_once_retains cfg dir N Hdir Hurl Hmax HN w s Hok)
      as (Hl & Hp & Hu & Hf).
    split; [done|]. split; [done|]. split; [done|]. split; [done|].
    split; [|split; [|split]].
    + intros q Hq Hq'. subst r. rewrite Hf. by apply unlink_all_gone.
    + intros q Hq Hq'. subst r. rewrite Hf. by apply unlink_all_keeps.
    + intros Hlen. subst r. rewrite Hp, length_drop.
      subst k all. rewrite length_app. simpl. lia.
    + intros f. apply capture_once_unlink_irrelevant.
  - intros ws wl s p0 rest Hall Hlen Hs Hps r.
    apply Forall_app in Hall as [Hall Hwl].
    rewrite Forall_singleton in Hwl.
    subst r. rewrite capture_calls_snoc.
    destruct (capture_calls_fill cfg dir N Hdir Hurl Hmax HN ws s Hall)
      as (Fp & Ff & Fu); [rewrite Hs; simpl; lia|].
    destruct (capture_calls cfg ws s) as [s1 tr]. simpl in Fp, Ff, Fu.
    destruct (capture_once_retains cfg dir N Hdir Hurl Hmax HN wl s1 Hwl)
      as (_ & Hp & Hu & Hf).
    destruct (capture_once cfg wl s1) as [[s2 tr'] c]. simpl in Hp, Hu, Hf.
    rewrite fmap_app in Hps. simpl in Hps.
    rewrite Fp, Hs in Hp, Hu, Hf. simpl in Hp, Hu, Hf.
    rewrite Hps in Hp, Hu, Hf.
    assert (length (p0 :: rest) = S N) as Hlr.
    { rewrite <- Hps, length_app, length_fmap. simpl. lia. }
    replace (length (p0 :: rest) - N) with 1 in Hp, Hu, Hf by lia.
    simpl in Hp, Hu, Hf, Hlr.
    cbn [fst snd]. rewrite unlinked_app, Fu, Hu, Hp.
    assert (files s2 = unlink wl p0 (files s ∪ list_to_set (p0 :: rest)))
      as Hfiles.
    { rewrite Hf, Ff. unfold unlink_all. simpl. f_equal.
      rewrite <- (assoc_L (∪)). f_equal.
      change ({[p0]} ∪ list_to_set rest)
        with (list_to_set (p0 :: rest) : gset string).
      rewrite <- Hps, list_to_set_app_L, list_to_set_cons, list_to_set_nil.
      by rewrite (right_id_L ∅ (∪)). }
    split; [done|]. split; [lia|]. split; [done|]. split.
    + intros Hnd Hok. apply NoDup_cons in Hnd as [Hp0 Hnd].
      assert (files s2 = (files s ∖ {[p0]}) ∪ list_to_set rest) as Heq.
      { rewrite Hfiles. unfold unlink. rewrite Hok.
        rewrite bool_decide_eq_true_2
          by (rewrite list_to_set_cons; apply elem_of_union_r, elem_of_union_l,
                elem_of_singleton; done).
        cbn [andb]. rewrite list_to_set_cons. apply set_eq. intros q.
        rewrite elem_of_difference, !elem_of_union, elem_of_difference,
          elem_of_singleton, elem_of_list_to_set.
        split; [intros [[?|[?|?]] ?]; tauto|].
        intros [[? ?]|?]; [tauto|]. split; [tauto|]. by intros ->. }
      split; [|split; [|split]].
      * rewrite Heq. rewrite elem_of_union, elem_of_difference,
          elem_of_singleton, elem_of_list_to_set. tauto.
      * intros q Hq. rewrite Heq. apply elem_of_union_r.
        by apply elem_of_list_to_set.
      * exact Heq.
      * intros Hempty. rewrite Heq, Hempty.
        rewrite (difference_disjoint_L ∅) by apply disjoint_empty_l.
        rewrite (left_id_L ∅ (∪)), size_list_to_set by done. lia.
    + intros Hok. rewrite Hfiles. unfold unlink. rewrite Hok.
      by rewrite andb_false_r.
Qed.

Lemma retention_keeps_newest_witness :
  screenshot_paths
    (capture_calls shots_cfg [smooth "t1"; smooth "t2"; smooth "t3"]
       shots_start).1
  = ["shots/demo-t2.jpg"; "shots/demo-t3.jpg"]
  ∧ "shots/demo-t1.jpg"
    ∉ files (capture_calls shots_cfg [smooth "t1"; smooth "t2"; smooth "t3"]
               shots_start).1.
Proof.
  assert (Forall primary_succeeds
            ([smooth "t1"; smooth "t2"] ++ [smooth "t3"])) as Hall
    by repeat constructor.
  assert (NoDup ["shots/demo-t1.jpg"; "shots/demo-t2.jpg";
                 "shots/demo-t3.jpg"]) as Hnd.
  { repeat (apply NoDup_cons; split;
              [rewrite ?elem_of_cons, elem_of_nil; intros H;
               repeat (destruct H as [H|H]; [discriminate H|]); exact H|]).
    apply NoDup_nil. done. }
  pose proof (proj2 (retention_keeps_newest shots_cfg "shots" 2
                       eq_refl eq_refl eq_refl (Nat.lt_0_succ 1))
                [smooth "t1"; smooth "t2"] (smooth "t3") shots_start
                "shots/demo-t1.jpg" _ Hall eq_refl eq_refl eq_refl)
    as (Hp & _ & _ & Hf & _).
  split; [exact Hp|]. exact (proj1 (Hf Hnd eq_refl)).
Defined.

(** C5 does not hold as it stands: N+1 successful captures do not always
    leave N files. With a maximum of 2, three successful captures whose
    oldest file cannot be deleted leave three files in the directory; and
    three successful captures that bear the same time stamp label write
    one file three times and then delete it, leaving none, while the FIFO
    holds two entries in both cases. *)
Lemma retention_leaves_other_than_N_files :
  let refused := with_unlink_ok (λ _, false) (smooth "t3") in
  let r := capture_calls shots_cfg [smooth "t1"; smooth "t2"; refused]
             shots_start in
  let r' := capture_calls shots_cfg [smooth "t1"; smooth "t1"; smooth "t1"]
              shots_start in
  screenshot_max shots_cfg = Some 2%Z
  ∧ Forall primary_succeeds [smooth "t1"; smooth "t2"; refused]
  ∧ screenshot_paths r.1 = ["shots/demo-t2.jpg"; "shots/demo-t3.jpg"]
  ∧ unlinked r.2 = ["shots/demo-t1.jpg"]
  ∧ files r.1
    = {["shots/demo-t1.jpg"; "shots/demo-t2.jpg"; "shots/demo-t3.jpg"]}
  ∧ size (files r.1) = 3
  ∧ Forall primary_succeeds [smooth "t1"; smooth "t1"; smooth "t1"]
  ∧ screenshot_paths r'.1 = ["shots/demo-t1.jpg"; "shots/demo-t1.jpg"]
  ∧ unlinked r'.2 = ["shots/demo-t1.jpg"]
  ∧ files r'.1 = ∅
  ∧ size (files r'.1) = 0.
Proof.
  intros refused r r'.
  split; [reflexivity|]. split; [repeat constructor|].
  do 4 (split; [vm_compute; reflexivity|]).
  split; [repeat constructor|].
  vm_compute. repeat split.
Qed.

(** ** Timeouts of the external processes *)

Lemma killed_app (a b : list capture_event) (p : proc_id) :
  killed (a ++ b) p = killed a p || killed b p.
Proof. unfold killed. apply existsb_app. Qed.

Lemma trim_no_kill (w : capture_world) (max : Z) (paths : list string)
    (fs : gset string) (p : proc_id) :
  killed (trim w max paths fs).1.2 p = false.
Proof.
  revert fs. induction paths as [|old rest IH]; intros fs; [done|].
  cbn [trim]. destruct (max <? Z.of_nat (length (old :: rest)))%Z; [|done].
  specialize (IH (unlink w old fs)).
  destruct (trim w max rest (unlink w old fs)) as [[[p1 f1] e1] o1].
  exact IH.
Qed.

Lemma store_capture_no_kill (cfg : config) (w : capture_world) (path : string)
    (s : session) (p : proc_id) :
  killed (store_capture cfg w path s).1.2 p = false.
Proof.
  unfold store_capture.
  destruct (int_truthy (screenshot_max cfg)); [|done].
  pose proof (trim_no_kill w (default 0%Z (screenshot_max cfg))
                (screenshot_paths s ++ [path]) (files s ∪ {[path]}) p) as H.
  destruct (trim w _ _ _) as [[[p1 f1] e1] o1]. exact H.
Qed.

(** No call ever kills the thumbnail process. *)
Lemma capture_once_never_kills_thumb (cfg : config) (w : capture_world)
    (s : session) :
  killed (capture_once cfg w s).1.2 Thumb = false.
Proof.
  unfold capture_once.
  destruct (screenshot_dir cfg) as [dir|]; [|done].
  destruct (negb (opt_str_truthy (stream_url cfg))); [done|].
  destruct (spawn (primary w)); try done.
  destruct (negb (completes_within 15 (primary w))); [done|].
  destruct (negb (returncode (primary w) =? 0)%Z); [done|].
  pose proof (store_capture_no_kill cfg w (output_path cfg w dir) s Thumb) as H.
  destruct (store_capture cfg w (output_path cfg w dir) s) as [[s1 unl] ok].
  simpl in H.
  destruct (negb ok); [by cbn [fst snd]; rewrite killed_app, H|].
  destruct (negb (screenshot_embed cfg)); [by cbn [fst snd]; rewrite killed_app, H|].
  destruct (spawn (thumb w)); try (by cbn [fst snd]; rewrite killed_app, H).
  destruct (negb (completes_within 10 (thumb w))).
  - cbn [on_timeout fst snd]. by rewrite !killed_app, H.
  - destruct ((returncode (thumb w) =? 0)%Z
              && negb (String.eqb (stdout (thumb w)) ""));
      cbn [fst snd]; by rewrite !killed_app, H.
Qed.

(** A primary capture that exceeds 15 units is killed, and the call leaves
    the state, the stop signal included, as it found it. *)
Lemma primary_timeout_is_killed (cfg : config) (w : capture_world)
    (s : session) (dir : string) :
  screenshot_dir cfg = Some dir →
  opt_str_truthy (stream_url cfg) = true →
  spawn (primary w) = Spawned →
  completes_within 15 (primary w) = false →
  capture_once cfg w s
  = (s, [EvSpawn Primary; EvTimeout Primary; EvKill Primary], Returned).
Proof.
  intros Hdir Hurl Hsp Hto. unfold capture_once.
  by rewrite Hdir, Hurl, Hsp, Hto.
Qed.

(** A thumbnail that exceeds 10 units: the handler's kill goes to the
    primary process, and the stop signal is left alone. *)
Lemma thumb_timeout_kills_primary (cfg : config) (w : capture_world)
    (s : session) (dir : string) :
  screenshot_dir cfg = Some dir →
  opt_str_truthy (stream_url cfg) = true →
  primary_succeeds w →
  screenshot_embed cfg = true →
  (store_capture cfg w (output_path cfg w dir) s).2 = true →
  spawn (thumb w) = Spawned →
  completes_within 10 (thumb w) = false →
  let r := capture_once cfg w s in
  (∃ before, r.1.2 = before ++ [EvSpawn Thumb; EvTimeout Thumb; EvKill Primary])
  ∧ killed r.1.2 Thumb = false
  ∧ stop_event r.1.1 = stop_event s.
Proof.
  intros Hdir Hurl (Hsp & Hdone & Hrc) Hemb Hok Hth Hto r.
  split; [|split; [apply capture_once_never_kills_thumb|]].
  - subst r. unfold capture_once.
    rewrite Hdir, Hurl, Hsp, Hdone, Hrc, Hemb. cbn [negb Z.eqb].
    destruct (store_capture cfg w (output_path cfg w dir) s) as [[s1 unl] ok].
    simpl in Hok. subst ok. rewrite Hth, Hto. cbn [negb on_timeout fst snd].
    exists ([EvSpawn Primary; EvExit Primary 0] ++ unl).
    by rewrite <- !app_assoc.
  - subst r. unfold capture_once.
    rewrite Hdir, Hurl, Hsp, Hdone, Hrc, Hemb. cbn [negb Z.eqb].
    pose proof (store_capture_stop cfg w (output_path cfg w dir) s) as Hst.
    destruct (store_capture cfg w (output_path cfg w dir) s) as [[s1 unl] ok].
    simpl in Hok, Hst. subst ok. rewrite Hth, Hto. done.
Qed.

(** C3, at the input where it fails. With thumbnails enabled, a primary
    capture that succeeds and a thumbnail process that hangs past its 10
    units: the call starts both processes, the timeout handler kills the
    primary process, which had already exited, and the thumbnail process
    that timed out is neither killed nor seen to exit. The stop signal
    stays unset. *)
Theorem thumbnail_timeout_not_terminated :
  let r := capture_once shots_cfg (thumb_hangs "t1") shots_start in
  completes_within 10 (thumb (thumb_hangs "t1")) = false
  ∧ r.1.2 = [EvSpawn Primary; EvExit Primary 0; EvSpawn Thumb;
             EvTimeout Thumb; EvKill Primary]
  ∧ killed r.1.2 Thumb = false
  ∧ left_running r.1.2 Thumb = true
  ∧ stop_event r.1.1 = false.
Proof. vm_compute. repeat split. Qed.

(** The part of C3 that holds, on the same configuration: a hanging
    primary process is the one killed, nothing is left running and the
    stop signal stays unset. *)
Example primary_timeout_terminated :
  let r := capture_once shots_cfg (primary_hangs "t1") shots_start in
  r.1.2 = [EvSpawn Primary; EvTimeout Primary; EvKill Primary]
  ∧ left_running r.1.2 Primary = false
  ∧ stop_event r.1.1 = false.
Proof. vm_compute. repeat split. Qed.

(** ** At most one capture task of the snapshot loop is unfinished *)

Lemma pending_lookup (sc : sched) :
  pending sc ≠ [] ↔ ∃ i, tasks sc !! i = Some Pending.
Proof.
  unfold pending. split.
  - intros Hne. destruct (List.filter is_pending (tasks sc)) as [|t l] eqn:E;
      [done|].
    assert (In t (List.filter is_pending (tasks sc))) as Hin
      by (rewrite E; by left).
    apply filter_In in Hin as [Hin Hp].
    destruct t; [|done].
    apply list_elem_of_In, list_elem_of_lookup in Hin. exact Hin.
  - intros [i Hi] Hnil.
    assert (In Pending (List.filter is_pending (tasks sc))) as Hin.
    { apply filter_In. split; [|done].
      apply list_elem_of_In, list_elem_of_lookup. eauto. }
    by rewrite Hnil in Hin.
Qed.

Lemma at_most_one_pending (l : list task_status) :
  (∀ i j, l !! i = Some Pending → l !! j = Some Pending → i = j) →
  length (List.filter is_pending l) ≤ 1.
Proof.
  induction l as [|t l IH]; intros Huniq; simpl; [lia|].
  destruct t; simpl.
  - assert (List.filter is_pending l = []) as ->; [|simpl; lia].
    destruct (List.filter is_pending l) as [|t' l'] eqn:E; [done|].
    assert (In t' (List.filter is_pending l)) as Hin by (rewrite E; by left).
    apply filter_In in Hin as [Hin Hp]. destruct t'; [|done].
    apply list_elem_of_In, list_elem_of_lookup in Hin as [j Hj].
    specialize (Huniq 0 (S j) eq_refl Hj). lia.
  - apply IH. intros i j Hi Hj.
    specialize (Huniq (S i) (S j) Hi Hj). lia.
Qed.

Lemma sched_inv_one_pending (sc : sched) :
  sched_inv sc → length (pending sc) ≤ 1.
Proof.
  intros Hinv. apply at_most_one_pending. intros i j Hi Hj.
  apply Hinv in Hi, Hj. congruence.
Qed.

Lemma sched_inv_may_start (sc : sched) :
  sched_inv sc → may_start sc = true → ∀ i, tasks sc !! i ≠ Some Pending.
Proof.
  intros Hinv Hstart i Hi. pose proof (Hinv i Hi) as Hs.
  unfold may_start, task_done in Hstart. rewrite Hs, Hi in Hstart. done.
Qed.

Lemma sched_inv_busy (sc : sched) :
  sched_inv sc → pending sc ≠ [] → may_start sc = false.
Proof.
  intros Hinv Hp. apply pending_lookup in Hp as [i Hi].
  destruct (may_start sc) eqn:E; [|done].
  by destruct (sched_inv_may_start sc Hinv E i).
Qed.

Lemma trigger_capture_inv (cfg : config) (sc : sched) :
  sched_inv sc → sched_inv (trigger_capture cfg sc).
Proof.
  intros Hinv. unfold trigger_capture.
  destruct (screenshot_on_snapshot cfg); [|done]. simpl.
  destruct (may_start sc) eqn:E; [|done].
  intros i Hi. simpl in *.
  destruct (decide (i < length (tasks sc))) as [Hlt|Hge].
  - rewrite lookup_app_l in Hi by done.
    by destruct (sched_inv_may_start sc Hinv E i).
  - assert (i = length (tasks sc)) as ->; [|done].
    apply lookup_lt_Some in Hi. rewrite length_app in Hi. simpl in Hi. lia.
Qed.

Lemma finish_task_inv (i : nat) (sc : sched) :
  sched_inv sc → sched_inv (finish_task i sc).
Proof.
  intros Hinv j Hj. unfold finish_task in *. simpl in *.
  destruct (decide (i = j)) as [->|Hne].
  - destruct (decide (j < length (tasks sc))) as [Hlt|Hge].
    + by rewrite list_lookup_insert_eq in Hj.
    + rewrite list_insert_ge in Hj by lia. by apply Hinv.
  - rewrite list_lookup_insert_ne in Hj by done. by apply Hinv.
Qed.

Lemma stats_tick_sched (cfg : config) (now now' : Q) (s : session) (sc : sched) :
  (stats_tick cfg now now' s sc).1.2
  = if stop_event s then sc else trigger_capture cfg sc.
Proof.
  unfold stats_tick. destruct (stop_event s); [done|]. simpl.
  destruct (int_truthy (inactivity cfg) && _); [done|].
  destruct (int_truthy (duration cfg) && _); done.
Qed.

Lemma step_sched_inv (json_loads : string → option json) (cfg : config)
    (x y : system) :
  step json_loads cfg x y → sched_inv (sch x) → sched_inv (sch y).
Proof.
  intros Hstep. step_cases Hstep; simpl; try done.
  - intros Hinv.
    pose proof (stats_tick_sched cfg now now' (sess x') (sch x')) as Hsc.
    rewrite Ht in Hsc. simpl in Hsc. subst sc'.
    destruct (stop_event (sess x')); [done|]. by apply trigger_capture_inv.
  - intros Hinv.
    pose proof (stats_tick_sched cfg now now' (set_events [] (sess x'))
                  (sch x')) as Hsc.
    rewrite Ht in Hsc. simpl in Hsc. subst sc'.
    destruct (stop_event (sess x')); [done|]. by apply trigger_capture_inv.
  - destruct (after_frame_cases _ _ _ _ _ _ Hf) as (-> & _). done.
  - apply finish_task_inv.
Qed.

Lemma reachable_sched_inv (json_loads : string → option json) (cfg : config)
    (v : option Z) (t0 : Q) (fs : gset string) (sys : system) :
  reachable json_loads cfg v t0 fs sys → sched_inv (sch sys).
Proof.
  unfold reachable. revert sys.
  apply (rtc_ind_r (λ sys, sched_inv (sch sys))).
  - intros i Hi. simpl in Hi. by rewrite lookup_nil in Hi.
  - intros y z _ Hstep IH. by eapply step_sched_inv.
Qed.

(** X19. In every state a run can reach, whatever the order of snapshot
    ticks and task completions, at most one capture task started by the
    snapshot loop is unfinished. A tick that finds one unfinished leaves
    the tasks as they are; a tick that starts a capture does so in
    screenshot-on-snapshot mode, with no capture unfinished, and starts
    exactly one; after the tick there is again at most one. This counts
    the tasks, not the external processes they started. *)
Theorem one_capture_in_flight (json_loads : string → option json)
    (cfg : config) (v : option Z) (t0 : Q) (fs : gset string) (sys : system)
    (Hreach : reachable json_loads cfg v t0 fs sys) :
  length (pending (sch sys)) ≤ 1
  ∧ ∀ now now',
      let sc' := (stats_tick cfg now now' (sess sys) (sch sys)).1.2 in
      (pending (sch sys) ≠ [] → sc' = sch sys)
      ∧ (sc' ≠ sch sys →
           screenshot_on_snapshot cfg = true
           ∧ pending (sch sys) = []
           ∧ tasks sc' = tasks (sch sys) ++ [Pending]
           ∧ pending sc' = [Pending])
      ∧ length (pending sc') ≤ 1.
Proof.
  pose proof (reachable_sched_inv _ _ _ _ _ _ Hreach) as Hinv.
  split; [by apply sched_inv_one_pending|].
  intros now now' sc'. subst sc'. rewrite stats_tick_sched.
  split; [|split].
  - intros Hp. destruct (stop_event (sess sys)); [done|].
    unfold trigger_capture. rewrite (sched_inv_busy _ Hinv Hp).
    by rewrite andb_false_r.
  - intros Hne. destruct (stop_event (sess sys)); [done|].
    unfold trigger_capture in *.
    destruct (screenshot_on_snapshot cfg); [|done].
    destruct (may_start (sch sys)) eqn:E; [|done].
    simpl in *.
    assert (pending (sch sys) = []) as Hnil.
    { destruct (pending (sch sys)) eqn:Ep; [done|].
      assert (pending (sch sys) ≠ []) as Hp by (by rewrite Ep).
      rewrite (sched_inv_busy _ Hinv Hp) in E. done. }
    split; [done|]. split; [done|]. split; [done|].
    unfold pending in *. simpl. rewrite List.filter_app, Hnil. done.
  - apply sched_inv_one_pending.
    destruct (stop_event (sess sys)); [done|]. by apply trigger_capture_inv.
Qed.

Lemma shots_ticked_reachable :
  reachable demo_loads shots_cfg None 0 ∅ shots_ticked.
Proof.
  unfold reachable. eapply rtc_l; [|apply rtc_refl].
  apply (step_tick demo_loads shots_cfg 1 1 (start shots_cfg None 0 ∅)
           (stats_tick shots_cfg 1 1 shots_start no_tasks).1.1
           (stats_tick shots_cfg 1 1 shots_start no_tasks).1.2
           (stats_tick shots_cfg 1 1 shots_start no_tasks).2); reflexivity.
Defined.

Lemma one_capture_in_flight_witness :
  reachable demo_loads shots_cfg None 0 ∅ shots_ticked
  ∧ pending (sch shots_ticked) = [Pending]
  ∧ length (pending (sch shots_ticked)) ≤ 1.
Proof.
  split; [exact shots_ticked_reachable|]. split; [reflexivity|].
  exact (proj1 (one_capture_in_flight demo_loads shots_cfg None 0 ∅
                  shots_ticked shots_ticked_reachable)).
Defined.

(** C4, at the input where it fails. On-snapshot captures with thumbnails:
    the first tick starts capture 0, whose thumbnail process hangs; the
    call ends at the thumbnail's timeout with that process neither killed
    nor seen to exit, so the process is still running when the task is
    done. The next tick finds the task done and starts capture 1, whose
    first action is to start the primary process: two external processes
    of the snapshot-driven captures run at once, while only one task is
    unfinished. *)
Theorem second_capture_beside_running_thumbnail :
  reachable demo_loads shots_cfg None 0 ∅ shots_overlap
  ∧ (let tr := (capture_once shots_cfg (thumb_hangs "t1")
                  (sess shots_ticked)).1.2 in
     left_running tr Thumb = true ∧ killed tr Thumb = false)
  ∧ tasks (sch shots_leftover) = [Done]
  ∧ left_behind shots_leftover = [(ByTick 0, Thumb)]
  ∧ may_start (sch shots_leftover) = true
  ∧ tasks (sch shots_overlap) = [Done; Pending]
  ∧ left_behind shots_overlap = [(ByTick 0, Thumb)]
  ∧ length (pending (sch shots_overlap)) = 1
  ∧ head (capture_once shots_cfg (smooth "t2") (sess shots_overlap)).1.2
    = Some (EvSpawn Primary).
Proof.
  split.
  - unfold reachable.
    eapply rtc_r; [eapply rtc_r; [exact shots_ticked_reachable|]|].
    + apply (step_capture_task demo_loads shots_cfg 0 (thumb_hangs "t1")
               shots_ticked).
      reflexivity.
    + apply (step_tick demo_loads shots_cfg 2 2 shots_leftover
               (stats_tick shots_cfg 2 2 (sess shots_leftover)
                  (sch shots_leftover)).1.1
               (stats_tick shots_cfg 2 2 (sess shots_leftover)
                  (sch shots_leftover)).1.2
               (stats_tick shots_cfg 2 2 (sess shots_leftover)
                  (sch shots_leftover)).2); reflexivity.
  - vm_compute. repeat split.
Qed.

(** ** Frames without a sender name *)

Lemma username_of_anon (fields : list (string * json)) :
  no_username fields = true → username_of (JObj fields) = inr (JStr "anon").
Proof.
  unfold no_username, username_of, py_get, py_or.
  destruct (assoc "sender" fields) as [sender|]; simpl; [|done].
  destruct (truthy sender) eqn:Et; [|done].
  destruct sender as [| | | | |sf]; try done.
  destruct (assoc "username" sf) as [u|]; simpl; [|done].
  intros Hu. apply negb_true_iff in Hu. by rewrite Hu.
Qed.

(** C10. A chat-message frame whose decoded data has no usable sender name
    (sender missing or empty, or username missing or empty) is not skipped:
    the listener records it under the actor id "anon", which appends the
    event to the window, adds one to the lifetime total, puts "anon" in
    the uniqueness set and adds one to its per-actor count, and then
    writes a message record with username "anon" to the log. *)
Theorem anonymous_sender_recorded (json_loads : string → option json)
    (cfg : config) (now : Q) (message : string) (s : session)
    (pf df : list (string * json))
    (Hframe : json_loads message = Some (JObj pf))
    (Hevent : assoc "event" pf = Some (JStr chat_message_event))
    (Hdata : loads_data json_loads (default JNull (assoc "data" pf))
             = inr (Some (JObj df)))
    (Hanon : no_username df = true) :
  let content := py_or (default JNull (assoc "content" df)) (JStr "") in
  let s' := jsonl_write (Message (channel_label cfg) "anon" content)
              (record_message now "anon" s) in
  listen_step json_loads cfg now (RecvText message) s = Recorded s'
  ∧ events s' = events s ++ [(now, "anon")]
  ∧ total_messages s' = total_messages s + 1
  ∧ "anon" ∈ unique_users s'
  ∧ dict_get (user_counts s') "anon" = dict_get (user_counts s) "anon" + 1
  ∧ log s' = log s ++ [Message (channel_label cfg) "anon" content].
Proof.
  intros content s'. split.
  - unfold listen_step. rewrite Hframe. cbn [py_get].
    rewrite Hevent. cbn [default from_option id differs_from].
    rewrite String.eqb_refl. cbn [negb].
    rewrite Hdata, (username_of_anon df Hanon). done.
  - split; [done|]. split; [done|].
    split; [simpl; apply elem_of_union_r, elem_of_singleton; done|].
    split; [apply dict_get_set_same | done].
Qed.

Lemma anonymous_sender_recorded_witness :
  log (jsonl_write (Message "demo" "anon" (JStr "hello"))
         (record_message 1 "anon" demo_start))
  = log demo_start ++ [Message "demo" "anon" (JStr "hello")]
  ∧ listen_step demo_loads demo_cfg 1 (RecvText "bare-frame") demo_start
    = Recorded (jsonl_write (Message "demo" "anon" (JStr "hello"))
                  (record_message 1 "anon" demo_start)).
Proof.
  pose proof (anonymous_sender_recorded demo_loads demo_cfg 1 "bare-frame"
                demo_start
                [("event", JStr chat_message_event); ("data", JStr "bare")]
                [("content", JStr "hello")]
                eq_refl eq_refl eq_refl eq_refl) as H.
  split; [reflexivity|]. exact (proj1 H).
Defined.

(** ** Start-up validation *)

Lemma configure_rejects (w : startup_world) (a : args) (channel : string)
    (chatroom : Z) (viewer_count : option Z) (log_path : string) :
  rejected_options a →
  ∃ reason, reason ∈ validation_reasons
            ∧ configure w a channel chatroom viewer_count log_path = Exit1 reason.
Proof.
  intros Hbad. unfold configure. cbv zeta.
  destruct (arg_screenshot_on_snapshot a && int_truthy (arg_screenshot_interval a))
    eqn:Eboth.
  { eexists. split; [|done]. unfold validation_reasons. set_solver. }
  destruct (negb (format_allowed _)) eqn:Efmt.
  { eexists. split; [|done]. unfold validation_reasons. set_solver. }
  destruct (given_nonpositive (arg_screenshot_max a)) eqn:Emax.
  { eexists. split; [|done]. unfold validation_reasons. set_solver. }
  destruct (given_nonpositive (arg_screenshot_embed_width a)) eqn:Ewidth.
  { eexists. split; [|done]. unfold validation_reasons. set_solver. }
  assert (int_truthy (arg_screenshot_interval a) || arg_screenshot_on_snapshot a
          = true
          ∧ given_nonpositive (arg_screenshot_interval a) = true) as [-> ->].
  { destruct Hbad as [[Hon [i Hi]]|[Hf|[Hm|[Hw|(i & Hi & Hneg)]]]].
    - rewrite Hon, Hi in *. simpl in *.
      destruct (Z.eqb_spec i 0) as [->|Hne]; [done|done].
    - apply negb_false_iff in Efmt. congruence.
    - congruence.
    - congruence.
    - rewrite Hi. simpl. split.
      + destruct (Z.eqb_spec i 0); [lia|done].
      + apply Z.leb_le. lia. }
  eexists. split; [|done]. unfold validation_reasons. set_solver.
Qed.

Lemma resolve_session_outcomes (w : startup_world) (a : args) :
  (∃ reason, resolve_session w a = inl (Exit1 reason))
  ∨ resolve_session w a = inl (Uncaught ValueError)
  ∨ ∃ r, resolve_session w a = inr r.
Proof.
  unfold resolve_session.
  destruct (negb (websockets_installed w)); [eauto|].
  destruct (negb (opt_str_truthy (arg_channel a))
            && negb (opt_str_truthy (arg_chatroom_id a))); [eauto|].
  destruct (opt_str_truthy (arg_chatroom_id a)).
  - destruct (int_of_str w (default "" (arg_chatroom_id a))) as [n|]; [|eauto].
    destruct (negb (id_truthy (Some n))); eauto.
  - destruct (resolved_chatroom w) as [[id vc]|]; [|eauto].
    destruct (negb (id_truthy id)); eauto.
Qed.

(** C2, as the code has it. When both screenshot triggers are given, or the
    format is neither jpg nor png once lower-cased, or the screenshot
    maximum or thumbnail width is not positive, or the screenshot interval
    is negative, start-up never reaches the log file or the tasks: it ends
    with a printed reason and exit code 1, or on the [ValueError] of an
    unreadable chatroom id; nothing is written to the log and no task is
    started. Whenever the channel and chatroom id resolve, the reason is
    one of the five validation messages. *)
Theorem invalid_screenshot_options_rejected (w : startup_world) (a : args)
    (Hbad : rejected_options a) :
  ((∃ reason, run_live_start w a = Exit1 reason)
   ∨ run_live_start w a = Uncaught ValueError)
  ∧ records_written (run_live_start w a) = []
  ∧ tasks_started (run_live_start w a) = []
  ∧ (∀ r, resolve_session w a = inr r →
       ∃ reason, reason ∈ validation_reasons
                 ∧ run_live_start w a = Exit1 reason).
Proof.
  assert (∀ r, resolve_session w a = inr r →
            ∃ reason, reason ∈ validation_reasons
                      ∧ run_live_start w a = Exit1 reason) as Hok.
  { intros [[[ch id] vc] lp] Hr. unfold run_live_start. rewrite Hr.
    by apply configure_rejects. }
  destruct (resolve_session_outcomes w a) as [[reason Hr]|[Hr|[r Hr]]].
  - unfold run_live_start. rewrite Hr. split; [eauto|]. split; [done|].
    split; [done|]. intros r Hr'. congruence.
  - unfold run_live_start. rewrite Hr. split; [eauto|]. split; [done|].
    split; [done|]. intros r Hr'. congruence.
  - destruct (Hok r Hr) as (reason & Hin & Hexit).
    rewrite Hexit. split; [eauto|]. split; [done|]. split; [done|].
    intros r' _. eauto.
Qed.

Lemma invalid_screenshot_options_rejected_witness :
  rejected_options zero_max
  ∧ run_live_start plain_world zero_max
    = Exit1 "Screenshot max must be a positive number."
  ∧ records_written (run_live_start plain_world zero_max) = [].
Proof.
  assert (rejected_options zero_max) as H.
  { right. right. left. reflexivity. }
  split; [exact H|]. split; [reflexivity|].
  exact (proj1 (proj2 (invalid_screenshot_options_rejected plain_world
                         zero_max H))).
Defined.

(** C2 as stated fails: non-positive values of [--duration] and
    [--inactivity] pass start-up. The log file is opened, [session_start]
    is written and the tasks, the duration timer among them, are
    started. *)
Lemma negative_timers_accepted :
  arg_duration negative_timers = Some (-5)%Z
  ∧ arg_inactivity negative_timers = Some (-3)%Z
  ∧ ∃ cfg s,
      run_live_start plain_world negative_timers
      = Started cfg s [StatsLoop; Listen; DurationTimer]
      ∧ duration cfg = Some (-5)%Z
      ∧ inactivity cfg = Some (-3)%Z
      ∧ log s = [SessionStart "manual" 7].
Proof.
  split; [reflexivity|]. split; [reflexivity|].
  eexists _, _. split; [reflexivity|]. repeat split.
Qed.

(** An interval of zero without the on-snapshot trigger is not looked at
    by the interval check, which sits behind the test that one of the two
    triggers is on: start-up goes through and no capture loop is
    started. *)
Example zero_interval_accepted :
  ∃ cfg s,
    run_live_start plain_world zero_interval = Started cfg s [StatsLoop; Listen]
    ∧ screenshot_interval cfg = Some 0%Z.
Proof. eexists _, _. split; reflexivity. Qed.

(** ** Worked examples *)

(** Three messages at 0, 30 and 59.5; the query at 60.2 evicts the first
    and finds one message in the last second. *)
Example eviction_example :
  let s := record_message (119 # 2) "C"
             (record_message 30 "B" (record_message 0 "A" demo_start)) in
  let r := stats_query (301 # 5) s in
  events r.1 = [(30%Q, "B"); ((119 # 2)%Q, "C")]
  ∧ per_min r.2 = 2 ∧ per_sec r.2 = 1
  ∧ uniq_min r.2 = 2 ∧ uniq_sec r.2 = 1
  ∧ msg_total r.2 = 3 ∧ uniq_total r.2 = 3
  ∧ top_display r.2 = "A(1), B(1), C(1)".
Proof. vm_compute. repeat split. Qed.

(** An empty window: all counts are zero and the top actors read "n/a". *)
Example empty_window_example :
  let r := stats_query 5 demo_start in
  per_min r.2 = 0 ∧ per_sec r.2 = 0 ∧ uniq_min r.2 = 0 ∧ uniq_sec r.2 = 0
  ∧ top_users r.2 = [] ∧ top_display r.2 = "n/a".
Proof. vm_compute. repeat split. Qed.

(** Ties keep first-seen order even when a later actor catches up. *)
Example tie_order_example :
  let s := record_message 3 "B"
             (record_message 2 "A"
                (record_message 1 "B"
                   (record_message 0 "C" demo_start))) in
  top_users (stats_query 3 s).2 = [("B", 2); ("C", 1); ("A", 1)].
Proof. vm_compute. repeat split. Qed.

(** Three captures with room for two, all labelled alike: the deque holds
    the same path twice and the one file it names has been deleted. *)
Example same_label_example :
  let r := capture_calls shots_cfg [smooth "t1"; smooth "t1"; smooth "t1"]
             shots_start in
  screenshot_paths r.1 = ["shots/demo-t1.jpg"; "shots/demo-t1.jpg"]
  ∧ files r.1 = ∅.
Proof. vm_compute. repeat split. Qed.

(** * Further properties of the run *)

(** ** What a capture call leaves alone *)

Lemma same_run_data_refl (s : session) : same_run_data s s.
Proof. by repeat split. Qed.

Lemma same_run_data_trans (s1 s2 s3 : session) :
  same_run_data s1 s2 → same_run_data s2 s3 → same_run_data s1 s3.
Proof.
  intros (A1 & A2 & A3 & A4 & A5 & A6 & A7 & A8)
         (B1 & B2 & B3 & B4 & B5 & B6 & B7 & B8).
  repeat split; congruence.
Qed.

Lemma store_capture_same_data (cfg : config) (w : capture_world)
    (path : string) (s : session) :
  same_run_data s (store_capture cfg w path s).1.1.
Proof.
  unfold store_capture.
  destruct (int_truthy (screenshot_max cfg)); [|by repeat split].
  destruct (trim_ok_paths w (default 0%Z (screenshot_max cfg))
              (screenshot_paths s ++ [path]) (files s ∪ {[path]}))
    as (p & f & e & o & ->).
  by repeat split.
Qed.

Lemma capture_once_same_data (cfg : config) (w : capture_world) (s : session) :
  same_run_data s (capture_once cfg w s).1.1.
Proof.
  unfold capture_once.
  destruct (screenshot_dir cfg) as [dir|]; [|by repeat split].
  destruct (negb (opt_str_truthy (stream_url cfg))); [by repeat split|].
  destruct (spawn (primary w)); try (by repeat split).
  destruct (negb (completes_within 15 (primary w))); [by repeat split|].
  destruct (negb (returncode (primary w) =? 0)%Z); [by repeat split|].
  pose proof (store_capture_same_data cfg w (output_path cfg w dir) s) as Hk.
  destruct (store_capture cfg w (output_path cfg w dir) s) as [[s1 unl] ok].
  simpl in Hk.
  destruct (negb ok); [done|].
  destruct (negb (screenshot_embed cfg)); [done|].
  destruct (spawn (thumb w)); try done.
  destruct (negb (completes_within 10 (thumb w))); [done|].
  destruct ((returncode (thumb w) =? 0)%Z && negb (String.eqb (stdout (thumb w)) ""));
    done.
Qed.

(** ** The steps of a run, seen from the log *)

(** The snapshot a tick at [now] writes in state [s]. *)
Lemma stats_tick_cases (cfg : config) (now now' : Q) (s : session) (sc : sched) :
  let r := (stats_tick cfg now now' s sc).1.1 in
  let s1 := (stats_query now s).1 in
  let sn := snapshot cfg (stats_query now s).2 s1 in
  (stop_event s = true ∧ r = s)
  ∨ (stop_event s = false
     ∧ (r = jsonl_write (Snapshot sn) s1
        ∨ r = set_stop (jsonl_write (Snapshot sn) s1)
        ∨ ∃ line, r = set_stop (print line (jsonl_write (Snapshot sn) s1)))).
Proof.
  unfold stats_tick. destruct (stop_event s); [by left|]. right.
  split; [done|]. simpl.
  destruct (int_truthy (inactivity cfg) && _); [right; right; eauto|].
  destruct (int_truthy (duration cfg) && _); [right; by left|by left].
Qed.

Lemma evict_names_suffix (now : Q) (evs : list event) :
  (evict now evs).*2 `suffix_of` evs.*2.
Proof.
  destruct (evict_suffix now evs) as [k Hk].
  exists (k.*2). rewrite Hk at 1. by rewrite fmap_app.
Qed.

Lemma occurrences_snoc (u v : string) (names : list string) :
  occurrences u (names ++ [v])
  = occurrences u names + (if String.eqb u v then 1 else 0).
Proof.
  unfold occurrences. rewrite List.filter_app, length_app. simpl.
  by destruct (String.eqb u v).
Qed.

Lemma snapshot_of_query_ordered (cfg : config) (now : Q) (s : session) :
  window_bounded s →
  snapshot_ordered (snapshot cfg (stats_query now s).2 (stats_query now s).1).
Proof.
  intros [Hl Hu]. unfold snapshot_ordered. simpl. rewrite sum_ones_length.
  pose proof (evict_length now (events s)) as He.
  split; [apply filter_length_le|].
  split; [lia|].
  split.
  { etrans; [apply size_list_to_set_le|]. by rewrite length_fmap. }
  split; [|done].
  etrans; [apply size_list_to_set_le|]. by rewrite length_fmap.
Qed.

Lemma log_matches_record (cfg : config) (now : Q) (u : string) (c : json)
    (s : session) :
  log_matches s →
  log_matches (jsonl_write (Message (channel_label cfg) u c)
                 (record_message now u s)).
Proof.
  intros (Hlen & Hsuf & Hcnt & Huniq). unfold log_matches. simpl.
  unfold logged_usernames in *. rewrite omap_app. simpl.
  split; [rewrite length_app; simpl; lia|].
  split; [rewrite fmap_app; by apply suffix_app|].
  split.
  - intros v. rewrite occurrences_snoc.
    destruct (String.eqb_spec v u) as [->|Hne].
    + rewrite dict_get_set_same, Hcnt. done.
    + rewrite dict_get_set_other by done. rewrite Hcnt. lia.
  - rewrite Huniq, list_to_set_app_L, list_to_set_cons, list_to_set_nil.
    by rewrite (right_id_L ∅ (∪)).
Qed.

Lemma log_matches_tick (cfg : config) (now now' : Q) (s : session) (sc : sched) :
  log_matches s → log_matches (stats_tick cfg now now' s sc).1.1.
Proof.
  intros (Hlen & Hsuf & Hcnt & Huniq).
  assert (log_matches
            (jsonl_write
               (Snapshot (snapshot cfg (stats_query now s).2 (stats_query now s).1))
               (stats_query now s).1)) as Hw.
  { unfold log_matches. simpl. unfold logged_usernames in *.
    rewrite omap_app. simpl. rewrite app_nil_r.
    split; [done|]. split; [|done].
    etrans; [apply evict_names_suffix | done]. }
  destruct (stats_tick_cases cfg now now' s sc)
    as [[_ ->]|[_ [->|[->|[line ->]]]]]; done.
Qed.

Lemma log_matches_same_data (s s' : session) :
  same_run_data s s' → log_matches s → log_matches s'.
Proof.
  intros (He & Hu & Hc & Ht & _ & _ & _ & Hl). unfold log_matches.
  by rewrite He, Hu, Hc, Ht, Hl.
Qed.

(** What one step of the run does to the shared state. *)
Lemma step_kinds (json_loads : string → option json) (cfg : config)
    (x y : system) :
  step json_loads cfg x y →
  same_run_data (sess x) (sess y)
  ∨ (∃ count, stop_event (sess x) = false
              ∧ sess y = set_viewers count (sess x))
  ∨ (∃ now now' evs,
       (evs = events (sess x) ∨ evs = [])
       ∧ sess y = (stats_tick cfg now now' (set_events evs (sess x)) (sch x)).1.1)
  ∨ (∃ now, stop_event (sess x) = false
            ∧ sess y = set_events (evict now (events (sess x))) (sess x))
  ∨ (∃ now username content,
       username ≠ "" ∧ listener x = Receiving
       ∧ sess y = jsonl_write (Message (channel_label cfg) username content)
                    (record_message now username (sess x)))
  ∨ (sess y = count_message (sess x) ∧ listener x = Receiving
     ∧ ∃ now r ev, listen_step json_loads cfg now r (sess x)
                   = Interrupted (count_message (sess x)) ev).
Proof.
  intros Hstep. step_cases Hstep; simpl.
  - right. right. left. exists now, now', (events (sess x')).
    split; [by left|].
    replace (set_events (events (sess x')) (sess x')) with (sess x')
      by (by destruct (sess x')).
    by rewrite Ht.
  - do 3 right. left. eauto.
  - right. right. left. exists now, now', []. split; [by right|].
    by rewrite Ht.
  - left. apply same_run_data_refl.
  - destruct (after_frame_cases _ _ _ _ _ _ Hf)
      as (_ & _ & _ & _ & [[-> _]|[(u & c & Hu & -> & _)|(ev & -> & _ & Hi)]]).
    + left. apply same_run_data_refl.
    + do 4 right. left. exists now, u, c. done.
    + do 5 right. split; [done|]. split; [done|]. eauto.
  - right. left. eauto.
  - left. apply capture_once_same_data.
  - left. apply same_run_data_refl.
  - left. apply capture_once_same_data.
  - left. apply same_run_data_refl.
  - left. by repeat split.
Qed.

Lemma log_matches_set_events (evs : list event) (s : session) :
  evs `suffix_of` events s → log_matches s → log_matches (set_events evs s).
Proof.
  intros [k Hk] (Hlen & Hsuf & Hcnt & Huniq). unfold log_matches. simpl.
  split; [done|]. split; [|done].
  etrans; [|exact Hsuf]. exists (k.*2). by rewrite Hk, fmap_app.
Qed.

(** When every username is text, the log and the counters tell the same
    story. *)
Lemma reachable_log_matches (json_loads : string → option json) (cfg : config)
    (v : option Z) (t0 : Q) (fs : gset string) (sys : system) :
  text_usernames json_loads →
  reachable json_loads cfg v t0 fs sys → log_matches (sess sys).
Proof.
  intros Htext. unfold reachable. revert sys.
  apply (rtc_ind_r (λ sys, log_matches (sess sys))).
  - unfold log_matches. simpl. split; [done|]. split; [done|].
    split; [done|]. done.
  - intros y z _ Hstep IH.
    destruct (step_kinds _ _ _ _ Hstep)
      as [Hd|[(count & _ & ->)|[(now & now' & evs & Hevs & ->)
         |[(now & _ & ->)|[(now & u & c & _ & _ & ->)
         |(_ & _ & now & r & ev & Hi)]]]]].
    + by eapply log_matches_same_data.
    + done.
    + apply log_matches_tick. apply log_matches_set_events; [|done].
      destruct Hevs as [-> | ->]; [done|apply suffix_nil].
    + apply log_matches_set_events; [apply evict_suffix|done].
    + by apply log_matches_record.
    + by apply listen_step_text in Hi.
Qed.

Lemma demo_loads_text : text_usernames demo_loads.
Proof.
  intros text data v Hl Hu. unfold demo_loads in Hl.
  repeat case_match; simplify_eq; vm_compute in Hu; simplify_eq; eauto.
Qed.



(** ** The shape of the log *)

Lemma session_starts_snoc (l : list log_record) (r : log_record) :
  session_starts (l ++ [r])
  = session_starts l
    ++ match r with SessionStart _ _ => [r] | _ => [] end.
Proof.
  unfold session_starts. rewrite List.filter_app. simpl. by destruct r.
Qed.

Lemma log_well_formed_message (cfg : config) (u : string) (c : json)
    (now : Q) (s : session) :
  log_well_formed cfg s →
  log_well_formed cfg
    (jsonl_write (Message (channel_label cfg) u c) (record_message now u s)).
Proof.
  intros (Hh & Hs & Ho & Hc). unfold log_well_formed. simpl.
  rewrite head_app, Hh, session_starts_snoc, Hs.
  unfold logged_snapshots in *. rewrite omap_app. simpl. rewrite app_nil_r.
  done.
Qed.

Lemma log_well_formed_snapshot (cfg : config) (sn : snapshot_record)
    (s : session) :
  snapshot_ordered sn → snap_channel sn = channel_label cfg →
  log_well_formed cfg s → log_well_formed cfg (jsonl_write (Snapshot sn) s).
Proof.
  intros Hsn Hch (Hh & Hs & Ho & Hc). unfold log_well_formed. simpl.
  rewrite head_app, Hh, session_starts_snoc, Hs.
  unfold logged_snapshots in *. rewrite omap_app. simpl.
  split; [done|]. split; [done|].
  split; apply Forall_app; split; try done; by constructor.
Qed.

Lemma log_well_formed_tick (cfg : config) (now now' : Q) (s : session)
    (sc : sched) :
  window_bounded s → log_well_formed cfg s →
  log_well_formed cfg (stats_tick cfg now now' s sc).1.1.
Proof.
  intros Hw Hlog.
  assert (log_well_formed cfg
            (jsonl_write
               (Snapshot (snapshot cfg (stats_query now s).2 (stats_query now s).1))
               (stats_query now s).1)) as Hwf.
  { apply log_well_formed_snapshot; [by apply snapshot_of_query_ordered|done|].
    exact Hlog. }
  destruct (stats_tick_cases cfg now now' s sc)
    as [[_ ->]|[_ [->|[->|[line ->]]]]]; done.
Qed.

Lemma log_well_formed_same_data (cfg : config) (s s' : session) :
  same_run_data s s' → log_well_formed cfg s → log_well_formed cfg s'.
Proof.
  intros (_ & _ & _ & _ & _ & _ & _ & Hl). unfold log_well_formed.
  by rewrite Hl.
Qed.

Lemma log_well_formed_same_log (cfg : config) (s s' : session) :
  log s' = log s → log_well_formed cfg s → log_well_formed cfg s'.
Proof. intros Hl. unfold log_well_formed. by rewrite Hl. Qed.

Lemma window_bounded_set_events (evs : list event) (s : session) :
  evs `suffix_of` events s → window_bounded s → window_bounded (set_events evs s).
Proof.
  intros Hsuf [Hl Hu]. split; [|done]. simpl.
  apply suffix_length in Hsuf. lia.
Qed.

Lemma reachable_log_well_formed (json_loads : string → option json)
    (cfg : config) (v : option Z) (t0 : Q) (fs : gset string) (sys : system) :
  reachable json_loads cfg v t0 fs sys → log_well_formed cfg (sess sys).
Proof.
  unfold reachable. revert sys.
  apply (rtc_ind_r (λ sys, log_well_formed cfg (sess sys))).
  - unfold log_well_formed. simpl. repeat split; constructor.
  - intros y z Hy Hstep IH.
    pose proof (reachable_window_bounded json_loads cfg v t0 fs y Hy) as Hw.
    destruct (step_kinds _ _ _ _ Hstep)
      as [Hd|[(count & _ & ->)|[(now & now' & evs & Hevs & ->)
         |[(now & _ & ->)|[(now & u & c & _ & _ & ->)|(-> & _)]]]]].
    + by eapply log_well_formed_same_data.
    + done.
    + assert (evs `suffix_of` events (sess y)) as Hsuf.
      { destruct Hevs as [-> | ->]; [done|apply suffix_nil]. }
      apply log_well_formed_tick.
      * by apply window_bounded_set_events.
      * by eapply log_well_formed_same_log.
    + done.
    + by apply log_well_formed_message.
    + done.
Qed.

Lemma log_length_by_kind (l : list log_record) :
  length l
  = length (session_starts l) + length (logged_usernames l)
    + length (logged_snapshots l).
Proof.
  unfold session_starts, logged_usernames, logged_snapshots.
  induction l as [|r l IH]; [done|].
  destruct r; csimpl; rewrite IH; lia.
Qed.

(** Every message record in the log was counted, whatever the frames
    carry. *)
Lemma reachable_logged_counted (json_loads : string → option json)
    (cfg : config) (v : option Z) (t0 : Q) (fs : gset string) (sys : system) :
  reachable json_loads cfg v t0 fs sys →
  length (logged_usernames (log (sess sys))) ≤ total_messages (sess sys).
Proof.
  unfold reachable. revert sys.
  apply (rtc_ind_r
           (λ sys, length (logged_usernames (log (sess sys)))
                   ≤ total_messages (sess sys))).
  - simpl. lia.
  - intros y z _ Hstep IH.
    destruct (step_kinds _ _ _ _ Hstep)
      as [Hd|[(count & _ & ->)|[(now & now' & evs & Hevs & ->)
         |[(now & _ & ->)|[(now & u & c & _ & _ & ->)|(-> & _)]]]]].
    + destruct Hd as (_ & _ & _ & -> & _ & _ & _ & ->). done.
    + done.
    + destruct (stats_tick_cases cfg now now' (set_events evs (sess y)) (sch y))
        as [[_ ->]|[_ [->|[->|[line ->]]]]]; simpl;
        unfold logged_usernames in *; rewrite ?omap_app; simpl;
        rewrite ?app_nil_r; done.
    + done.
    + simpl. unfold logged_usernames in *. rewrite omap_app, length_app.
      simpl. lia.
    + simpl. lia.
Qed.

(** X2. In every state a run can reach, the log begins with the
    [session_start] record of the run and holds no other; every snapshot
    record in it carries the run's channel label and ordered counts:
    messages per second <= messages per minute <= total, unique per second
    <= messages per second, unique per minute <= messages per minute,
    unique total <= total; the log holds one record for the start, the
    message records and the snapshot records, nothing else; and it holds
    no more message records than messages were counted. *)
Theorem log_shape (json_loads : string → option json)
    (cfg : config) (v : option Z) (t0 : Q) (fs : gset string) (sys : system)
    (Hreach : reachable json_loads cfg v t0 fs sys) :
  head (log (sess sys))
  = Some (SessionStart (channel_label cfg) (chatroom_id cfg))
  ∧ session_starts (log (sess sys))
    = [SessionStart (channel_label cfg) (chatroom_id cfg)]
  ∧ Forall snapshot_ordered (logged_snapshots (log (sess sys)))
  ∧ Forall (λ sn, snap_channel sn = channel_label cfg)
      (logged_snapshots (log (sess sys)))
  ∧ length (log (sess sys))
    = 1 + length (logged_usernames (log (sess sys)))
      + length (logged_snapshots (log (sess sys)))
  ∧ length (logged_usernames (log (sess sys))) ≤ total_messages (sess sys).
Proof.
  destruct (reachable_log_well_formed _ _ _ _ _ _ Hreach)
    as (Hhead & Hstarts & Hord & Hch).
  split; [exact Hhead|]. split; [exact Hstarts|].
  split; [exact Hord|]. split; [exact Hch|].
  split; [|by eapply reachable_logged_counted].
  rewrite (log_length_by_kind (log (sess sys))), Hstarts. done.
Qed.

Lemma log_shape_witness :
  reachable demo_loads shots_cfg None 0 ∅ shots_ticked
  ∧ length (logged_snapshots (log (sess shots_ticked))) = 1
  ∧ Forall snapshot_ordered (logged_snapshots (log (sess shots_ticked))).
Proof.
  split; [exact shots_ticked_reachable|]. split; [reflexivity|].
  exact (proj1 (proj2 (proj2 (log_shape demo_loads shots_cfg None 0 ∅
                                shots_ticked shots_ticked_reachable)))).
Defined.

(** ** The stop signal *)

Lemma capture_once_stop_cases (cfg : config) (w : capture_world) (s : session) :
  let r := (capture_once cfg w s).1.1 in
  stop_event r = stop_event s
  ∨ (stop_event r = true
     ∧ (spawn (primary w) = SpawnNotFound
        ∨ (primary_succeeds w ∧ spawn (thumb w) = SpawnNotFound))).
Proof.
  unfold capture_once.
  destruct (screenshot_dir cfg) as [dir|]; [|by left].
  destruct (negb (opt_str_truthy (stream_url cfg))); [by left|].
  destruct (spawn (primary w)) eqn:Esp; [right; split; [done|by left] |by left|].
  destruct (completes_within 15 (primary w)) eqn:Edone; [|by left].
  cbn [negb].
  destruct (Z.eqb_spec (returncode (primary w)) 0) as [Hrc|Hrc]; [|by left].
  cbn [negb].
  pose proof (store_capture_stop cfg w (output_path cfg w dir) s) as Hst.
  destruct (store_capture cfg w (output_path cfg w dir) s) as [[s1 unl] ok].
  simpl in Hst.
  destruct (negb ok); [by left|].
  destruct (negb (screenshot_embed cfg)); [by left|].
  destruct (spawn (thumb w)) eqn:Eth.
  - right. split; [done|]. right. by repeat split.
  - by left.
  - destruct (negb (completes_within 10 (thumb w))); [by left|].
    destruct ((returncode (thumb w) =? 0)%Z
              && negb (String.eqb (stdout (thumb w)) "")); by left.
Qed.

Lemma capture_once_keeps_stop (cfg : config) (w : capture_world) (s : session) :
  stop_event s = true → stop_event (capture_once cfg w s).1.1 = true.
Proof.
  intros Hs. destruct (capture_once_stop_cases cfg w s) as [H|[H _]];
    [by rewrite H|done].
Qed.

Lemma logged_snapshots_message (l : list log_record) (ch u : string)
    (c : json) :
  logged_snapshots (l ++ [Message ch u c]) = logged_snapshots l.
Proof.
  unfold logged_snapshots. rewrite omap_app. simpl. by rewrite app_nil_r.
Qed.

Lemma step_after_stop (json_loads : string → option json) (cfg : config)
    (x y : system) :
  step json_loads cfg x y → stop_event (sess x) = true →
  stop_event (sess y) = true
  ∧ logged_snapshots (log (sess y)) = logged_snapshots (log (sess x))
  ∧ current_viewers (sess y) = current_viewers (sess x)
  ∧ length (tasks (sch y)) = length (tasks (sch x))
  ∧ (interval_busy x = false → interval_busy y = false)
  ∧ total_messages (sess y) + awaited (listener y)
    ≤ total_messages (sess x) + awaited (listener x)
  ∧ length (log (sess y)) + awaited (listener y)
    ≤ length (log (sess x)) + awaited (listener x)
  ∧ (listener x ≠ Receiving →
     listener y ≠ Receiving ∧ same_run_data (sess x) (sess y)).
Proof.
  intros Hstep Hset. step_cases Hstep; simpl; try congruence.
  - unfold stats_tick in Ht. rewrite Hset in Ht.
    injection Ht as <- <- <-. repeat split; try done.
  - rewrite Hset, Hl. simpl. repeat split; try done; lia.
  - destruct (after_frame_cases _ _ _ _ _ _ Hf)
      as (-> & _ & -> & _
          & [[-> Hy]|[(u & c & _ & -> & ->)|(ev & -> & -> & _)]]);
      rewrite Hl; simpl.
    + repeat split; try done.
      * destruct Hy as [->|[e ->]]; simpl; lia.
      * destruct Hy as [->|[e ->]]; simpl; lia.
    + split; [done|]. split; [apply logged_snapshots_message|].
      repeat split; try done; try lia.
      rewrite length_app. simpl. lia.
    + repeat split; try done; lia.
  - pose proof (capture_once_same_data cfg w (sess x')) as Hd.
    pose proof Hd as (_ & _ & _ & Ht & Hv & _ & _ & Hlog).
    split; [by apply capture_once_keeps_stop|].
    rewrite Hlog, Ht, Hv, length_insert.
    do 7 (split; [done|]). done.
  - pose proof (capture_once_same_data cfg w (sess x')) as Hd.
    pose proof Hd as (_ & _ & _ & Ht & Hv & _ & _ & Hlog).
    split; [by apply capture_once_keeps_stop|].
    rewrite Hlog, Ht, Hv.
    do 7 (split; [done|]). done.
  - do 7 (split; [done|]). split; [done|]. apply same_run_data_refl.
  - do 7 (split; [done|]). split; [done|]. by repeat split.
Qed.

(** X3. Once the stop signal is set it stays set and the loops wind down:
    no snapshot is written any more, the viewer count stays as it is, no
    capture task is started and the interval loop starts no capture, while
    a capture already under way may still finish. The listener tests the
    signal only before it waits for a frame, so it still handles the one
    frame it was waiting for: at most one more message is counted and at
    most one more record is written; if it was not waiting, the window,
    the counters and the log stay as they are. *)
Theorem stop_is_final (json_loads : string → option json) (cfg : config)
    (x y : system)
    (Hrun : rtc (step json_loads cfg) x y)
    (Hstop : stop_event (sess x) = true) :
  stop_event (sess y) = true
  ∧ logged_snapshots (log (sess y)) = logged_snapshots (log (sess x))
  ∧ current_viewers (sess y) = current_viewers (sess x)
  ∧ length (tasks (sch y)) = length (tasks (sch x))
  ∧ (interval_busy x = false → interval_busy y = false)
  ∧ total_messages (sess y) ≤ total_messages (sess x) + awaited (listener x)
  ∧ length (log (sess y)) ≤ length (log (sess x)) + awaited (listener x)
  ∧ (listener x ≠ Receiving → same_run_data (sess x) (sess y)).
Proof.
  assert (stop_event (sess y) = true
          ∧ logged_snapshots (log (sess y)) = logged_snapshots (log (sess x))
          ∧ current_viewers (sess y) = current_viewers (sess x)
          ∧ length (tasks (sch y)) = length (tasks (sch x))
          ∧ (interval_busy x = false → interval_busy y = false)
          ∧ total_messages (sess y) + awaited (listener y)
            ≤ total_messages (sess x) + awaited (listener x)
          ∧ length (log (sess y)) + awaited (listener y)
            ≤ length (log (sess x)) + awaited (listener x)
          ∧ (listener x ≠ Receiving →
             listener y ≠ Receiving ∧ same_run_data (sess x) (sess y))) as H.
  { revert y Hrun.
    apply (rtc_ind_r
             (λ y, stop_event (sess y) = true
                   ∧ logged_snapshots (log (sess y))
                     = logged_snapshots (log (sess x))
                   ∧ current_viewers (sess y) = current_viewers (sess x)
                   ∧ length (tasks (sch y)) = length (tasks (sch x))
                   ∧ (interval_busy x = false → interval_busy y = false)
                   ∧ total_messages (sess y) + awaited (listener y)
                     ≤ total_messages (sess x) + awaited (listener x)
                   ∧ length (log (sess y)) + awaited (listener y)
                     ≤ length (log (sess x)) + awaited (listener x)
                   ∧ (listener x ≠ Receiving →
                      listener y ≠ Receiving
                      ∧ same_run_data (sess x) (sess y)))).
    - do 7 (split; [done|]). intros Hx. split; [done|].
      apply same_run_data_refl.
    - intros y z _ Hstep (Hs & Hsn & Hv & Ht & Hb & Htot & Hlog & Hd).
      destruct (step_after_stop _ _ _ _ Hstep Hs)
        as (Hs' & Hsn' & Hv' & Ht' & Hb' & Htot' & Hlog' & Hd').
      split; [done|]. split; [congruence|]. split; [congruence|].
      split; [congruence|]. split; [tauto|]. split; [lia|]. split; [lia|].
      intros Hx. destruct (Hd Hx) as [Hy Hxy].
      destruct (Hd' Hy) as [Hz Hyz].
      split; [done|]. by eapply same_run_data_trans. }
  destruct H as (Hs & Hsn & Hv & Ht & Hb & Htot & Hlog & Hd).
  split; [done|]. split; [done|]. split; [done|]. split; [done|].
  split; [done|]. split; [lia|]. split; [lia|].
  intros Hx. by destruct (Hd Hx).
Qed.

Lemma stop_is_final_witness :
  stop_event (sess demo_stopping) = true
  ∧ rtc (step demo_loads demo_cfg) demo_stopping demo_late
  ∧ total_messages (sess demo_late) = 1
  ∧ total_messages (sess demo_late)
    ≤ total_messages (sess demo_stopping) + awaited (listener demo_stopping).
Proof.
  assert (rtc (step demo_loads demo_cfg) demo_stopping demo_late) as Hrun.
  { eapply rtc_l; [|apply rtc_refl].
    by apply (step_listen_frame demo_loads demo_cfg 5 (RecvText "frame")). }
  split; [reflexivity|]. split; [exact Hrun|]. split; [reflexivity|].
  exact (proj1 (proj2 (proj2 (proj2 (proj2 (proj2
           (stop_is_final demo_loads demo_cfg _ _ Hrun eq_refl))))))).
Defined.

(** X4. A capture call sets the stop signal only when ffmpeg cannot be
    found: if the signal is set after the call and was not before, the
    primary process or, after a successful primary capture, the thumbnail
    process raised [FileNotFoundError]. A primary process that cannot be
    started for another reason, runs past its 15 units or exits with a
    non-zero code leaves the whole state as it was, and the call
    returns. *)
Theorem capture_stops_only_without_ffmpeg (cfg : config) (w : capture_world)
    (s : session) :
  (stop_event (capture_once cfg w s).1.1 = true →
   stop_event s = true
   ∨ spawn (primary w) = SpawnNotFound
   ∨ (primary_succeeds w ∧ spawn (thumb w) = SpawnNotFound))
  ∧ (primary_fails_softly w →
     (capture_once cfg w s).1.1 = s ∧ (capture_once cfg w s).2 = Returned).
Proof.
  split.
  - intros Hr. destruct (capture_once_stop_cases cfg w s) as [H|[_ H]].
    + left. congruence.
    + right. exact H.
  - intros Hsoft. unfold capture_once.
    destruct (screenshot_dir cfg) as [dir|]; [|done].
    destruct (negb (opt_str_truthy (stream_url cfg))); [done|].
    destruct Hsoft as [->|[-> [Hto|Hrc]]]; [done| |].
    + by rewrite Hto.
    + destruct (negb (completes_within 15 (primary w))); [done|].
      destruct (Z.eqb_spec (returncode (primary w)) 0); [done|done].
Qed.

Lemma capture_stops_only_without_ffmpeg_witness :
  primary_fails_softly (primary_hangs "t1")
  ∧ (capture_once shots_cfg (primary_hangs "t1") shots_start).1.1 = shots_start.
Proof.
  assert (primary_fails_softly (primary_hangs "t1")) as H.
  { right. split; [reflexivity|]. left. reflexivity. }
  split; [exact H|].
  exact (proj1 (proj2 (capture_stops_only_without_ffmpeg shots_cfg
                         (primary_hangs "t1") shots_start) H)).
Defined.

(** ** The embedded thumbnail *)

Lemma store_capture_ok (cfg : config) (w : capture_world) (path : string)
    (s : session) :
  (∀ m, screenshot_max cfg = Some m → (0 <= m)%Z) →
  (store_capture cfg w path s).2 = true.
Proof.
  intros Hmax. unfold store_capture.
  destruct (screenshot_max cfg) as [m|] eqn:Em; [|done].
  destruct (int_truthy (Some m)); [|done].
  cbn [default from_option id].
  specialize (Hmax m eq_refl).
  rewrite <- (Z2Nat.id m Hmax), trim_spec. done.
Qed.

Lemma store_capture_b64 (cfg : config) (w : capture_world) (path : string)
    (s : session) :
  latest_screenshot_b64 (store_capture cfg w path s).1.1
  = if screenshot_embed cfg then None else latest_screenshot_b64 s.
Proof.
  unfold store_capture.
  destruct (int_truthy (screenshot_max cfg)); [|done].
  destruct (trim_ok_paths w (default 0%Z (screenshot_max cfg))
              (screenshot_paths s ++ [path]) (files s ∪ {[path]}))
    as (p & f & e & o & ->).
  done.
Qed.

(** X5. With thumbnail embedding on, a capture whose primary process
    succeeds never leaves an older thumbnail in place: afterwards the
    stored thumbnail is the encoding of this capture's thumbnail output
    when the thumbnail process delivered (started, exited within 10 units
    with code zero and wrote something), and is cleared otherwise; the
    latest screenshot is this capture's path either way. With embedding
    off the stored thumbnail is not touched. *)
Theorem thumbnail_belongs_to_latest (cfg : config) (w : capture_world)
    (s : session) (dir : string)
    (Hdir : screenshot_dir cfg = Some dir)
    (Hurl : opt_str_truthy (stream_url cfg) = true)
    (Hmax : ∀ m, screenshot_max cfg = Some m → (0 <= m)%Z)
    (Hok : primary_succeeds w) :
  let r := (capture_once cfg w s).1.1 in
  latest_screenshot r = Some (output_path cfg w dir)
  ∧ latest_screenshot_b64 r
    = if screenshot_embed cfg
      then if thumb_delivers w
           then Some (b64encode w (stdout (thumb w))) else None
      else latest_screenshot_b64 s.
Proof.
  destruct Hok as (Hsp & Hdone & Hrc).
  unfold capture_once, thumb_delivers.
  rewrite Hdir, Hurl, Hsp, Hdone, Hrc. cbn [negb Z.eqb].
  pose proof (store_capture_ok cfg w (output_path cfg w dir) s Hmax) as Hk.
  pose proof (store_capture_b64 cfg w (output_path cfg w dir) s) as Hb.
  assert (latest_screenshot (store_capture cfg w (output_path cfg w dir) s).1.1
          = Some (output_path cfg w dir)) as Hl.
  { unfold store_capture. destruct (int_truthy (screenshot_max cfg)); [|done].
    destruct (trim_ok_paths w (default 0%Z (screenshot_max cfg))
                (screenshot_paths s ++ [output_path cfg w dir])
                (files s ∪ {[output_path cfg w dir]}))
      as (p & f & e & o & ->).
    done. }
  destruct (store_capture cfg w (output_path cfg w dir) s) as [[s1 unl] ok].
  simpl in Hk, Hb, Hl. subst ok. cbn [negb].
  destruct (screenshot_embed cfg); cbn [negb]; [|done].
  destruct (spawn (thumb w)); [done|done|].
  destruct (completes_within 10 (thumb w)); cbn [negb andb]; [|done].
  destruct ((returncode (thumb w) =? 0)%Z
            && negb (String.eqb (stdout (thumb w)) "")); done.
Qed.

Lemma thumbnail_belongs_to_latest_witness :
  latest_screenshot_b64
    (capture_once shots_cfg (thumb_hangs "t2")
       (capture_once shots_cfg (smooth "t1") shots_start).1.1).1.1
  = None
  ∧ latest_screenshot_b64 (capture_once shots_cfg (smooth "t1") shots_start).1.1
    = Some "b64:JPEGDATA".
Proof.
  split.
  - refine (proj2 (thumbnail_belongs_to_latest shots_cfg (thumb_hangs "t2")
                     (capture_once shots_cfg (smooth "t1") shots_start).1.1
                     "shots" eq_refl eq_refl _ _)).
    + intros m Hm. injection Hm as <-. lia.
    + repeat split.
  - refine (proj2 (thumbnail_belongs_to_latest shots_cfg (smooth "t1")
                     shots_start "shots" eq_refl eq_refl _ _)).
    + intros m Hm. injection Hm as <-. lia.
    + repeat split.
Defined.

(** ** What start-up hands to the run *)

Lemma configure_started (w : startup_world) (a : args) (ch : string)
    (id : Z) (vc : option Z) (lp : string) (cfg : config) (s : session)
    (ts : list task_name) :
  configure w a ch id vc lp = Started cfg s ts →
  channel cfg = ch ∧ chatroom_id cfg = id ∧ log_path cfg = lp
  ∧ duration cfg = arg_duration a ∧ inactivity cfg = arg_inactivity a
  ∧ s = initial cfg vc (clock0 w) (dir_contents w)
  ∧ ts = [StatsLoop; Listen]
         ++ (if negb (String.eqb (channel cfg) "") then [PollViewers] else [])
         ++ (if int_truthy (screenshot_interval cfg)
             then [CaptureScreenshots] else [])
         ++ (if int_truthy (duration cfg) then [DurationTimer] else [])
  ∧ format_allowed (screenshot_format cfg) = true
  ∧ screenshot_on_snapshot cfg && int_truthy (screenshot_interval cfg) = false
  ∧ given_nonpositive (screenshot_max cfg) = false
  ∧ given_nonpositive (screenshot_embed_width cfg) = false
  ∧ (if int_truthy (screenshot_interval cfg) || screenshot_on_snapshot cfg
     then given_nonpositive (screenshot_interval cfg) = false
          ∧ is_Some (screenshot_dir cfg)
          ∧ opt_str_truthy (stream_url cfg) = true
          ∧ is_Some (ffmpeg_path cfg)
     else screenshot_dir cfg = None ∧ stream_url cfg = None
          ∧ ffmpeg_path cfg = None).
Proof.
  unfold configure. cbv zeta.
  destruct (arg_screenshot_on_snapshot a && int_truthy (arg_screenshot_interval a))
    eqn:Eboth; [done|].
  destruct (format_allowed _) eqn:Efmt; cbn [negb]; [|done].
  destruct (given_nonpositive (arg_screenshot_max a)) eqn:Emax; [done|].
  destruct (given_nonpositive (arg_screenshot_embed_width a)) eqn:Ewidth; [done|].
  destruct (int_truthy (arg_screenshot_interval a) || arg_screenshot_on_snapshot a)
    eqn:Eon.
  - destruct (given_nonpositive (arg_screenshot_interval a)) eqn:Eint; [done|].
    destruct (if opt_str_truthy (arg_stream_url a) then _ else _)
      as [r|url] eqn:Eurl.
    { destruct (opt_str_truthy (arg_stream_url a)); [done|].
      destruct (String.eqb ch ""); [done|].
      destruct (resolved_stream_url w); [done|].
      injection Eurl as <-. done. }
    destruct (opt_str_truthy url) eqn:Et; cbn [negb]; [|done].
    destruct (resolve_ffmpeg_path w (arg_ffmpeg_path a)) as [ff|]; [|done].
    intros H. injection H as <- <- <-. simpl.
    rewrite Efmt, Eboth, Emax, Ewidth, Eon, Eint, Et.
    repeat split; try done.
    destruct (opt_str_truthy (arg_screenshot_dir a)) eqn:Ed; [|by eexists].
    destruct (arg_screenshot_dir a); [by eexists|done].
  - intros H. injection H as <- <- <-. simpl.
    rewrite Efmt, Eboth, Emax, Ewidth, Eon. done.
Qed.

(** X6. Whenever start-up goes through, the options the run works with are
    sound: the format is jpg or png; the two screenshot triggers are not
    both on; a given maximum and a given thumbnail width are positive; if
    a trigger is on, a given interval is positive and the screenshot
    directory, a non-empty stream URL and the ffmpeg path are all set,
    and if none is on they are all unset; the chatroom id is not zero. The
    first state is the initial one, with [session_start] as the only log
    record, and the tasks started are the snapshot loop and the listener,
    the viewer poll exactly when a channel name is known, the
    fixed-interval capture loop exactly when the interval is non-zero, and
    the duration timer exactly when the duration is non-zero. *)
Theorem started_run_is_sound (w : startup_world) (a : args) (cfg : config)
    (s : session) (ts : list task_name)
    (Hstart : run_live_start w a = Started cfg s ts) :
  format_allowed (screenshot_format cfg) = true
  ∧ screenshot_on_snapshot cfg && int_truthy (screenshot_interval cfg) = false
  ∧ given_nonpositive (screenshot_max cfg) = false
  ∧ given_nonpositive (screenshot_embed_width cfg) = false
  ∧ (if int_truthy (screenshot_interval cfg) || screenshot_on_snapshot cfg
     then given_nonpositive (screenshot_interval cfg) = false
          ∧ is_Some (screenshot_dir cfg)
          ∧ opt_str_truthy (stream_url cfg) = true
          ∧ is_Some (ffmpeg_path cfg)
     else screenshot_dir cfg = None ∧ stream_url cfg = None
          ∧ ffmpeg_path cfg = None)
  ∧ chatroom_id cfg ≠ 0%Z
  ∧ (∃ vc, s = initial cfg vc (clock0 w) (dir_contents w))
  ∧ log s = [SessionStart (channel_label cfg) (chatroom_id cfg)]
  ∧ ts = [StatsLoop; Listen]
         ++ (if negb (String.eqb (channel cfg) "") then [PollViewers] else [])
         ++ (if int_truthy (screenshot_interval cfg)
             then [CaptureScreenshots] else [])
         ++ (if int_truthy (duration cfg) then [DurationTimer] else []).
Proof.
  unfold run_live_start in Hstart.
  destruct (resolve_session w a) as [r|[[[ch id] vc] lp]] eqn:Er.
  { unfold resolve_session in Er.
    destruct (negb (websockets_installed w)); [by injection Er as <-|].
    destruct (negb (opt_str_truthy (arg_channel a))
              && negb (opt_str_truthy (arg_chatroom_id a)));
      [by injection Er as <-|].
    destruct (opt_str_truthy (arg_chatroom_id a)).
    - destruct (int_of_str w (default "" (arg_chatroom_id a))) as [n|];
        [|by injection Er as <-].
      destruct (negb (id_truthy (Some n))); [by injection Er as <-|done].
    - destruct (resolved_chatroom w) as [[i v]|]; [|by injection Er as <-].
      destruct (negb (id_truthy i)); [by injection Er as <-|done]. }
  assert (id ≠ 0%Z) as Hid.
  { unfold resolve_session in Er.
    destruct (negb (websockets_installed w)); [done|].
    destruct (negb (opt_str_truthy (arg_channel a))
              && negb (opt_str_truthy (arg_chatroom_id a))); [done|].
    assert (∀ (i : option Z) (v : option Z),
              (if negb (id_truthy i)
               then inl (Exit1 "Chatroom id not found")
               else inr (lower (default "" (arg_channel a)), default 0%Z i, v,
                         if opt_str_truthy (arg_log a)
                         then default "" (arg_log a)
                         else "kick-session-"
                              +:+ str_or (lower (default "" (arg_channel a)))
                                    ("chatroom-" +:+ str_int (default 0%Z i))
                              +:+ "-" +:+ stamp w +:+ ".jsonl")
               : startup_result + (string * Z * option Z * string))
              = inr (ch, id, vc, lp) → id ≠ 0%Z) as Haux.
    { intros i v. destruct i as [z|]; simpl; [|done].
      destruct (Z.eqb_spec z 0); simpl; [done|].
      intros H. injection H as _ <- _ _. done. }
    destruct (opt_str_truthy (arg_chatroom_id a)).
    - destruct (int_of_str w (default "" (arg_chatroom_id a))) as [n|]; [|done].
      by apply (Haux (Some n) None).
    - destruct (resolved_chatroom w) as [[i v]|]; [|done].
      by apply (Haux i v). }
  apply configure_started in Hstart
    as (Hc & Hi & Hl & Hd & Hin & Hs & Hts & Hf & Hb & Hm & Hw & Hon).
  split; [done|]. split; [done|]. split; [done|]. split; [done|].
  split; [done|]. split; [congruence|]. split; [eauto|].
  split; [by rewrite Hs|done].
Qed.

Lemma started_run_is_sound_witness :
  ∃ cfg s ts,
    run_live_start plain_world plain_args = Started cfg s ts
    ∧ format_allowed (screenshot_format cfg) = true
    ∧ ts = [StatsLoop; Listen].
Proof.
  eexists _, _, _. split; [reflexivity|].
  split.
  - exact (proj1 (started_run_is_sound plain_world plain_args _ _ _ eq_refl)).
  - reflexivity.
Defined.

(** ** The status line *)

Example format_number_examples :
  format_number (Some 1234567%Z) = "1,234,567"
  ∧ format_number (Some 999%Z) = "999"
  ∧ format_number (Some 1000%Z) = "1,000"
  ∧ format_number (Some 0%Z) = "0"
  ∧ format_number (Some (-12345)%Z) = "-12,345"
  ∧ format_number None = "n/a".
Proof. repeat split. Qed.

Example pad_examples :
  pad "abc" 6 = "abc   " ∧ pad "abcdefgh" 6 = "abcdef" ∧ pad "abc" 3 = "abc"
  ∧ pad "abc" 0 = "" ∧ pad "abcdef" (-2) = "abcd" ∧ pad "ab" (-5) = "".
Proof. repeat split. Qed.

Lemma str_length_app (a b : string) :
  String.length (a +:+ b) = String.length a + String.length b.
Proof. induction a as [|c a IH]; simpl; [done|]. by rewrite IH. Qed.

Lemma spaces_length (n : nat) : String.length (spaces n) = n.
Proof. induction n as [|n IH]; simpl; [done|]. by rewrite IH. Qed.

Lemma str_take_length (n : nat) (text : string) :
  String.length (str_take n text) = n `min` String.length text.
Proof.
  revert text. induction n as [|n IH]; intros [|c rest]; simpl; try done.
  by rewrite IH.
Qed.

Lemma str_take_app (n : nat) (a b : string) :
  n ≤ String.length a → str_take n (a +:+ b) = str_take n a.
Proof.
  revert a. induction n as [|n IH]; intros [|c a] Hn; simpl in *; try done.
  - lia.
  - rewrite IH; [done|lia].
Qed.

Lemma str_take_take (n m : nat) (text : string) :
  str_take n (str_take m text) = str_take (n `min` m) text.
Proof.
  revert m text. induction n as [|n IH]; intros [|m] [|c rest]; simpl; try done.
  by rewrite IH.
Qed.

Lemma str_take_all (n : nat) (text : string) :
  String.length text ≤ n → str_take n text = text.
Proof.
  revert text. induction n as [|n IH]; intros [|c rest] Hn; simpl in *; try done.
  - lia.
  - rewrite IH; [done|lia].
Qed.

Lemma pad_length (text : string) (width : Z) :
  (0 <= width)%Z → String.length (pad text width) = Z.to_nat width.
Proof.
  intros Hw. unfold pad, slice_to.
  destruct (Z.leb_spec width (Z.of_nat (String.length text))) as [Hle|Hgt].
  - destruct (Z.leb_spec 0 width); [|lia].
    rewrite str_take_length. lia.
  - rewrite str_length_app, spaces_length. lia.
Qed.

Lemma str_app_empty (a : string) : a +:+ "" = a.
Proof.
  induction a as [|c a IH]; [done|].
  change (String c (a +:+ "") = String c a). by rewrite IH.
Qed.

(** X7. For a non-negative width, [pad] returns a text of exactly that
    width: it agrees with the original text on the part both cover (a
    longer text is cut, a shorter one is followed by spaces only), and
    padding again changes nothing. *)
Theorem pad_fits_width (text : string) (width : Z) (Hw : (0 <= width)%Z) :
  String.length (pad text width) = Z.to_nat width
  ∧ str_take (String.length text) (pad text width)
    = str_take (Z.to_nat width) text
  ∧ (∃ k, pad text width = str_take (Z.to_nat width) text +:+ spaces k)
  ∧ pad (pad text width) width = pad text width.
Proof.
  split; [by apply pad_length|].
  split; [|split].
  - unfold pad, slice_to.
    destruct (Z.leb_spec width (Z.of_nat (String.length text))) as [Hle|Hgt].
    + destruct (Z.leb_spec 0 width); [|lia].
      rewrite str_take_take. f_equal. lia.
    + rewrite str_take_app by done.
      rewrite !str_take_all; [done|lia|done].
  - unfold pad, slice_to.
    destruct (Z.leb_spec width (Z.of_nat (String.length text))) as [Hle|Hgt].
    + destruct (Z.leb_spec 0 width); [|lia].
      exists 0. by rewrite str_app_empty.
    + eexists. rewrite str_take_all by lia. done.
  - pose proof (pad_length text width Hw) as Hlen.
    unfold pad at 1. unfold slice_to.
    destruct (Z.leb_spec width (Z.of_nat (String.length (pad text width))));
      [|lia].
    destruct (Z.leb_spec 0 width); [|lia].
    apply str_take_all. lia.
Qed.

Lemma pad_fits_width_witness :
  (0 <= 6)%Z ∧ String.length (pad "a-very-long-name" 6) = 6.
Proof.
  assert (0 <= 6)%Z as H by lia.
  split; [exact H|].
  exact (proj1 (pad_fits_width "a-very-long-name" 6 H)).
Defined.

Lemma color_length (text code : string) (enabled : bool) :
  String.length (color text code enabled)
  = String.length text
    + (if enabled then String.length code + 7 else 0).
Proof.
  unfold color. destruct enabled; [|lia].
  rewrite !str_length_app. simpl. lia.
Qed.

(** X8. The status line has the same length at every tick, whatever the
    statistics, the viewer count and the names of the top actors: 156
    characters without colour and 300 with colour. So the line written
    after the carriage return always covers the previous one. *)
Theorem status_line_fixed_width (use_color : bool) (st : stats) :
  String.length (status_line use_color st) = (if use_color then 300 else 156)
  ∧ String.length (status_output use_color st)
    = (if use_color then 305 else 161).
Proof.
  assert (String.length (status_line use_color st)
          = if use_color then 300 else 156) as H.
  { unfold status_line. cbv zeta.
    rewrite !str_length_app, !color_length, !pad_length by lia.
    destruct use_color; reflexivity. }
  split; [done|].
  unfold status_output. rewrite !str_length_app, H, spaces_length.
  destruct use_color; reflexivity.
Qed.

(** ** Escaping for the message export *)

Lemma str_app_cons (c : Ascii.ascii) (a b : string) :
  String c a +:+ b = String c (a +:+ b).
Proof. reflexivity. Qed.

Lemma str_app_assoc (a b c : string) : (a +:+ b) +:+ c = a +:+ (b +:+ c).
Proof.
  induction a as [|x a IH]; [done|].
  rewrite !str_app_cons. by rewrite IH.
Qed.

Lemma read_quoted_escaped (v rest : string) :
  field_end rest →
  read_quoted (double_quotes v +:+ String dquote rest) = Some (v, rest).
Proof.
  intros Hend. induction v as [|c v IH].
  - change (double_quotes "" +:+ String dquote rest) with (String dquote rest).
    cbn [read_quoted]. rewrite Ascii.eqb_refl.
    destruct Hend as [->|[r ->]]; [done|].
    by change (Ascii.eqb comma dquote) with false.
  - cbn [double_quotes].
    destruct (Ascii.eqb c dquote) eqn:E.
    + apply Ascii.eqb_eq in E as ->.
      rewrite !str_app_cons. cbn [read_quoted].
      rewrite Ascii.eqb_refl. by rewrite IH.
    + rewrite str_app_cons. cbn [read_quoted]. rewrite E. by rewrite IH.
Qed.

Lemma read_plain_unescaped (v rest : string) :
  str_contains comma v = false → field_end rest →
  read_plain (v +:+ rest) = (v, rest).
Proof.
  intros Hv Hend. induction v as [|c v IH].
  - change ("" +:+ rest) with rest.
    destruct Hend as [->|[r ->]]; [done|].
    cbn [read_plain]. by rewrite Ascii.eqb_refl.
  - cbn [str_contains] in Hv. apply orb_false_iff in Hv as [Hc Hv].
    rewrite str_app_cons. cbn [read_plain]. rewrite Hc, (IH Hv). done.
Qed.

Lemma read_field_escaped (v rest : string) :
  field_end rest →
  read_field (csv_escape_text v +:+ rest) = Some (v, rest).
Proof.
  intros Hend. unfold csv_escape_text.
  destruct (str_contains dquote v) eqn:Eq; cbn [orb].
  { rewrite str_app_cons, str_app_assoc. cbn [read_field].
    rewrite Ascii.eqb_refl. by apply read_quoted_escaped. }
  destruct (str_contains comma v) eqn:Ec; cbn [orb].
  { rewrite str_app_cons, str_app_assoc. cbn [read_field].
    rewrite Ascii.eqb_refl. by apply read_quoted_escaped. }
  destruct (str_contains linefeed v) eqn:El.
  { rewrite str_app_cons, str_app_assoc. cbn [read_field].
    rewrite Ascii.eqb_refl. by apply read_quoted_escaped. }
  destruct v as [|c v].
  - change ("" +:+ rest) with rest.
    destruct Hend as [->|[r ->]]; [done|].
    cbn [read_field]. change (Ascii.eqb comma dquote) with false.
    cbn [read_plain]. by rewrite Ascii.eqb_refl.
  - rewrite str_app_cons. cbn [read_field].
    cbn [str_contains] in Eq. apply orb_false_iff in Eq as [Eq _].
    rewrite Eq. rewrite <- str_app_cons.
    by rewrite read_plain_unescaped.
Qed.

(** Reading the four fields of a message line back. *)
Lemma message_line_read (ts ch user msg : string) :
  ∃ l2 l3 l4,
    read_field (message_line ts ch user msg) = Some (ts, String comma l2)
    ∧ read_field l2 = Some (ch, String comma l3)
    ∧ read_field l3 = Some (user, String comma l4)
    ∧ read_field l4 = Some (msg, EmptyString).
Proof.
  unfold message_line. cbn [join].
  change ","%string with (String comma EmptyString).
  exists (csv_escape_text ch +:+ String comma "" +:+ csv_escape_text user
          +:+ String comma "" +:+ csv_escape_text msg),
         (csv_escape_text user +:+ String comma "" +:+ csv_escape_text msg),
         (csv_escape_text msg).
  split; [|split; [|split]].
  - apply (read_field_escaped ts). right. eexists. reflexivity.
  - apply (read_field_escaped ch). right. eexists. reflexivity.
  - apply (read_field_escaped user). right. eexists. reflexivity.
  - rewrite <- (str_app_empty (csv_escape_text msg)) at 1.
    apply read_field_escaped. by left.
Qed.

(** X9. The message export loses nothing in escaping. A text without
    double quote, comma and line feed is written as it is; any other text
    is written between double quotes with its double quotes doubled, so
    that no comma of a field is taken for a separator; and two messages
    whose time stamp, channel, username or message text differ are never
    exported as the same line. *)
Theorem message_line_injective (ts ch user msg ts' ch' user' msg' : string) :
  (message_line ts ch user msg = message_line ts' ch' user' msg' →
   ts = ts' ∧ ch = ch' ∧ user = user' ∧ msg = msg')
  ∧ (str_contains dquote msg || str_contains comma msg
     || str_contains linefeed msg = false →
     csv_escape_text msg = msg)
  ∧ (str_contains dquote msg || str_contains comma msg
     || str_contains linefeed msg = true →
     csv_escape_text msg
     = String dquote (double_quotes msg +:+ String dquote EmptyString))
  ∧ (csv_escape_text msg = csv_escape_text msg' → msg = msg').
Proof.
  split; [|split; [|split]].
  - intros Heq.
    destruct (message_line_read ts ch user msg)
      as (a2 & a3 & a4 & A1 & A2 & A3 & A4).
    destruct (message_line_read ts' ch' user' msg')
      as (b2 & b3 & b4 & B1 & B2 & B3 & B4).
    rewrite Heq in A1. rewrite B1 in A1. injection A1 as <- <-.
    rewrite B2 in A2. injection A2 as <- <-.
    rewrite B3 in A3. injection A3 as <- <-.
    rewrite B4 in A4. injection A4 as <-. done.
  - intros H. unfold csv_escape_text. by rewrite H.
  - intros H. unfold csv_escape_text. by rewrite H.
  - intros Heq.
    pose proof (read_field_escaped msg EmptyString (or_introl eq_refl)) as A.
    pose proof (read_field_escaped msg' EmptyString (or_introl eq_refl)) as B.
    rewrite Heq, B in A. by injection A as <-.
Qed.

Lemma message_line_injective_witness :
  csv_escape_text "hi, all"
  = String dquote (double_quotes "hi, all" +:+ String dquote EmptyString).
Proof.
  exact (proj1 (proj2 (proj2 (message_line_injective
                  "" "" "" "hi, all" "" "" "" "hi, all"))) eq_refl).
Defined.

(** A text with a double quote and a comma, and a plain one. *)
Example csv_escape_examples :
  let q := String dquote EmptyString in
  csv_escape_text ("say " +:+ q +:+ "hi" +:+ q +:+ ", ok")
  = q +:+ "say " +:+ q +:+ q +:+ "hi" +:+ q +:+ q +:+ ", ok" +:+ q
  ∧ csv_escape_text "plain text" = "plain text"
  ∧ csv_escape_text "" = "".
Proof. repeat split. Qed.

(** ** Exporting the log of a run *)

Lemma collect_rows_decoded (json_loads : string → option json)
    (lines : list string) (entries : list (string * log_record)) :
  log_file json_loads lines entries →
  collect_rows json_loads "message" lines = inr (message_rows entries).
Proof.
  induction 1 as [|line lines entries Hblank _ IH
                  |line [ts r] lines entries [Hne Hdec] _ IH]; [done| |].
  { cbn [collect_rows]. by rewrite Hblank. }
  cbn [collect_rows].
  destruct (String.eqb_spec (strip line) "") as [He|_]; [done|].
  rewrite Hdec. unfold message_rows in *. cbn [omap list_omap] in *.
  cbn [fst snd] in *.
  destruct r as [ch id|ch user content|sn]; cbn [record_json py_get assoc];
    rewrite IH; done.
Qed.

Lemma message_rows_length (entries : list (string * log_record)) :
  length (message_rows entries) = length (logged_usernames entries.*2).
Proof.
  unfold message_rows, logged_usernames.
  induction entries as [|[ts r] entries IH]; [done|].
  csimpl. destruct r; simpl; by rewrite ?IH.
Qed.


Lemma demo_lines_hold : log_file demo_log_loads demo_lines demo_entries.
Proof.
  apply log_file_record; [split; [vm_compute; discriminate | reflexivity]|].
  apply log_file_blank; [reflexivity|].
  apply log_file_record; [split; [vm_compute; discriminate | reflexivity]|].
  apply log_file_end.
Defined.


Lemma collect_rows_snapshots (json_loads : string → option json)
    (lines : list string) (entries : list (string * log_record)) :
  log_file json_loads lines entries →
  collect_rows json_loads "snapshot" lines
  = inr ((λ e : string * snapshot_record, record_json e.1 (Snapshot e.2))
         <$> stamped_snapshots entries).
Proof.
  induction 1 as [|line lines entries Hblank _ IH
                  |line [ts r] lines entries [Hne Hdec] _ IH]; [done| |].
  { cbn [collect_rows]. by rewrite Hblank. }
  cbn [collect_rows].
  destruct (String.eqb_spec (strip line) "") as [He|_]; [done|].
  rewrite Hdec. unfold stamped_snapshots in *. cbn [omap list_omap] in *.
  cbn [fst snd] in *.
  destruct r as [ch id|ch user content|sn]; cbn [record_json py_get assoc];
    rewrite IH; done.
Qed.

Lemma snapshot_row_of_record (repr : json → string) (ts : string)
    (sn : snapshot_record) :
  snapshot_row repr (record_json ts (Snapshot sn))
  = inr (snapshot_line repr ts sn).
Proof.
  unfold snapshot_row, snapshot_line. cbn [record_json].
  cbn [field_or_empty field_or_none assoc String.eqb Ascii.eqb Bool.eqb
       default from_option id as_text].
  destruct (viewer_count sn) as [z|];
    destruct (screenshot_path sn) as [t|]; cbn [json_opt_int json_opt_str].
  - unfold py_or. cbn [truthy].
    destruct (String.eqb_spec t "") as [->|Hne]; done.
  - done.
  - unfold py_or. cbn [truthy].
    destruct (String.eqb_spec t "") as [->|Hne]; done.
  - done.
Qed.

Lemma write_rows_of_records (repr : json → string)
    (snaps : list (string * snapshot_record)) :
  write_rows repr
    ((λ e : string * snapshot_record, record_json e.1 (Snapshot e.2)) <$> snaps)
  = ((λ e : string * snapshot_record, snapshot_line repr e.1 e.2) <$> snaps,
     None).
Proof.
  induction snaps as [|[ts sn] snaps IH]; [done|].
  rewrite !fmap_cons. cbn [write_rows fst snd].
  rewrite snapshot_row_of_record, IH. done.
Qed.

(** X11. Exporting the statistics of a log. When the lines of the input,
    blank lines aside, decode to records as [run_live] writes them,
    [export_csv] never fails:
    it prints its notice and returns 1 if the log holds no snapshot, and
    otherwise writes the header and exactly one line per snapshot record,
    in log order, made of the record's time stamp, channel, six counts,
    viewer count (empty when unknown) and screenshot path (empty when
    there is none), joined by commas without escaping; message and
    [session_start] records and blank lines leave no trace. *)
Theorem export_csv_of_log (json_loads : string → option json)
    (repr : json → string) (lines : list string)
    (entries : list (string * log_record))
    (Hlines : log_file json_loads lines entries) :
  export_csv json_loads repr lines
  = (match stamped_snapshots entries with
     | [] => CsvEmpty "No snapshot data found"
     | snaps =>
         CsvWrote (csv_header
                   :: ((λ e : string * snapshot_record,
                          snapshot_line repr e.1 e.2) <$> snaps))
     end)
  ∧ length (stamped_snapshots entries) = length (logged_snapshots entries.*2).
Proof.
  split.
  - unfold export_csv. rewrite (collect_rows_snapshots _ _ _ Hlines).
    destruct (stamped_snapshots entries) as [|e snaps] eqn:E; [done|].
    rewrite write_rows_of_records. done.
  - unfold stamped_snapshots, logged_snapshots. clear Hlines.
    induction entries as [|[ts r] entries IH]; [done|].
    csimpl. destruct r; simpl; by rewrite ?IH.
Qed.

Lemma shots_lines_decode : log_file shots_log_loads demo_lines shots_entries.
Proof.
  apply log_file_record; [split; [vm_compute; discriminate | reflexivity]|].
  apply log_file_blank; [reflexivity|].
  apply log_file_record; [split; [vm_compute; discriminate | reflexivity]|].
  apply log_file_end.
Defined.

Lemma export_csv_of_log_witness :
  ∃ line,
    export_csv shots_log_loads (λ _, "0") demo_lines
    = CsvWrote [csv_header; line].
Proof.
  eexists.
  etrans; [exact (proj1 (export_csv_of_log shots_log_loads (λ _, "0")
                           demo_lines shots_entries shots_lines_decode))|].
  reflexivity.
Defined.

(** ** Eviction on a time-ordered window *)

Lemma filter_all_true {A} (f : A → bool) (l : list A) :
  Forall (λ x, f x = true) l → List.filter f l = l.
Proof.
  induction 1 as [|x l Hx _ IH]; simpl; [done|]. by rewrite Hx, IH.
Qed.

Lemma evict_is_filter (now : Q) (evs : list event) :
  time_ordered evs → evict now evs = List.filter (in_last_minute now) evs.
Proof.
  unfold time_ordered. induction 1 as [|e evs Hs IH Hall]; [done|].
  cbn [evict List.filter]. unfold in_last_minute at 1.
  destruct (Qlt_bool e.1 (now - 60)) eqn:E.
  - apply Qlt_bool_iff in E.
    replace (Qge_bool e.1 (now - 60)) with false; [done|].
    symmetry. apply Qle_bool_false. exact E.
  - apply Qlt_bool_false in E.
    replace (Qge_bool e.1 (now - 60)) with true
      by (symmetry; by apply Qge_bool_iff).
    f_equal. symmetry. apply filter_all_true.
    eapply Forall_impl; [exact Hall|]. intros e' He'. simpl in He'.
    apply Qge_bool_iff. lra.
Qed.

Lemma time_ordered_snoc (evs : list event) (now : Q) (u : string) :
  time_ordered evs → Forall (λ e : event, (e.1 <= now)%Q) evs →
  time_ordered (evs ++ [(now, u)]).
Proof.
  unfold time_ordered. intros Hs Hall.
  apply StronglySorted_app_2; [|done|repeat constructor].
  intros a b Ha Hb. apply list_elem_of_singleton in Hb as ->.
  rewrite Forall_forall in Hall. by apply Hall.
Qed.

(** X12. On a window whose events are in time order, eviction removes
    exactly the events older than 60 units: what stays is the events with
    timestamp >= now - 60, so the per-minute count is the number of such
    events and every retained event lies within the horizon. Time order
    is kept by eviction and by recording a message whose timestamp is not
    before those already in the window. *)
Theorem eviction_on_ordered_window (now : Q) (s : session)
    (Hsorted : time_ordered (events s)) :
  let r := stats_query now s in
  events r.1 = List.filter (in_last_minute now) (events s)
  ∧ per_min r.2 = length (List.filter (in_last_minute now) (events s))
  ∧ Forall (λ e : event, (now - 60 <= e.1)%Q) (events r.1)
  ∧ time_ordered (events r.1)
  ∧ (∀ t u, Forall (λ e : event, (e.1 <= t)%Q) (events s) →
            time_ordered (events (record_message t u s))).
Proof.
  intros r. subst r. cbn [stats_query fst snd window_stats per_min events set_events].
  rewrite (evict_is_filter now (events s) Hsorted).
  split; [done|]. split; [done|]. split; [|split].
  - apply Forall_forall. intros e He.
    apply list_elem_of_In, filter_In in He as [_ He].
    by apply Qge_bool_iff in He.
  - rewrite <- (evict_is_filter now (events s) Hsorted).
    destruct (evict_suffix now (events s)) as [k Hk].
    unfold time_ordered in *. rewrite Hk in Hsorted.
    by apply StronglySorted_app_1_r in Hsorted.
  - intros t u Hall. by apply time_ordered_snoc.
Qed.

Lemma eviction_on_ordered_window_witness :
  time_ordered [(0%Q, "A"); (30%Q, "B"); ((119 # 2)%Q, "C")]
  ∧ events (stats_query (301 # 5)
              (set_events [(0%Q, "A"); (30%Q, "B"); ((119 # 2)%Q, "C")]
                 demo_start)).1
    = List.filter (in_last_minute (301 # 5))
        [(0%Q, "A"); (30%Q, "B"); ((119 # 2)%Q, "C")].
Proof.
  assert (time_ordered [(0%Q, "A"); (30%Q, "B"); ((119 # 2)%Q, "C")]) as H.
  { unfold time_ordered.
    repeat (constructor; [|repeat constructor; simpl; unfold Qle; simpl; lia]).
    constructor. }
  split; [exact H|].
  exact (proj1 (eviction_on_ordered_window (301 # 5)
                  (set_events [(0%Q, "A"); (30%Q, "B"); ((119 # 2)%Q, "C")]
                     demo_start) H)).
Defined.

(** When the clock went backwards, an event older than the horizon stays
    in the window as long as a fresh one is in front of it, and is counted
    in the per-minute count. *)
Example stale_event_behind_fresh_head :
  let r := stats_query 101 (set_events backwards_events demo_start) in
  events r.1 = backwards_events ∧ per_min r.2 = 3.
Proof. vm_compute. repeat split. Qed.

(** ** Actor ids *)

(** The empty name is no actor of the state, in none of its structures. *)
Lemma no_empty_actor_record (cfg : config) (now : Q) (u : string) (c : json)
    (s : session) :
  u ≠ "" →
  ("" ∉ logged_usernames (log s)) ∧ ("" ∉ unique_users s)
  ∧ dict_get (user_counts s) "" = 0 →
  let s' := jsonl_write (Message (channel_label cfg) u c)
              (record_message now u s) in
  ("" ∉ logged_usernames (log s')) ∧ ("" ∉ unique_users s')
  ∧ dict_get (user_counts s') "" = 0.
Proof.
  intros Hu (Hl & Hs & Hc). simpl. split; [|split].
  - unfold logged_usernames in *. rewrite omap_app. simpl.
    rewrite elem_of_app, list_elem_of_singleton. intros [H|H]; [done|].
    by subst u.
  - rewrite elem_of_union, elem_of_singleton. intros [H|H]; [done|].
    by subst u.
  - by rewrite dict_get_set_other.
Qed.

Lemma logged_usernames_snapshot (l : list log_record) (sn : snapshot_record) :
  logged_usernames (l ++ [Snapshot sn]) = logged_usernames l.
Proof.
  unfold logged_usernames. rewrite omap_app. simpl. by rewrite app_nil_r.
Qed.

Lemma reachable_no_empty_actor (json_loads : string → option json)
    (cfg : config) (v : option Z) (t0 : Q) (fs : gset string) (sys : system) :
  reachable json_loads cfg v t0 fs sys →
  ("" ∉ logged_usernames (log (sess sys)))
  ∧ ("" ∉ unique_users (sess sys))
  ∧ dict_get (user_counts (sess sys)) "" = 0.
Proof.
  unfold reachable. revert sys.
  apply (rtc_ind_r (λ sys, ("" ∉ logged_usernames (log (sess sys)))
                           ∧ ("" ∉ unique_users (sess sys))
                           ∧ dict_get (user_counts (sess sys)) "" = 0)).
  - simpl. split; [apply not_elem_of_nil|]. split; [|done].
    apply not_elem_of_empty.
  - intros y z _ Hstep IH.
    destruct (step_kinds _ _ _ _ Hstep)
      as [Hd|[(count & _ & ->)|[(now & now' & evs & Hevs & ->)
         |[(now & _ & ->)|[(now & u & c & Hu & _ & ->)|(-> & _)]]]]].
    + destruct Hd as (_ & -> & -> & _ & _ & _ & _ & ->). done.
    + done.
    + destruct (stats_tick_cases cfg now now' (set_events evs (sess y)) (sch y))
        as [[_ ->]|[_ [->|[->|[line ->]]]]]; simpl;
        rewrite ?logged_usernames_snapshot; done.
    + done.
    + by apply no_empty_actor_record.
    + done.
Qed.

(** X13. No message is ever recorded under an empty actor id: a frame the
    listener records carries a non-empty username (the sender's name, or
    "anon"). In every state a run can reach, the empty name is therefore
    neither a logged username nor a unique actor, and its count is
    zero. *)
Theorem actor_ids_never_empty (json_loads : string → option json)
    (cfg : config) (v : option Z) (t0 : Q) (fs : gset string) (sys : system)
    (Hreach : reachable json_loads cfg v t0 fs sys) :
  ("" ∉ logged_usernames (log (sess sys)))
  ∧ ("" ∉ unique_users (sess sys))
  ∧ dict_get (user_counts (sess sys)) "" = 0
  ∧ (∀ now r s',
       listen_step json_loads cfg now r (sess sys) = Recorded s' →
       ∃ username content,
         username ≠ ""
         ∧ s' = jsonl_write (Message (channel_label cfg) username content)
                  (record_message now username (sess sys))).
Proof.
  destruct (reachable_no_empty_actor _ _ _ _ _ _ Hreach) as (Hl & Hs & Hc).
  split; [done|]. split; [done|]. split; [done|].
  intros now r s' Hr. by apply listen_step_recorded_nonempty in Hr.
Qed.

Lemma actor_ids_never_empty_witness :
  reachable demo_loads demo_cfg None 0 ∅ demo_heard
  ∧ ("" ∉ unique_users (sess demo_heard)).
Proof.
  split; [exact demo_heard_reachable|].
  exact (proj1 (proj2 (actor_ids_never_empty demo_loads demo_cfg None 0 ∅
                         demo_heard demo_heard_reachable))).
Defined.

(** ** The retained captures over a run *)

Lemma capture_once_paths_cases (cfg : config) (w : capture_world) (s : session) :
  (screenshot_paths (capture_once cfg w s).1.1 = screenshot_paths s
   ∧ latest_screenshot (capture_once cfg w s).1.1 = latest_screenshot s)
  ∨ (∃ dir, screenshot_dir cfg = Some dir
            ∧ opt_str_truthy (stream_url cfg) = true
            ∧ primary_succeeds w).
Proof.
  unfold capture_once.
  destruct (screenshot_dir cfg) as [dir|] eqn:Ed; [|by left].
  destruct (opt_str_truthy (stream_url cfg)) eqn:Eu; [|by left].
  cbn [negb].
  destruct (spawn (primary w)) eqn:Esp; [by left|by left|].
  destruct (completes_within 15 (primary w)) eqn:Edone; [|by left].
  cbn [negb].
  destruct (Z.eqb_spec (returncode (primary w)) 0) as [Hrc|Hrc]; [|by left].
  right. exists dir. by repeat split.
Qed.

Lemma fifo_bounded_capture (cfg : config) (N : nat) (w : capture_world)
    (s : session) :
  screenshot_max cfg = Some (Z.of_nat N) → 0 < N →
  fifo_bounded N s → fifo_bounded N (capture_once cfg w s).1.1.
Proof.
  intros Hmax HN [Hlen Hlast].
  destruct (capture_once_paths_cases cfg w s) as [[Hp Hl]|(dir & Hd & Hu & Hok)].
  - unfold fifo_bounded. by rewrite Hp, Hl.
  - destruct (capture_once_retains cfg dir N Hd Hu Hmax HN w s Hok)
      as (Hl & Hp & _ & _).
    unfold fifo_bounded. rewrite Hl, Hp. split.
    + rewrite length_drop, length_app. simpl. lia.
    + rewrite length_app. simpl.
      replace (length (screenshot_paths s) + 1 - N)
        with (length (screenshot_paths s) - (N - 1)) by lia.
      rewrite drop_app_le by lia. apply last_snoc.
Qed.

(** A call either leaves the captures as they are and deletes nothing,
    or its primary process succeeded. *)
Lemma capture_once_cases (cfg : config) (w : capture_world) (s : session) :
  (screenshot_paths (capture_once cfg w s).1.1 = screenshot_paths s
   ∧ latest_screenshot (capture_once cfg w s).1.1 = latest_screenshot s
   ∧ files (capture_once cfg w s).1.1 = files s
   ∧ unlinked (capture_once cfg w s).1.2 = [])
  ∨ (∃ dir, screenshot_dir cfg = Some dir
            ∧ opt_str_truthy (stream_url cfg) = true
            ∧ primary_succeeds w).
Proof.
  unfold capture_once.
  destruct (screenshot_dir cfg) as [dir|] eqn:Ed; [|by left].
  destruct (opt_str_truthy (stream_url cfg)) eqn:Eu; [|by left].
  cbn [negb].
  destruct (spawn (primary w)) eqn:Esp; [by left|by left|].
  destruct (completes_within 15 (primary w)) eqn:Edone; [|by left].
  cbn [negb].
  destruct (Z.eqb_spec (returncode (primary w)) 0) as [Hrc|Hrc]; [|by left].
  right. exists dir. by repeat split.
Qed.

(** Without a maximum a call deletes nothing and takes no file away. *)
Lemma capture_once_unbounded (cfg : config) (w : capture_world) (s : session) :
  int_truthy (screenshot_max cfg) = false →
  screenshot_paths (capture_once cfg w s).1.1 = screenshot_paths s
  ∧ unlinked (capture_once cfg w s).1.2 = []
  ∧ files s ⊆ files (capture_once cfg w s).1.1.
Proof.
  intros Hmax.
  destruct (capture_once_cases cfg w s)
    as [(Hp & _ & Hf & Hu)|(dir & Hd & Hurl & Hok)].
  - rewrite Hp, Hf, Hu. done.
  - destruct (capture_once_success cfg w s dir Hd Hurl Hok) as (Hp & Hf & _ & Hu).
    rewrite Hp, Hf, Hu. unfold store_capture. rewrite Hmax. simpl.
    split; [done|]. split; [done|]. apply union_subseteq_l.
Qed.

(** With a maximum of N and a FIFO within it, a call deletes nothing, or
    the FIFO was full and the call deletes its oldest entry and nothing
    else. *)
Lemma capture_once_deletes_oldest (cfg : config) (N : nat) (w : capture_world)
    (s : session) :
  screenshot_max cfg = Some (Z.of_nat N) → 0 < N →
  length (screenshot_paths s) ≤ N →
  unlinked (capture_once cfg w s).1.2 = []
  ∨ (length (screenshot_paths s) = N
     ∧ unlinked (capture_once cfg w s).1.2 = take 1 (screenshot_paths s)).
Proof.
  intros Hmax HN Hlen.
  destruct (capture_once_cases cfg w s)
    as [(_ & _ & _ & Hu)|(dir & Hd & Hurl & Hok)]; [by left|].
  destruct (capture_once_retains cfg dir N Hd Hurl Hmax HN w s Hok)
    as (_ & _ & Hu & _).
  rewrite Hu, length_app. simpl.
  destruct (decide (length (screenshot_paths s) = N)) as [Heq|Hne].
  - right. split; [done|].
    replace (length (screenshot_paths s) + 1 - N) with 1 by lia.
    rewrite take_app_le by lia. done.
  - left. replace (length (screenshot_paths s) + 1 - N) with 0 by lia. done.
Qed.

(** What one step of the run does to the captures. *)
Lemma step_captures (json_loads : string → option json) (cfg : config)
    (x y : system) :
  step json_loads cfg x y →
  (screenshot_paths (sess y) = screenshot_paths (sess x)
   ∧ latest_screenshot (sess y) = latest_screenshot (sess x)
   ∧ files (sess y) = files (sess x))
  ∨ ∃ w, sess y = (capture_once cfg w (sess x)).1.1.
Proof.
  intros Hstep. step_cases Hstep; simpl; try (by left); try (right; by eauto).
  - left.
    destruct (stats_tick_cases cfg now now' (sess x') (sch x'))
      as [[_ Hr]|[_ [Hr|[Hr|[line Hr]]]]];
      rewrite Ht in Hr; simpl in Hr; by subst s'.
  - left.
    destruct (stats_tick_cases cfg now now' (set_events [] (sess x')) (sch x'))
      as [[_ Hr]|[_ [Hr|[Hr|[line Hr]]]]];
      rewrite Ht in Hr; simpl in Hr; by subst s'.
  - left.
    destruct (after_frame_cases _ _ _ _ _ _ Hf)
      as (_ & _ & _ & _ & [[-> _]|[(u & c & _ & -> & _)|(ev & -> & _)]]);
      done.
Qed.

(** X14. Retention over a whole run. With a maximum of N captures
    configured, in every state a run can reach, whatever succeeded or
    failed on the way, the FIFO holds at most N paths and its newest entry
    is the latest screenshot (the FIFO is empty exactly as long as there
    is none); a capture call made in such a state asks for no deletion, or
    the FIFO is full and the call asks for the deletion of its oldest
    entry and of nothing else. Without a maximum nothing is ever put in
    the FIFO and no file is ever deleted: a call asks for no deletion and
    takes no file out of the directory, and every file the directory held
    at the start is still there. *)
Theorem retained_captures_bounded (json_loads : string → option json)
    (cfg : config) (v : option Z) (t0 : Q) (fs : gset string) (sys : system)
    (Hreach : reachable json_loads cfg v t0 fs sys) :
  (∀ N, screenshot_max cfg = Some (Z.of_nat N) → 0 < N →
        fifo_bounded N (sess sys)
        ∧ ∀ w, let tr := (capture_once cfg w (sess sys)).1.2 in
               unlinked tr = []
               ∨ (length (screenshot_paths (sess sys)) = N
                  ∧ unlinked tr = take 1 (screenshot_paths (sess sys))))
  ∧ (int_truthy (screenshot_max cfg) = false →
     screenshot_paths (sess sys) = []
     ∧ fs ⊆ files (sess sys)
     ∧ ∀ w, unlinked (capture_once cfg w (sess sys)).1.2 = []
            ∧ files (sess sys) ⊆ files (capture_once cfg w (sess sys)).1.1).
Proof.
  split.
  - intros N Hmax HN.
    assert (fifo_bounded N (sess sys)) as Hb.
    { revert sys Hreach. unfold reachable.
      apply (rtc_ind_r (λ sys, fifo_bounded N (sess sys))).
      - split; simpl; [lia|done].
      - intros y z _ Hstep IH.
        destruct (step_captures _ _ _ _ Hstep) as [(Hp & Hl & _)|[w ->]].
        + unfold fifo_bounded. by rewrite Hp, Hl.
        + by apply fifo_bounded_capture. }
    split; [done|]. intros w tr.
    apply (capture_once_deletes_oldest cfg N w (sess sys) Hmax HN).
    apply Hb.
  - intros Hmax.
    assert (screenshot_paths (sess sys) = [] ∧ fs ⊆ files (sess sys))
      as [Hp Hf].
    { revert sys Hreach. unfold reachable.
      apply (rtc_ind_r (λ sys, screenshot_paths (sess sys) = []
                               ∧ fs ⊆ files (sess sys))).
      - done.
      - intros y z _ Hstep [IHp IHf].
        destruct (step_captures _ _ _ _ Hstep) as [(Hp & _ & Hf)|[w ->]].
        + by rewrite Hp, Hf.
        + destruct (capture_once_unbounded cfg w (sess y) Hmax)
            as (Hp & _ & Hf).
          rewrite Hp. split; [done|]. by etrans. }
    split; [done|]. split; [done|]. intros w.
    destruct (capture_once_unbounded cfg w (sess sys) Hmax) as (_ & Hu & Hs).
    done.
Qed.

Lemma shots_captured_reachable :
  reachable demo_loads shots_cfg None 0 ∅ shots_captured.
Proof.
  unfold reachable. eapply rtc_r; [exact shots_ticked_reachable|].
  by apply (step_capture_task demo_loads shots_cfg 0 (smooth "t1")
              shots_ticked).
Defined.

Lemma retained_captures_bounded_witness :
  reachable demo_loads shots_cfg None 0 ∅ shots_captured
  ∧ screenshot_paths (sess shots_captured) = ["shots/demo-t1.jpg"]
  ∧ fifo_bounded 2 (sess shots_captured).
Proof.
  split; [exact shots_captured_reachable|]. split; [reflexivity|].
  refine (proj1 (proj1 (retained_captures_bounded demo_loads shots_cfg None 0 ∅
                          shots_captured shots_captured_reachable)
                   2 eq_refl _)).
  lia.
Defined.

(** ** When a tick ends the run *)

Lemma int_truthy_spec (o : option Z) :
  int_truthy o = true ↔ ∃ n, o = Some n ∧ n ≠ 0%Z.
Proof.
  destruct o as [n|]; simpl.
  - rewrite negb_true_iff, Z.eqb_neq. split; [eauto|].
    intros (m & Hm & Hne). by injection Hm as ->.
  - split; [done|]. by intros (m & Hm & _).
Qed.

Lemma idle_too_long_spec (cfg : config) (now : Q) (s : session) :
  int_truthy (inactivity cfg)
  && Qge_bool (now - last_message_time s)
       (inject_Z (default 0%Z (inactivity cfg))) = true
  ↔ idle_too_long cfg now s.
Proof.
  rewrite andb_true_iff, int_truthy_spec, Qge_bool_iff. unfold idle_too_long.
  split.
  - intros [(n & Hn & Hne) Hle]. rewrite Hn in Hle. eauto.
  - intros (n & Hn & Hne & Hle). rewrite Hn. eauto.
Qed.

Lemma duration_over_spec (cfg : config) (now' : Q) (s : session) :
  int_truthy (duration cfg)
  && Qge_bool (now' - start_time s)
       (inject_Z (default 0%Z (duration cfg))) = true
  ↔ duration_over cfg now' s.
Proof.
  rewrite andb_true_iff, int_truthy_spec, Qge_bool_iff. unfold duration_over.
  split.
  - intros [(n & Hn & Hne) Hle]. rewrite Hn in Hle. eauto.
  - intros (n & Hn & Hne & Hle). rewrite Hn. eauto.
Qed.

(** X15. When a tick ends the run. A tick in a run that is not stopped
    breaks the loop exactly when the inactivity limit is set and no
    message has come for at least that long (measured from the last
    recorded message, or from the start), or the duration is set and has
    elapsed; it sets the stop signal exactly when it breaks the loop. In
    either case the snapshot of that tick is written first, and the tick
    leaves the start time and the time of the last message alone. *)
Theorem tick_stop_conditions (cfg : config) (now now' : Q) (s : session)
    (sc : sched) (Hrun : stop_event s = false) :
  let r := stats_tick cfg now now' s sc in
  (r.2 = Break ↔ idle_too_long cfg now s ∨ duration_over cfg now' s)
  ∧ (stop_event r.1.1 = true ↔ r.2 = Break)
  ∧ log r.1.1
    = log s ++ [Snapshot (snapshot cfg (stats_query now s).2 (stats_query now s).1)]
  ∧ start_time r.1.1 = start_time s
  ∧ last_message_time r.1.1 = last_message_time s
  ∧ (∀ t u, last_message_time (record_message t u s) = t).
Proof.
  intros r. subst r. unfold stats_tick. rewrite Hrun.
  cbn [stats_query fst snd window_stats last_msg].
  pose proof (idle_too_long_spec cfg now s) as Hidle.
  pose proof (duration_over_spec cfg now' s) as Hover.
  cbn [jsonl_write set_events start_time last_message_time] in *.
  destruct (int_truthy (inactivity cfg) && _) eqn:E1.
  - cbn [fst snd]. split; [|by repeat split].
    split; [intros _; left; by apply Hidle|done].
  - destruct (int_truthy (duration cfg) && _) eqn:E2.
    + cbn [fst snd]. split; [|by repeat split].
      split; [intros _; right; by apply Hover|done].
    + cbn [fst snd]. split.
      * split; [done|]. intros [H|H].
        -- apply Hidle in H. congruence.
        -- apply Hover in H. congruence.
      * split; [|by repeat split]. simpl. rewrite Hrun. split; done.
Qed.

Lemma tick_stop_conditions_witness :
  stop_event (initial idle_cfg None 0 ∅) = false
  ∧ (stats_tick idle_cfg 10 10 (initial idle_cfg None 0 ∅) no_tasks).2 = Break
  ∧ (stats_tick idle_cfg (19 # 2) (19 # 2) (initial idle_cfg None 0 ∅)
       no_tasks).2 = Continue.
Proof.
  split; [reflexivity|]. split.
  - apply (proj1 (tick_stop_conditions idle_cfg 10 10
                    (initial idle_cfg None 0 ∅) no_tasks eq_refl)).
    left. exists 10%Z. split; [reflexivity|]. split; [lia|].
    unfold Qle. simpl. lia.
  - reflexivity.
Defined.

(** ** The fixed-interval capture loop *)

Lemma capture_screenshots_stopped (cfg : config) (ws : list capture_world)
    (s : session) :
  stop_event s = true → capture_screenshots cfg ws s = (s, [], Returned).
Proof. intros Hs. destruct ws; simpl; [done|]. by rewrite Hs. Qed.

Lemma capture_once_not_found (cfg : config) (w : capture_world) (s : session)
    (dir : string) :
  screenshot_dir cfg = Some dir →
  opt_str_truthy (stream_url cfg) = true →
  spawn (primary w) = SpawnNotFound →
  capture_once cfg w s = (on_not_found s, [], Returned).
Proof.
  intros Hd Hu Hsp. unfold capture_once. by rewrite Hd, Hu, Hsp.
Qed.

Lemma capture_screenshots_ends (cfg : config) (ws : list capture_world)
    (s : session) :
  let r := capture_screenshots cfg ws s in
  same_run_data s r.1.1
  ∧ (stop_event s = true → r = (s, [], Returned)).
Proof.
  split; [|by apply capture_screenshots_stopped].
  revert s. induction ws as [|w ws IH]; intros s; [apply same_run_data_refl|].
  cbn [capture_screenshots].
  destruct (stop_event s); [apply same_run_data_refl|].
  pose proof (capture_once_same_data cfg w s) as H1.
  destruct (capture_once cfg w s) as [[s1 tr] c]. simpl in H1.
  destruct c; [|done].
  specialize (IH s1).
  destruct (capture_screenshots cfg ws s1) as [[s2 tr'] c']. simpl in *.
  by eapply same_run_data_trans.
Qed.

(** X16. The fixed-interval capture loop gives up for good once ffmpeg
    cannot be found. If a call of the loop meets [FileNotFoundError] on
    the primary process, the calls that would have followed are never
    made: the loop ends as if that call had been its last, and it ends
    with the stop signal set unless an exception had ended it before. A
    loop entered with the stop signal set makes no call at all, and the
    loop never touches the window, the counters or the log. *)
Theorem capture_loop_ends_without_ffmpeg (cfg : config) (dir : string)
    (before after : list capture_world) (w : capture_world) (s : session)
    (Hdir : screenshot_dir cfg = Some dir)
    (Hurl : opt_str_truthy (stream_url cfg) = true)
    (Hgone : spawn (primary w) = SpawnNotFound) :
  let r := capture_screenshots cfg (before ++ w :: after) s in
  r = capture_screenshots cfg (before ++ [w]) s
  ∧ (r.2 = Returned → stop_event r.1.1 = true)
  ∧ same_run_data s r.1.1
  ∧ (stop_event s = true → r = (s, [], Returned)).
Proof.
  intros r. subst r.
  split; [|split; [|apply capture_screenshots_ends]].
  - revert s. induction before as [|b before IH]; intros s.
    + cbn [app capture_screenshots].
      destruct (stop_event s); [done|].
      rewrite (capture_once_not_found cfg w s dir Hdir Hurl Hgone).
      rewrite capture_screenshots_stopped by done. done.
    + cbn [app capture_screenshots].
      destruct (stop_event s); [done|].
      destruct (capture_once cfg b s) as [[s1 tr] c].
      destruct c; [|done]. by rewrite IH.
  - revert s. induction before as [|b before IH]; intros s.
    + cbn [app capture_screenshots].
      destruct (stop_event s) eqn:Es; [done|].
      rewrite (capture_once_not_found cfg w s dir Hdir Hurl Hgone).
      rewrite capture_screenshots_stopped by done. done.
    + cbn [app capture_screenshots].
      destruct (stop_event s) eqn:Es; [done|].
      destruct (capture_once cfg b s) as [[s1 tr] c].
      destruct c; [|done].
      specialize (IH s1).
      destruct (capture_screenshots cfg (before ++ w :: after) s1)
        as [[s2 tr'] c'].
      exact IH.
Qed.

Lemma capture_loop_ends_without_ffmpeg_witness :
  capture_screenshots shots_cfg
    [smooth "t1"; ffmpeg_gone "t2"; smooth "t3"; smooth "t4"] shots_start
  = capture_screenshots shots_cfg [smooth "t1"; ffmpeg_gone "t2"] shots_start
  ∧ screenshot_paths
      (capture_screenshots shots_cfg
         [smooth "t1"; ffmpeg_gone "t2"; smooth "t3"; smooth "t4"]
         shots_start).1.1
    = ["shots/demo-t1.jpg"].
Proof.
  split; [|reflexivity].
  exact (proj1 (capture_loop_ends_without_ffmpeg shots_cfg "shots"
                  [smooth "t1"] [smooth "t3"; smooth "t4"] (ffmpeg_gone "t2")
                  shots_start eq_refl eq_refl eq_refl)).
Defined.

(** ** The channel lookups *)

Lemma first_truthy_spec (candidates : list json) :
  (first_truthy candidates = JNull
   ∧ Forall (λ v, truthy v = false) candidates)
  ∨ (∃ before after,
       candidates = before ++ first_truthy candidates :: after
       ∧ truthy (first_truthy candidates) = true
       ∧ Forall (λ v, truthy v = false) before).
Proof.
  induction candidates as [|v rest IH]; [by left|].
  cbn [first_truthy]. destruct (truthy v) eqn:E.
  - right. exists [], rest. by repeat split.
  - destruct IH as [[Hn Hall]|(before & after & Heq & Ht & Hall)].
    + left. split; [done|]. by constructor.
    + right. exists (v :: before), after. split; [|split; [done|]].
      * cbn [app]. by rewrite <- Heq.
      * by constructor.
Qed.

(** X17. The stream address looked up for a channel is the first usable
    one: of the five places, in the order livestream.playback_url,
    livestream.playbackUrl, livestream.hls, playback_url, playbackUrl, the
    first one holding a truthy value wins and everything before it is
    null, empty or missing; the answer is [None] exactly when none of the
    five is usable, and also for a response that is not an object. So the
    answer is never an empty address. *)
Theorem stream_url_is_first_usable (data : json) :
  (is_dict data = false → resolve_stream_url data = inr JNull)
  ∧ (∀ v, resolve_stream_url data = inr v → v = JNull ∨ truthy v = true)
  ∧ (∀ v, is_dict data = true → resolve_stream_url data = inr v →
       ∃ candidates,
         stream_url_candidates data = inr candidates
         ∧ length candidates = 5
         ∧ ((v = JNull ∧ Forall (λ c, truthy c = false) candidates)
            ∨ ∃ before after,
                candidates = before ++ v :: after
                ∧ truthy v = true
                ∧ Forall (λ c, truthy c = false) before)).
Proof.
  split; [|split].
  - intros H. unfold resolve_stream_url. by rewrite H.
  - intros v. unfold resolve_stream_url.
    destruct (negb (is_dict data)); [intros H; injection H as <-; by left|].
    destruct (stream_url_candidates data) as [e|cands]; [done|].
    intros H. injection H as <-.
    destruct (first_truthy_spec cands) as [[-> _]|(b & a & _ & Ht & _)];
      [by left|by right].
  - intros v Hd. unfold resolve_stream_url. rewrite Hd. cbn [negb].
    destruct (stream_url_candidates data) as [e|cands] eqn:Ec; [done|].
    intros H. injection H as <-. exists cands. split; [done|]. split.
    + unfold stream_url_candidates in Ec.
      destruct (py_get data "livestream") as [e|l]; [done|].
      destruct (py_get (py_or l (JObj [])) "playback_url"); [done|].
      destruct (py_get (py_or l (JObj [])) "playbackUrl"); [done|].
      destruct (py_get (py_or l (JObj [])) "hls"); [done|].
      destruct (py_get data "playback_url"); [done|].
      destruct (py_get data "playbackUrl"); [done|].
      by injection Ec as <-.
    + destruct (first_truthy_spec cands) as [[Hn Hall]|(b & a & Heq & Ht & Hall)].
      * left. done.
      * right. exists b, a. done.
Qed.

Lemma stream_url_is_first_usable_witness :
  resolve_stream_url demo_response = inr (JStr "https://example.test/a.m3u8")
  ∧ (JStr "https://example.test/a.m3u8" = JNull
     ∨ truthy (JStr "https://example.test/a.m3u8") = true).
Proof.
  split; [reflexivity|].
  exact (proj1 (proj2 (stream_url_is_first_usable demo_response))
           (JStr "https://example.test/a.m3u8") eq_refl).
Defined.

(** X18. The viewer count read from a channel response. The count shown at
    start and the count the poller reads come from the same place:
    whenever [resolve_chatroom_id] (without proxy) returns, its viewer
    count is what [fetch_viewer_count] returns for the same response. The
    key [viewer_count] wins over [viewerCount] whenever it is present,
    even with a null value; [viewerCount] is used only when
    [viewer_count] is missing. A response that is not an object gives no
    count and no error, and with a proxy the count is never known at
    start. *)
Theorem viewer_count_sources (data : json) :
  (∀ id vc, resolve_chatroom_id false data = inr (id, vc) →
            fetch_viewer_count data = inr vc)
  ∧ (∀ id vc, resolve_chatroom_id true data = inr (id, vc) → vc = JNull)
  ∧ (is_dict data = false →
     fetch_viewer_count data = inr JNull
     ∧ resolve_chatroom_id false data = inr (JNull, JNull))
  ∧ (∀ fields x, assoc "viewer_count" fields = Some x →
                 viewer_count_of (JObj fields) = inr x)
  ∧ (∀ fields, assoc "viewer_count" fields = None →
               viewer_count_of (JObj fields)
               = inr (default JNull (assoc "viewerCount" fields))).
Proof.
  split; [|split; [|split; [|split]]].
  - intros id vc. unfold resolve_chatroom_id, fetch_viewer_count.
    destruct (is_dict data).
    + destruct (py_get data "chatroom") as [e|chatroom]; [done|].
      destruct (py_get (py_or chatroom (JObj [])) "id") as [e|i]; [done|].
      destruct (py_get data "livestream") as [e|l]; [done|].
      destruct (viewer_count_of (py_or l (JObj []))) as [e|c]; [done|].
      intros H. by injection H as _ <-.
    + intros H. by injection H as _ <-.
  - intros id vc. unfold resolve_chatroom_id.
    destruct (py_get data "chatroomId") as [e|i]; [done|].
    intros H. by injection H as _ <-.
  - intros H. unfold fetch_viewer_count, resolve_chatroom_id. by rewrite H.
  - intros fields x Hx. unfold viewer_count_of. cbn [py_get py_get_default].
    by rewrite Hx.
  - intros fields Hx. unfold viewer_count_of. cbn [py_get py_get_default].
    by rewrite Hx.
Qed.

Lemma viewer_count_sources_witness :
  resolve_chatroom_id false demo_response = inr (JNum 7, JNull)
  ∧ fetch_viewer_count demo_response = inr JNull.
Proof.
  split; [reflexivity|].
  exact (proj1 (viewer_count_sources demo_response) (JNum 7) JNull eq_refl).
Defined.
